(** * learning-for-friends: a verification development

    The repository is a sequence of self-contained Python lessons.  This
    file embeds the functions whose behaviour the specification states as
    testable properties, and settles each property on the embedding.

    Definitions
    - [Py]            : the fragment of the Python runtime the lessons use
    - [Utility]       : [TextEncryptionTool.caesar_cipher]  (13_utility_tools.py)
    - [Games]         : [HangmanGame], [TicTacToe], [NoteTakingApp]
                                                        (12_games_and_apps.py)
    - [ErrorHandling] : [safe_divide]                   (07_error_handling.py)
    - [Projects]      : [Task]                          (11_advanced_projects.py)
    - [Database]      : [transaction_example]       (10_database_operations.py)

    Properties, one module of facts for each of the above.

    Conventions.  Python [int] is [Z] and [float] is an IEEE-754 binary64
    as a [spec_float].  Python [str] is [string]; a character [ascii]
    stands for the code point of the same number, so the strings of the
    model are the strings over U+0000..U+00FF (ASCII and the Latin-1
    supplement).  A [set] of strings is a [gset], a [dict] with string
    keys a [gmap].  A call that may raise is a computation in [result];
    [Raise e] is an exception that left the function.  What the clock, the
    random generator and the disk contribute to a call is an argument of
    the call. *)

From Stdlib Require Import ZArith Ascii String List SpecFloat.
From stdpp Require Import base tactics option list gmap strings.

Local Open Scope Z_scope.

(** ** The fragment of the Python runtime the lessons use *)

Module Py.

Inductive exn : Set :=
| ValueError
| IndexError
| KeyError
| TypeError
| ZeroDivisionError
| OverflowError
| SqliteError.

Inductive result (A : Type) : Type :=
| Ok (a : A)
| Raise (e : exn).
Arguments Ok {A} a.
Arguments Raise {A} e.

#[export] Instance result_ret : MRet result := @Ok.
#[export] Instance result_bind : MBind result :=
  λ A B f m, match m with Ok a => f a | Raise e => Raise e end.

(** [ord(c)] *)
Definition ord (c : ascii) : Z := Z.of_N (N_of_ascii c).

(** [chr(n)] *)
Definition chr (n : Z) : ascii := ascii_of_N (Z.to_N n).

(** [c.isascii()] *)
Definition is_ascii (c : ascii) : bool := ord c <? 128.

Definition between (lo hi : Z) (c : ascii) : bool :=
  (lo <=? ord c) && (ord c <=? hi).

(** [c.islower()] for a one-character string: the lowercase letters of
    U+0000..U+00FF are a-z, U+00AA, U+00B5, U+00BA, U+00DF..U+00F6 and
    U+00F8..U+00FF. *)
Definition islower (c : ascii) : bool :=
  between 97 122 c || between 170 170 c || between 181 181 c
  || between 186 186 c || between 223 246 c || between 248 255 c.

(** [c.isupper()]: A-Z, U+00C0..U+00D6 and U+00D8..U+00DE. *)
Definition isupper (c : ascii) : bool :=
  between 65 90 c || between 192 214 c || between 216 222 c.

(** [s.index(c)] for a one-character [c]: the first position of [c], or
    [ValueError] when [c] does not occur. *)
Fixpoint index_from (i : Z) (s : string) (c : ascii) : result Z :=
  match s with
  | EmptyString => Raise ValueError
  | String d s' => if Ascii.eqb d c then Ok i else index_from (i + 1) s' c
  end.

Definition index (s : string) (c : ascii) : result Z := index_from 0 s c.

Definition len (s : string) : Z := Z.of_nat (String.length s).

(** Subscript normalisation shared by [str] and [list]: a negative
    position counts from the end, anything outside [-n .. n-1] is an
    [IndexError]. *)
Definition norm_index (n i : Z) : result nat :=
  let j := if i <? 0 then i + n else i in
  if (j <? 0) || (n <=? j) then Raise IndexError else Ok (Z.to_nat j).

(** [s[i]] on a string *)
Definition getitem (s : string) (i : Z) : result ascii :=
  j ← norm_index (len s) i;
  match String.get j s with
  | Some c => Ok c
  | None => Raise IndexError
  end.

(** [l[i]] on a list *)
Definition list_getitem {A : Type} (l : list A) (i : Z) : result A :=
  j ← norm_index (Z.of_nat (length l)) i;
  match l !! j with
  | Some x => Ok x
  | None => Raise IndexError
  end.

(** [l[i] = x] on a list *)
Definition list_setitem {A : Type} (l : list A) (i : Z) (x : A)
  : result (list A) :=
  j ← norm_index (Z.of_nat (length l)) i;
  Ok (<[j:=x]> l).

(** [c.lower()]: in U+0000..U+00FF the uppercase letters are A-Z,
    U+00C0..U+00D6 and U+00D8..U+00DE, each 32 below its lowercase. *)
Definition lower_char (c : ascii) : ascii :=
  if isupper c then ascii_of_N (N_of_ascii c + 32) else c.

(** [s.lower()] *)
Fixpoint lower (s : string) : string :=
  match s with
  | EmptyString => EmptyString
  | String c s' => String (lower_char c) (lower s')
  end.

(** [needle in hay] on strings: [needle] occurs as a substring. *)
Fixpoint contains (hay needle : string) : bool :=
  String.prefix needle hay
  || match hay with
     | EmptyString => false
     | String _ hay' => contains hay' needle
     end.

(** [random.choice(seq)]: [IndexError] on an empty sequence, otherwise
    the element at the position the generator draws; [draw] is the
    generator's raw output, reduced to [range(len(seq))]. *)
Definition choice {A : Type} (seq : list A) (draw : nat) : result A :=
  match seq with
  | [] => Raise IndexError
  | _ => list_getitem seq (Z.of_nat (draw mod length seq)%nat)
  end.

(** [string.ascii_lowercase], [string.ascii_uppercase] *)
Definition ascii_lowercase : string := "abcdefghijklmnopqrstuvwxyz".
Definition ascii_uppercase : string := "ABCDEFGHIJKLMNOPQRSTUVWXYZ".

End Py.

Import Py.

(** ** 13_utility_tools.py *)

Module Utility.

(** [TextEncryptionTool]: the two alphabets set up by [__init__]. *)
Record TextEncryptionTool : Set := {
  alphabet : string;
  alphabet_upper : string
}.

Definition init : TextEncryptionTool :=
  {| alphabet := ascii_lowercase; alphabet_upper := ascii_uppercase |}.

(** The body of the [for char in text] loop: the text appended to
    [result] for one character. *)
Definition caesar_char (self : TextEncryptionTool) (shift : Z) (char : ascii)
  : result ascii :=
  if islower char then
    current_pos ← index (alphabet self) char;
    let new_pos := (current_pos + shift) mod 26 in
    getitem (alphabet self) new_pos
  else if isupper char then
    current_pos ← index (alphabet_upper self) char;
    let new_pos := (current_pos + shift) mod 26 in
    getitem (alphabet_upper self) new_pos
  else
    Ok char.

(** The loop, with the accumulator [result] of the source. *)
Fixpoint caesar_loop (self : TextEncryptionTool) (shift : Z)
         (text : string) (acc : string) : result string :=
  match text with
  | EmptyString => Ok acc
  | String char rest =>
      c ← caesar_char self shift char;
      caesar_loop self shift rest (acc ++ String c EmptyString)
  end.

Definition caesar_cipher (self : TextEncryptionTool)
           (text : string) (shift : Z) (encrypt : bool) : result string :=
  let shift := if encrypt then shift else - shift in
  caesar_loop self shift text EmptyString.

(** The cipher as the specification words it: a letter a-z or A-Z moves
    to the letter at its alphabet position plus the shift, modulo 26;
    any other character stays. *)
Definition shift_letter (shift : Z) (c : ascii) : ascii :=
  if between 97 122 c then chr (97 + (ord c - 97 + shift) mod 26)
  else if between 65 90 c then chr (65 + (ord c - 65 + shift) mod 26)
  else c.

Fixpoint shifted (shift : Z) (text : string) : string :=
  match text with
  | EmptyString => EmptyString
  | String c rest => String (shift_letter shift c) (shifted shift rest)
  end.

(** The letters of ASCII. *)
Definition is_ascii_letter (c : ascii) : bool :=
  between 65 90 c || between 97 122 c.

(** A letter that [islower] or [isupper] accepts and that is in neither
    alphabet. *)
Definition is_foreign_letter (c : ascii) : bool :=
  (islower c || isupper c) && negb (is_ascii_letter c).

(** [all(p(c) for c in s)] and [any(p(c) for c in s)] *)
Fixpoint all_chars (p : ascii → bool) (s : string) : bool :=
  match s with
  | EmptyString => true
  | String c rest => p c && all_chars p rest
  end.

Fixpoint any_char (p : ascii → bool) (s : string) : bool :=
  match s with
  | EmptyString => false
  | String c rest => p c || any_char p rest
  end.

(** "café", with its last letter U+00E9 *)
Definition cafe : string := "caf" ++ String (chr 233) EmptyString.

End Utility.

(** ** 12_games_and_apps.py

  Console output ([print]) is not part of the state of the three classes
  below and is left out; every assignment to an attribute is kept. *)

Module Games.

(** *** Project 2: hangman *)

Record HangmanGame : Type := {
  words : list string;
  word : string;
  guessed_letters : gset string;
  wrong_guesses : Z;
  max_wrong_guesses : Z
}.

(** [HangmanGame.__init__] *)
Definition hangman_init : HangmanGame :=
  {| words := [ "python"; "programming"; "computer"; "algorithm"; "function";
                "variable"; "dictionary"; "list"; "string"; "integer";
                "boolean"; "class"; "object"; "method"; "inheritance" ];
     word := "";
     guessed_letters := ∅;
     wrong_guesses := 0;
     max_wrong_guesses := 6 |}.

(** [select_random_word]; [draw] is what [random.choice] draws. *)
Definition select_random_word (self : HangmanGame) (draw : nat)
  : result HangmanGame :=
  w ← choice (words self) draw;
  Ok {| words := words self;
        word := lower w;
        guessed_letters := ∅;
        wrong_guesses := 0;
        max_wrong_guesses := max_wrong_guesses self |}.

(** [make_guess]: the new state and the returned flag. *)
Definition make_guess (self : HangmanGame) (letter : string)
  : HangmanGame * bool :=
  let letter := lower letter in
  if bool_decide (letter ∈ guessed_letters self) then (self, false)
  else
    let self := {| words := words self;
                   word := word self;
                   guessed_letters := guessed_letters self ∪ {[ letter ]};
                   wrong_guesses := wrong_guesses self;
                   max_wrong_guesses := max_wrong_guesses self |} in
    if contains (word self) letter then (self, true)
    else ({| words := words self;
             word := word self;
             guessed_letters := guessed_letters self;
             wrong_guesses := wrong_guesses self + 1;
             max_wrong_guesses := max_wrong_guesses self |}, false).

(** [is_game_won]: every letter of the word is in the guessed set. *)
Definition is_game_won (self : HangmanGame) : bool :=
  forallb (λ c, bool_decide (String c EmptyString ∈ guessed_letters self))
          (list_ascii_of_string (word self)).

Definition is_game_lost (self : HangmanGame) : bool :=
  max_wrong_guesses self <=? wrong_guesses self.

(** A sequence of [make_guess] calls, one per element of [letters]. *)
Definition run_guesses (self : HangmanGame) (letters : list string)
  : HangmanGame :=
  foldl (λ g letter, (make_guess g letter).1) self letters.

(** The guessed letters that do not occur in the word. *)
Definition wrong_letters (self : HangmanGame) : gset string :=
  filter (λ letter, contains (word self) letter = false)
         (guessed_letters self).

(** *** Project 3: tic-tac-toe *)

Record TicTacToe : Type := {
  board : list (list string);
  current_player : string;
  game_over : bool
}.

(** [TicTacToe.__init__]: three distinct rows of three blanks. *)
Definition tictactoe_init : TicTacToe :=
  {| board := replicate 3 (replicate 3 " ");
     current_player := "X";
     game_over := false |}.

(** [self.board[row][col]] *)
Definition cell (b : list (list string)) (row col : Z) : result string :=
  r ← list_getitem b row;
  list_getitem r col.

(** [make_move]: the new state and the returned flag. *)
Definition make_move (self : TicTacToe) (row col : Z)
  : result (TicTacToe * bool) :=
  if (row <? 0) || (row >=? 3) || (col <? 0) || (col >=? 3) then
    Ok (self, false)
  else
    c ← cell (board self) row col;
    if negb (String.eqb c " ") then Ok (self, false)
    else
      r ← list_getitem (board self) row;
      r' ← list_setitem r col (current_player self);
      b' ← list_setitem (board self) row r';
      Ok ({| board := b';
             current_player := current_player self;
             game_over := game_over self |}, true).

(** The chained comparison [a == b == c != ' ']: [c] is evaluated only
    when [a == b]. *)
Definition same_mark (ea eb ec : result string) : result bool :=
  a ← ea;
  b ← eb;
  if String.eqb a b then
    c ← ec;
    Ok (String.eqb b c && negb (String.eqb c " "))
  else Ok false.

(** [for row in self.board: ...] *)
Fixpoint check_rows (rows : list (list string)) : result (option string) :=
  match rows with
  | [] => Ok None
  | row :: rest =>
      hit ← same_mark (list_getitem row 0) (list_getitem row 1)
                      (list_getitem row 2);
      if hit : bool then w ← list_getitem row 0; Ok (Some w)
      else check_rows rest
  end.

(** [for col in range(3): ...], over the columns still to visit *)
Fixpoint check_cols (b : list (list string)) (cols : list Z)
  : result (option string) :=
  match cols with
  | [] => Ok None
  | col :: rest =>
      hit ← same_mark (cell b 0 col) (cell b 1 col) (cell b 2 col);
      if hit : bool then w ← cell b 0 col; Ok (Some w)
      else check_cols b rest
  end.

Definition check_diagonals (b : list (list string))
  : result (option string) :=
  hit ← same_mark (cell b 0 0) (cell b 1 1) (cell b 2 2);
  if hit : bool then w ← cell b 0 0; Ok (Some w)
  else
    hit ← same_mark (cell b 0 2) (cell b 1 1) (cell b 2 0);
    if hit : bool then w ← cell b 0 2; Ok (Some w)
    else Ok None.

(** [first; second]: [second] runs only when [first] fell through
    without a [return]. *)
Definition or_else (first second : result (option string))
  : result (option string) :=
  r ← first;
  match r with
  | Some w => Ok (Some w)
  | None => second
  end.

(** [check_winner]: [Some mark], or [None] for Python's [None]. *)
Definition check_winner (self : TicTacToe) : result (option string) :=
  or_else (check_rows (board self))
    (or_else (check_cols (board self) [0; 1; 2])
       (check_diagonals (board self))).

Definition is_board_full (self : TicTacToe) : bool :=
  forallb (forallb (λ c, negb (String.eqb c " "))) (board self).

Definition switch_player (self : TicTacToe) : TicTacToe :=
  {| board := board self;
     current_player := if String.eqb (current_player self) "X" then "O" else "X";
     game_over := game_over self |}.

(** The shape [__init__] gives the board and [make_move] keeps. *)
Definition is_3x3 (b : list (list string)) : bool :=
  (length b =? 3)%nat && forallb (λ r, (length r =? 3)%nat) b.

(** The eight winning lines as the specification counts them, in the
    order [check_winner] visits them: rows from the top, columns from
    the left, the main diagonal, the anti-diagonal. *)
Definition lines : list ((Z * Z) * (Z * Z) * (Z * Z)) :=
  [ ((0, 0), (0, 1), (0, 2)); ((1, 0), (1, 1), (1, 2)); ((2, 0), (2, 1), (2, 2));
    ((0, 0), (1, 0), (2, 0)); ((0, 1), (1, 1), (2, 1)); ((0, 2), (1, 2), (2, 2));
    ((0, 0), (1, 1), (2, 2)); ((0, 2), (1, 1), (2, 0)) ].

(** The mark that fills a line: its three cells hold one mark, and the
    mark is not the blank. *)
Definition line_mark (b : list (list string))
           (l : (Z * Z) * (Z * Z) * (Z * Z)) : option string :=
  let '(p, q, r) := l in
  match cell b p.1 p.2, cell b q.1 q.2, cell b r.1 r.2 with
  | Ok x, Ok y, Ok z =>
      if String.eqb x y && String.eqb y z && negb (String.eqb z " ")
      then Some x else None
  | _, _, _ => None
  end.

(** The mark of the first filled line in that order, if any. *)
Definition first_filled (b : list (list string)) : option string :=
  head (omap (line_mark b) lines).

(** The middle row of [two_winners] is filled with "O", the top row
    with "X". *)
Definition two_winners : TicTacToe :=
  {| board := [["X"; "X"; "X"]; ["O"; "O"; "O"]; [" "; " "; " "]];
     current_player := "X";
     game_over := false |}.

(** The states [play_game] has at the top of its loop: the initial one,
    and the one after an accepted move that neither won nor filled the
    board, with the players switched. *)
Inductive playing : TicTacToe → Prop :=
| playing_init : playing tictactoe_init
| playing_next (self self' : TicTacToe) (row col : Z) :
    playing self →
    make_move self row col = Ok (self', true) →
    check_winner self' = Ok None →
    is_board_full self' = false →
    playing (switch_player self').

(** The states [play_game] calls [check_winner] on: those just after an
    accepted move. *)
Definition just_moved (self' : TicTacToe) : Prop :=
  ∃ self row col, playing self ∧ make_move self row col = Ok (self', true).

(** *** Project 5: note-taking application *)

(** The JSON values a note holds. *)
Inductive jvalue : Set :=
| JInt (n : Z)
| JStr (s : string).

#[export] Instance jvalue_eq_dec : EqDecision jvalue.
Proof. solve_decision. Defined.

(** [d[k]] on a dict: [KeyError] when the key is absent. *)
Definition dict_getitem (d : gmap string jvalue) (k : string)
  : result jvalue :=
  match d !! k with
  | Some v => Ok v
  | None => Raise KeyError
  end.

(** A note is a dict; [notes.json] holds a list of them. *)
Record NoteTakingApp : Type := {
  notes : list (gmap string jvalue);
  categories : gset string;
  filename : string
}.

(** [NoteTakingApp.__init__] followed by [load_notes]: the notes of the
    file when it exists, no notes otherwise. *)
Definition notes_init (fs : gmap string (list (gmap string jvalue)))
  : NoteTakingApp :=
  {| notes := default [] (fs !! "notes.json");
     categories := ∅;
     filename := "notes.json" |}.

(** [save_notes]: writes the list to the file; a failing write
    ([io_ok = false]) is caught inside and changes nothing. *)
Definition save_notes (self : NoteTakingApp) (io_ok : bool)
           (fs : gmap string (list (gmap string jvalue)))
  : gmap string (list (gmap string jvalue)) :=
  if io_ok then <[filename self := notes self]> fs else fs.

(** The dict literal of [create_note], its keys in source order. *)
Definition note_literal (i : Z) (title content category t1 t2 : string)
  : gmap string jvalue :=
  <["updated_at" := JStr t2]>
    (<["created_at" := JStr t1]>
       (<["category" := JStr category]>
          (<["content" := JStr content]>
             (<["title" := JStr title]>
                (<["id" := JInt i]> ∅))))).

(** [create_note]; [t1] and [t2] are the two readings of
    [datetime.now().isoformat()]. *)
Definition create_note (self : NoteTakingApp)
           (title content category : string) (t1 t2 : string)
           (io_ok : bool) (fs : gmap string (list (gmap string jvalue)))
  : NoteTakingApp * gmap string (list (gmap string jvalue)) :=
  let note :=
    note_literal (Z.of_nat (length (notes self)) + 1)
                 title content category t1 t2 in
  let self := {| notes := notes self ++ [note];
                 categories := categories self ∪ {[ category ]};
                 filename := filename self |} in
  (self, save_notes self io_ok fs).

(** [if x:] on an optional string argument: [None] and the empty
    string are false. *)
Definition truthy (x : option string) : bool :=
  match x with
  | Some s => negb (String.eqb s "")
  | None => false
  end.

(** [note[k] = x] when [x] is truthy *)
Definition set_if_truthy (k : string) (x : option string)
           (note : gmap string jvalue) : gmap string jvalue :=
  if truthy x then <[k := JStr (default "" x)]> note else note.

(** The [for note in self.notes] loop of [edit_note]: [None] when the
    loop runs to its end, otherwise the list with the first matching
    note updated. *)
Fixpoint edit_first (ns : list (gmap string jvalue)) (note_id : Z)
         (new_title new_content new_category : option string) (t : string)
  : result (option (list (gmap string jvalue))) :=
  match ns with
  | [] => Ok None
  | note :: rest =>
      i ← dict_getitem note "id";
      if bool_decide (i = JInt note_id) then
        let note := set_if_truthy "title" new_title note in
        let note := set_if_truthy "content" new_content note in
        let note := set_if_truthy "category" new_category note in
        let note := <["updated_at" := JStr t]> note in
        Ok (Some (note :: rest))
      else
        r ← edit_first rest note_id new_title new_content new_category t;
        Ok (option_map (cons note) r)
  end.

Definition edit_note (self : NoteTakingApp) (note_id : Z)
           (new_title new_content new_category : option string)
           (t : string) (io_ok : bool)
           (fs : gmap string (list (gmap string jvalue)))
  : result (NoteTakingApp * gmap string (list (gmap string jvalue)) * bool) :=
  r ← edit_first (notes self) note_id new_title new_content new_category t;
  match r with
  | Some ns =>
      let self := {| notes := ns;
                     categories :=
                       if truthy new_category
                       then categories self ∪ {[ default "" new_category ]}
                       else categories self;
                     filename := filename self |} in
      Ok (self, save_notes self io_ok fs, true)
  | None => Ok (self, fs, false)
  end.

(** The [for i, note in enumerate(self.notes)] loop of [delete_note]:
    [None] when the loop runs to its end, otherwise the list after
    [self.notes.pop(i)] at the first match. *)
Fixpoint delete_first (ns : list (gmap string jvalue)) (note_id : Z)
  : result (option (list (gmap string jvalue))) :=
  match ns with
  | [] => Ok None
  | note :: rest =>
      i ← dict_getitem note "id";
      if bool_decide (i = JInt note_id) then Ok (Some rest)
      else
        r ← delete_first rest note_id;
        Ok (option_map (cons note) r)
  end.

Definition delete_note (self : NoteTakingApp) (note_id : Z) (io_ok : bool)
           (fs : gmap string (list (gmap string jvalue)))
  : result (NoteTakingApp * gmap string (list (gmap string jvalue)) * bool) :=
  r ← delete_first (notes self) note_id;
  match r with
  | Some ns =>
      let self := {| notes := ns;
                     categories := categories self;
                     filename := filename self |} in
      Ok (self, save_notes self io_ok fs, true)
  | None => Ok (self, fs, false)
  end.

(** A session on a fresh application: two notes are created, the
    first is deleted, a third is created. *)
Definition three_notes_session : result NoteTakingApp :=
  let fs0 : gmap string (list (gmap string jvalue)) := ∅ in
  let '(app1, fs1) :=
    create_note (notes_init fs0) "first" "a" "General" "t1" "t2" true fs0 in
  let '(app2, fs2) :=
    create_note app1 "second" "b" "General" "t3" "t4" true fs1 in
  r ← delete_note app2 1 true fs2;
  let '(app3, fs3, _) := r in
  Ok (create_note app3 "third" "c" "General" "t5" "t6" true fs3).1.

End Games.

(** ** 07_error_handling.py *)

Module ErrorHandling.

(** The Python values [safe_divide] is called with in the lesson:
    [int], [float] (an IEEE-754 binary64, as a [spec_float]), [str], and
    [None] for what it returns on a caught error. *)
Inductive value : Set :=
| VInt (n : Z)
| VFloat (x : spec_float)
| VStr (s : string)
| VNone.

Definition prec : Z := 53.
Definition emax : Z := 1024.

(** [float(n)] for an [int]: the nearest binary64, [OverflowError] when
    it is out of range. *)
Definition float_of_int (n : Z) : result spec_float :=
  match binary_normalize prec emax n 0 false with
  | S754_infinity _ => Raise OverflowError
  | x => Ok x
  end.

(** [a / b] on two [int]s: the correctly rounded quotient. *)
Definition int_truediv (a b : Z) : result spec_float :=
  if b =? 0 then Raise ZeroDivisionError
  else if a =? 0 then Ok (S754_zero (b <? 0))
  else
    let '(q, e, l) := SFdiv_core_binary prec emax (Z.abs a) 0 (Z.abs b) 0 in
    match binary_round_aux prec emax (xorb (a <? 0) (b <? 0)) q e l with
    | S754_infinity _ => Raise OverflowError
    | x => Ok x
    end.

(** [x / y] on two [float]s *)
Definition float_truediv (x y : spec_float) : result spec_float :=
  match y with
  | S754_zero _ => Raise ZeroDivisionError
  | _ => Ok (SFdiv prec emax x y)
  end.

(** The [/] operator.  A mixed division converts the [int] operand
    first, left operand before right, and only then looks at the
    divisor. *)
Definition truediv (a b : value) : result value :=
  match a, b with
  | VInt m, VInt n => q ← int_truediv m n; Ok (VFloat q)
  | VFloat x, VFloat y => q ← float_truediv x y; Ok (VFloat q)
  | VInt m, VFloat y =>
      x ← float_of_int m; q ← float_truediv x y; Ok (VFloat q)
  | VFloat x, VInt n =>
      y ← float_of_int n; q ← float_truediv x y; Ok (VFloat q)
  | _, _ => Raise TypeError
  end.

(** [safe_divide]: the lines printed and the outcome. *)
Definition safe_divide (a b : value) : list string * result value :=
  match truediv a b with
  | Ok result => ([], Ok result)
  | Raise ZeroDivisionError => (["Error: Division by zero!"], Ok VNone)
  | Raise TypeError =>
      (["Error: Both arguments must be numbers!"], Ok VNone)
  | Raise e => ([], Raise e)
  end.

(** The numbers among the values, and the zeros among the numbers. *)
Definition is_number (v : value) : bool :=
  match v with
  | VInt _ | VFloat _ => true
  | _ => false
  end.

Definition is_zero (v : value) : bool :=
  match v with
  | VInt 0 | VFloat (S754_zero _) => true
  | _ => false
  end.

End ErrorHandling.

(** ** 11_advanced_projects.py *)

Module Projects.

(** [Task]; a [datetime] is an instant on the clock, as a number. *)
Record Task : Set := {
  title : string;
  description : string;
  priority : string;
  status : string;
  due_date : option Z;
  created_at : Z;
  updated_at : Z;
  id : option Z
}.

(** [Task.__init__]; [t1] and [t2] are the two readings of
    [datetime.now()]. *)
Definition task_init (title description priority : string)
           (due_date : option Z) (t1 t2 : Z) : Task :=
  {| title := title;
     description := description;
     priority := priority;
     status := "pending";
     due_date := due_date;
     created_at := t1;
     updated_at := t2;
     id := None |}.

Definition valid_statuses : list string :=
  ["pending"; "in_progress"; "completed"; "cancelled"].

(** [update_status]; [now] is the reading of [datetime.now()]. *)
Definition update_status (self : Task) (new_status : string) (now : Z)
  : Task * bool :=
  if existsb (String.eqb new_status) valid_statuses then
    ({| title := title self;
        description := description self;
        priority := priority self;
        status := new_status;
        due_date := due_date self;
        created_at := created_at self;
        updated_at := now;
        id := id self |}, true)
  else (self, false).

End Projects.

(** ** 10_database_operations.py *)

Module Database.

Import ErrorHandling.

(** A row of [accounts (id INTEGER PRIMARY KEY, name TEXT, balance REAL)]. *)
Record account : Set := {
  id : Z;
  name : string;
  balance : spec_float
}.

(** What [print] writes: a fixed line, the line of one account
    ([f"  {account[0]}: ${account[1]}"]), or the line that reports a
    caught [sqlite3.Error]. *)
Inductive event : Set :=
| Print (s : string)
| PrintAccount (n : string) (b : spec_float)
| PrintFailed.

(** The world of [transaction_example]: the rows of [accounts] in the
    database file (an absent table counts as an empty one), the rows as
    the open transaction sees them (if one is open), the console, and the
    schedule of faults: each statement sent to SQLite takes the next
    entry, and [true] makes it fail with [sqlite3.Error] and no effect.
    [rollback] and [close] do not fail. *)
Record world : Set := {
  file : list account;
  txn : option (list account);
  faults : list bool;
  out : list event
}.

Definition set_txn (t : option (list account)) (w : world) : world :=
  {| file := file w; txn := t; faults := faults w; out := out w |}.

Definition view (w : world) : list account := default (file w) (txn w).

(** Computations that read and change the world and may raise. *)
Definition db (A : Type) : Type := world → result A * world.

#[export] Instance db_ret : MRet db := λ A a w, (Ok a, w).
#[export] Instance db_bind : MBind db :=
  λ A B f m w,
    match m w with
    | (Ok a, w') => f a w'
    | (Raise e, w') => (Raise e, w')
    end.

Definition raise {A : Type} (e : exn) : db A := λ w, (Raise e, w).

(** A primitive step on the world. *)
Definition step {A : Type} (f : world → result A * world) : db A := f.

Definition print (e : event) : db unit :=
  λ w, (Ok tt, {| file := file w; txn := txn w; faults := faults w;
                  out := out w ++ [e] |}).

(** The next entry of the fault schedule. *)
Definition fault : db unit :=
  λ w,
    match faults w with
    | [] => (Ok tt, w)
    | f :: fs =>
        let w' := {| file := file w; txn := txn w; faults := fs;
                     out := out w |} in
        if f then (Raise SqliteError, w') else (Ok tt, w')
    end.

(** [conn.execute("BEGIN TRANSACTION")]: refused inside a transaction. *)
Definition execute_begin : db unit :=
  _ ← fault;
  step (λ w, match txn w with
             | Some _ => (Raise SqliteError, w)
             | None => (Ok tt, set_txn (Some (file w)) w)
             end).

(** [cursor.execute] of [CREATE TABLE IF NOT EXISTS]. *)
Definition execute_create : db unit := fault.

(** [cursor.execute] of an INSERT, UPDATE or DELETE: opens a
    transaction when none is open. *)
Definition execute_dml (f : list account → list account) : db unit :=
  _ ← fault;
  step (λ w, (Ok tt, set_txn (Some (f (view w))) w)).

(** [cursor.execute] of a SELECT, with the rows it yields. *)
Definition execute_query : db (list account) :=
  _ ← fault;
  step (λ w, (Ok (view w), w)).

Definition commit : db unit :=
  _ ← fault;
  step (λ w, (Ok tt, {| file := view w; txn := None; faults := faults w;
                        out := out w |})).

Definition rollback : db unit := λ w, (Ok tt, set_txn None w).

(** [conn.close()]: work that was not committed is discarded. *)
Definition close : db unit := λ w, (Ok tt, set_txn None w).

(** [try: body except sqlite3.Error: handler] *)
Definition try_except_sqlite (body handler : db unit) : db unit :=
  λ w, match body w with
       | (Raise SqliteError, w') => handler w'
       | r => r
       end.

(** SQL.  [DELETE FROM accounts] *)
Definition delete_all (rows : list account) : list account := [].

(** [INSERT INTO accounts (name, balance) VALUES (?, ?)]: the id is one
    above the largest id in the table. *)
Definition insert (n : string) (b : spec_float) (rows : list account)
  : list account :=
  rows ++ [ {| id := foldr Z.max 0 (id <$> rows) + 1; name := n; balance := b |} ].

(** [UPDATE accounts SET balance = f(balance) WHERE name = n] *)
Definition update (n : string) (f : spec_float → spec_float)
           (rows : list account) : list account :=
  (λ r, if String.eqb (name r) n
        then {| id := id r; name := name r; balance := f (balance r) |}
        else r) <$> rows.

(** The REAL value of an integer literal. *)
Definition real (n : Z) : spec_float := binary_normalize prec emax n 0 false.

Definition minus_200 (b : spec_float) : spec_float := SFsub prec emax b (real 200).
Definition plus_200 (b : spec_float) : spec_float := SFadd prec emax b (real 200).

(** [WHERE name = n] *)
Definition where_name (n : string) (rows : list account) : list account :=
  filter (λ r, name r = n) rows.

(** [cursor.fetchone()[0]] after [SELECT balance ...]: subscripting the
    [None] of an empty result is a [TypeError]. *)
Definition fetchone_0 (rows : list account) : db spec_float :=
  match rows with
  | r :: _ => mret (balance r)
  | [] => raise TypeError
  end.

(** [for account in cursor.fetchall(): print(...)] *)
Fixpoint print_accounts (rows : list account) : db unit :=
  match rows with
  | [] => mret tt
  | r :: rest => _ ← print (PrintAccount (name r) (balance r)); print_accounts rest
  end.

Definition newline : string := String "010"%char EmptyString.

(** The [try] statement of [transaction_example]: the transfer. *)
Definition transfer : db unit :=
  try_except_sqlite
    (_ ← execute_begin;
     _ ← execute_dml (update "Alice" minus_200);
     _ ← execute_dml (update "Bob" plus_200);
     rows ← execute_query;
     alice_balance ← fetchone_0 (where_name "Alice" rows);
     if SFltb alice_balance (real 0) then
       _ ← rollback;
       print (Print "Transaction rolled back - insufficient funds")
     else
       _ ← commit;
       _ ← print (Print "Transaction committed successfully");
       _ ← print (Print (newline ++ "Final balances:"));
       rows ← execute_query;
       print_accounts rows)
    (_ ← rollback;
     print PrintFailed).

(** The statements of [transaction_example] before the [try]. *)
Definition setup : db unit :=
  _ ← print (Print "Connected to database: transaction_db.sqlite");
  _ ← execute_create;
  _ ← execute_dml delete_all;
  _ ← execute_dml (insert "Alice" (real 1000));
  _ ← execute_dml (insert "Bob" (real 500));
  _ ← commit;
  _ ← print (Print "Initial balances:");
  rows ← execute_query;
  print_accounts rows.

Definition transaction_example : db unit :=
  _ ← setup;
  _ ← transfer;
  close.

(** The table as [setup] leaves it. *)
Definition initial_accounts : list account :=
  [ {| id := 1; name := "Alice"; balance := real 1000 |};
    {| id := 2; name := "Bob"; balance := real 500 |} ].

(** No fault among the next [n] statements. *)
Definition fault_free (n : nat) (fs : list bool) : bool :=
  forallb negb (take n fs).

End Database.

(** * Further functions of the same files *)

(** ** More of the runtime *)

Module PyMore.

(** [c.isspace()]: in U+0000..U+00FF the white space is U+0009..U+000D,
    U+001C..U+0020, U+0085 and U+00A0. *)
Definition isspace (c : ascii) : bool :=
  between 9 13 c || between 28 32 c || between 133 133 c || between 160 160 c.

(** [c.isdigit()]: 0-9 and the superscripts U+00B2, U+00B3, U+00B9. *)
Definition isdigit (c : ascii) : bool :=
  between 48 57 c || between 178 179 c || between 185 185 c.

(** [s.lstrip()], [s.rstrip()], [s.strip()] *)
Fixpoint lstrip (s : string) : string :=
  match s with
  | EmptyString => EmptyString
  | String c rest => if isspace c then lstrip rest else s
  end.

Fixpoint rstrip (s : string) : string :=
  match s with
  | EmptyString => EmptyString
  | String c rest =>
      match rstrip rest with
      | EmptyString => if isspace c then EmptyString else String c EmptyString
      | rest' => String c rest'
      end
  end.

Definition strip (s : string) : string := rstrip (lstrip s).

(** [c in s] for a one-character [c] *)
Fixpoint has_char (s : string) (c : ascii) : bool :=
  match s with
  | EmptyString => false
  | String d rest => Ascii.eqb d c || has_char rest c
  end.

(** [''.join(c for c in s if p(c))] *)
Fixpoint keep (p : ascii → bool) (s : string) : string :=
  match s with
  | EmptyString => EmptyString
  | String c rest => if p c then String c (keep p rest) else keep p rest
  end.

(** [''.join(l)] for a list of characters *)
Definition join_chars (l : list ascii) : string := string_of_list_ascii l.

(** [l.remove(x)]: the list without the first item equal to [x], a
    [ValueError] when there is none. *)
Fixpoint list_remove {A : Type} `{EqDecision A} (x : A) (l : list A)
  : result (list A) :=
  match l with
  | [] => Raise ValueError
  | y :: rest =>
      if decide (y = x) then Ok rest
      else rest' ← list_remove x rest; Ok (y :: rest')
  end.

(** The exceptions of the further functions: those of [exn], and three
    more. *)
Inductive error : Set :=
| Builtin (e : exn)
| AttributeError
| EOFError
| InvalidEmailError (email : string).

Inductive outcome (A : Type) : Type :=
| Return (a : A)
| Throw (e : error).
Arguments Return {A} a.
Arguments Throw {A} e.

#[export] Instance outcome_ret : MRet outcome := @Return.
#[export] Instance outcome_bind : MBind outcome :=
  λ A B f m, match m with Return a => f a | Throw e => Throw e end.

Definition lift {A : Type} (r : result A) : outcome A :=
  match r with
  | Ok a => Return a
  | Raise e => Throw (Builtin e)
  end.

End PyMore.

Import PyMore.

(** ** 12_games_and_apps.py, continued *)

Module GamesMore.

Import Games.

(** *** Hangman *)

(** The [for letter in self.word] loop of [display_word]. *)
Fixpoint display_loop (guessed : gset string) (word display : string) : string :=
  match word with
  | EmptyString => display
  | String letter rest =>
      display_loop guessed rest
        (display ++ (if bool_decide (String letter EmptyString ∈ guessed)
                     then String letter " " else "_ "))
  end.

Definition display_word (self : HangmanGame) : string :=
  strip (display_loop (guessed_letters self) (word self) EmptyString).

(** What the display shows for one letter: the letter when it is
    guessed, an underscore otherwise. *)
Definition shown (guessed : gset string) (letter : ascii) : ascii :=
  if bool_decide (String letter EmptyString ∈ guessed) then letter else "_"%char.

(** [' '.join(l)] for a list of characters *)
Fixpoint spaced (l : list ascii) : string :=
  match l with
  | [] => EmptyString
  | [c] => String c EmptyString
  | c :: rest => String c (String " " (spaced rest))
  end.

(** The same with a space after every character. *)
Fixpoint trailed (l : list ascii) : string :=
  match l with
  | [] => EmptyString
  | c :: rest => String c (String " " (trailed rest))
  end.

(** *** Tic-tac-toe *)

(** The number of cells of a board that hold the mark [m]. *)
Definition count_mark (m : string) (b : list (list string)) : nat :=
  sum_list_with (λ c, if String.eqb c m then 1%nat else 0%nat) (concat b).

(** [if winner:] on what [check_winner] returned: [None] and the empty
    string are false. *)
Definition winner_truthy (winner : option string) : bool :=
  match winner with
  | Some w => negb (String.eqb w "")
  | None => false
  end.

(** One round of the outer loop of [play_game], for a pair [row], [col]
    the player entered (the numbers typed, less one): a refused move
    leaves the state to the next pair; after an accepted move the winner
    and the full board are checked and the players switched. *)
Definition play_round (self : TicTacToe) (row col : Z) : result TicTacToe :=
  r ← make_move self row col;
  let '(self, ok) := r in
  if ok : bool then
    winner ← check_winner self;
    if winner_truthy winner then
      Ok {| board := board self; current_player := current_player self;
            game_over := true |}
    else if is_board_full self then
      Ok {| board := board self; current_player := current_player self;
            game_over := true |}
    else Ok (switch_player self)
  else Ok self.

(** [play_game] on the pairs entered so far: the state when they are
    used up, or when the game is over. *)
Fixpoint play_game (self : TicTacToe) (inputs : list (Z * Z))
  : result TicTacToe :=
  match inputs with
  | [] => Ok self
  | (row, col) :: rest =>
      if game_over self then Ok self
      else self ← play_round self row col; play_game self rest
  end.

(** What [play_game] keeps true of its state: the shape of the board,
    nine cells that are X, O or blank, the player to move (or, when the
    game is over, the player who moved last) X or O with the count of
    marks to match, and the game over exactly when a line is filled or no
    cell is blank. *)
Definition play_invariant (s : TicTacToe) : Prop :=
  is_3x3 (board s) = true
  ∧ (count_mark "X" (board s) + count_mark "O" (board s)
     + count_mark " " (board s) = 9)%nat
  ∧ if game_over s then
      ((current_player s = "X"
        ∧ count_mark "X" (board s) = S (count_mark "O" (board s)))
       ∨ (current_player s = "O"
          ∧ count_mark "X" (board s) = count_mark "O" (board s)))
      ∧ (first_filled (board s) = Some (current_player s)
         ∨ (first_filled (board s) = None ∧ is_board_full s = true))
    else
      ((current_player s = "X"
        ∧ count_mark "X" (board s) = count_mark "O" (board s))
       ∨ (current_player s = "O"
          ∧ count_mark "X" (board s) = S (count_mark "O" (board s))))
      ∧ first_filled (board s) = None ∧ is_board_full s = false.

(** A cell that holds a mark. *)
Definition taken (s : TicTacToe) (row col : Z) : Prop :=
  cell (board s) row col ≠ Ok " ".

(** [s.isalpha()]: in U+0000..U+00FF every letter is a lowercase or an
    uppercase one. *)
Definition isalpha (s : string) : bool :=
  negb (String.eqb s "")
  && Utility.all_chars (λ c, islower c || isupper c) s.

(** The [while] loop of [HangmanGame.play_game] on the lines the player
    enters; at the end of the input [input] raises [EOFError]. *)
Fixpoint play_loop (self : HangmanGame) (inputs : list string)
  : outcome HangmanGame :=
  if negb (is_game_won self) && negb (is_game_lost self) then
    match inputs with
    | [] => Throw EOFError
    | line :: rest =>
        let guess := lower (strip line) in
        if negb (len guess =? 1) || negb (isalpha guess)
        then play_loop self rest
        else play_loop (make_guess self guess).1 rest
    end
  else Return self.

(** [HangmanGame.play_game] *)
Definition hangman_play_game (self : HangmanGame) (draw : nat)
           (inputs : list string) : outcome HangmanGame :=
  self ← lift (select_random_word self draw);
  play_loop self inputs.

(** What the loop keeps true: at most six wrong guesses, and the game
    not both won and lost. *)
Definition play_loop_invariant (s : HangmanGame) : Prop :=
  max_wrong_guesses s = 6
  ∧ 0 ≤ wrong_guesses s ≤ 6
  ∧ is_game_won s && is_game_lost s = false.

(** *** Project 1: quiz *)

(** A question: the dict with the keys question, options, correct and
    explanation that [load_sample_questions] and [add_question] build. *)
Record Question : Type := {
  question : string;
  options : list string;
  correct : Z;
  explanation : string
}.

Record QuizApp : Type := {
  questions : list Question;
  score : Z;
  current_question : Z
}.

(** [load_sample_questions] *)
Definition sample_questions : list Question :=
  [ {| question := "What is the capital of France?";
       options := ["London"; "Berlin"; "Paris"; "Madrid"];
       correct := 2;
       explanation := "Paris is the capital and largest city of France." |};
    {| question := "Which planet is known as the Red Planet?";
       options := ["Venus"; "Mars"; "Jupiter"; "Saturn"];
       correct := 1;
       explanation :=
         "Mars is called the Red Planet due to iron oxide on its surface." |};
    {| question := "What is 15 + 27?";
       options := ["40"; "41"; "42"; "43"];
       correct := 2;
       explanation := "15 + 27 = 42" |};
    {| question := "Who painted the Mona Lisa?";
       options := ["Van Gogh"; "Picasso"; "Da Vinci"; "Michelangelo"];
       correct := 2;
       explanation :=
         "Leonardo da Vinci painted the Mona Lisa in the early 16th century." |};
    {| question := "What is the largest mammal in the world?";
       options := ["African Elephant"; "Blue Whale"; "Giraffe"; "Hippopotamus"];
       correct := 1;
       explanation :=
         "The blue whale is the largest mammal and animal on Earth." |} ].

(** [QuizApp.__init__] *)
Definition quiz_init : QuizApp :=
  {| questions := sample_questions; score := 0; current_question := 0 |}.

(** [display_question]: what it returns (the lines it prints are left
    out; subscripting the list is kept). *)
Definition display_question (self : QuizApp) (question_num : Z) : result bool :=
  if question_num >=? Z.of_nat (length (questions self)) then Ok false
  else
    q ← list_getitem (questions self) question_num;
    Ok true.

(** [check_answer]: the new state and the returned flag.  The message for
    a wrong answer subscripts the options with the correct index. *)
Definition check_answer (self : QuizApp) (question_num user_answer : Z)
  : result (QuizApp * bool) :=
  if question_num >=? Z.of_nat (length (questions self)) then Ok (self, false)
  else
    q ← list_getitem (questions self) question_num;
    let correct_answer := correct q + 1 in
    self ← (if user_answer =? correct_answer then
              Ok {| questions := questions self;
                    score := score self + 1;
                    current_question := current_question self |}
            else
              shown ← list_getitem (options q) (correct q);
              Ok self);
    Ok (self, user_answer =? correct_answer).

(** [add_question] *)
Definition add_question (self : QuizApp) (question : string)
           (options : list string) (correct_index : Z) (explanation : string)
  : QuizApp :=
  {| questions := questions self
                  ++ [ {| question := question; options := options;
                          correct := correct_index;
                          explanation := explanation |} ];
     score := score self;
     current_question := current_question self |}.

(** The [while True] loop of [run_quiz] for question [i].  A line of
    input is [None] when [int] raises [ValueError] on it and [Some n] when
    it reads as [n]; at the end of the input [input] raises [EOFError].
    The result is the state and the input that is left. *)
Fixpoint ask (self : QuizApp) (i : Z) (inputs : list (option Z))
  : outcome (QuizApp * list (option Z)) :=
  match inputs with
  | [] => Throw EOFError
  | None :: rest => ask self i rest
  | Some answer :: rest =>
      if (1 <=? answer) && (answer <=? 4) then
        r ← lift (check_answer self i answer);
        Return (r.1, rest)
      else ask self i rest
  end.

(** The [for i in range(len(self.questions))] loop of [run_quiz], over
    the indices still to visit. *)
Fixpoint ask_all (self : QuizApp) (indices : list Z) (inputs : list (option Z))
  : outcome (QuizApp * list (option Z)) :=
  match indices with
  | [] => Return (self, inputs)
  | i :: indices' =>
      shown ← lift (display_question self i);
      if shown : bool then
        r ← ask self i inputs;
        ask_all r.1 indices' r.2
      else Return (self, inputs)
  end.

(** [run_quiz] up to the call of [show_results]. *)
Definition run_quiz (self : QuizApp) (inputs : list (option Z))
  : outcome (QuizApp * list (option Z)) :=
  let self := {| questions := questions self; score := 0;
                 current_question := 0 |} in
  ask_all self (seqZ 0 (Z.of_nat (length (questions self)))) inputs.

(** The answers [run_quiz] accepts among the lines of input: the
    numbers from 1 to 4. *)
Fixpoint accepted (inputs : list (option Z)) : list Z :=
  match inputs with
  | [] => []
  | Some answer :: rest =>
      if (1 <=? answer) && (answer <=? 4) then answer :: accepted rest
      else accepted rest
  | None :: rest => accepted rest
  end.

(** The number of questions answered with their correct option, the
    [k]-th answer being for the [k]-th question. *)
Fixpoint graded (qs : list Question) (answers : list Z) : Z :=
  match qs, answers with
  | q :: qs', a :: answers' =>
      (if a =? correct q + 1 then 1 else 0) + graded qs' answers'
  | _, _ => 0
  end.

(** The correct index of a question is a position of its options, counted
    from the front or, as Python allows, from the back. *)
Definition indexable (q : Question) : Prop :=
  - Z.of_nat (length (options q)) ≤ correct q < Z.of_nat (length (options q)).

(** *** Project 4: weather *)

Record Weather : Set := {
  temp : Z;
  condition : string;
  humidity : Z;
  wind : Z
}.

Record WeatherApp : Type := {
  cities : gmap string Weather;
  favorites : list string
}.

(** [WeatherApp.__init__] *)
Definition weather_init : WeatherApp :=
  {| cities :=
       <["berlin" := {| temp := 16; condition := "Overcast"; humidity := 75; wind := 9 |}]>
       (<["sydney" := {| temp := 25; condition := "Sunny"; humidity := 60; wind := 14 |}]>
       (<["paris" := {| temp := 18; condition := "Partly Cloudy"; humidity := 70; wind := 10 |}]>
       (<["tokyo" := {| temp := 28; condition := "Rainy"; humidity := 90; wind := 15 |}]>
       (<["london" := {| temp := 15; condition := "Cloudy"; humidity := 80; wind := 8 |}]>
       (<["new york" := {| temp := 22; condition := "Sunny"; humidity := 65; wind := 12 |}]>
        ∅)))));
     favorites := [] |}.

(** [get_weather]: [None] for Python's [None]. *)
Definition get_weather (self : WeatherApp) (city : string) : option Weather :=
  let city_lower := lower city in
  cities self !! city_lower.

Definition add_favorite (self : WeatherApp) (city : string) : WeatherApp :=
  if bool_decide (is_Some (cities self !! lower city))
     && bool_decide (lower city ∉ favorites self)
  then {| cities := cities self;
          favorites := favorites self ++ [lower city] |}
  else self.

Definition remove_favorite (self : WeatherApp) (city : string)
  : result WeatherApp :=
  if bool_decide (lower city ∈ favorites self) then
    favorites' ← list_remove (lower city) (favorites self);
    Ok {| cities := cities self; favorites := favorites' |}
  else Ok self.

(** A call of [add_favorite] or of [remove_favorite]. *)
Inductive favorite_call : Set :=
| Add (city : string)
| Remove (city : string).

(** A sequence of such calls. *)
Fixpoint favorite_calls (self : WeatherApp) (calls : list favorite_call)
  : result WeatherApp :=
  match calls with
  | [] => Ok self
  | Add city :: rest => favorite_calls (add_favorite self city) rest
  | Remove city :: rest =>
      self ← remove_favorite self city; favorite_calls self rest
  end.

(** What a state of the application keeps true of its favourites: no
    city twice, every one in lowercase and in the table of cities. *)
Definition tidy (self : WeatherApp) : Prop :=
  NoDup (favorites self)
  ∧ ∀ city, city ∈ favorites self →
            lower city = city ∧ is_Some (cities self !! city).

(** *** Project 5: note-taking application, continued *)

(** [v.lower()] on a value of a note: an [int] has no such method. *)
Definition value_lower (v : jvalue) : outcome string :=
  match v with
  | JStr s => Return (lower s)
  | JInt _ => Throw AttributeError
  end.

(** The test of [search_notes] on one note; the content is looked at
    only when the title does not match. *)
Definition note_matches (note : gmap string jvalue) (search_term_lower : string)
  : outcome bool :=
  title ← lift (dict_getitem note "title");
  title_lower ← value_lower title;
  if contains title_lower search_term_lower then Return true
  else
    content ← lift (dict_getitem note "content");
    content_lower ← value_lower content;
    Return (contains content_lower search_term_lower).

(** The loop of [search_notes], with its accumulator. *)
Fixpoint search_loop (ns : list (gmap string jvalue)) (search_term_lower : string)
         (matching_notes : list (gmap string jvalue))
  : outcome (list (gmap string jvalue)) :=
  match ns with
  | [] => Return matching_notes
  | note :: rest =>
      hit ← note_matches note search_term_lower;
      search_loop rest search_term_lower
        (if hit : bool then matching_notes ++ [note] else matching_notes)
  end.

Definition search_notes (self : NoteTakingApp) (search_term : string)
  : outcome (list (gmap string jvalue)) :=
  let search_term_lower := lower search_term in
  search_loop (notes self) search_term_lower [].

(** [filter_by_category] *)
Fixpoint filter_by_category_in (ns : list (gmap string jvalue)) (category : string)
  : outcome (list (gmap string jvalue)) :=
  match ns with
  | [] => Return []
  | note :: rest =>
      c ← lift (dict_getitem note "category");
      c_lower ← value_lower c;
      rest' ← filter_by_category_in rest category;
      Return (if String.eqb c_lower (lower category) then note :: rest'
              else rest')
  end.

Definition filter_by_category (self : NoteTakingApp) (category : string)
  : outcome (list (gmap string jvalue)) :=
  filter_by_category_in (notes self) category.

(** A note with a title and a content that are strings. *)
Definition has_text (note : gmap string jvalue) : Prop :=
  ∃ title content,
    note !! "title" = Some (JStr title) ∧ note !! "content" = Some (JStr content).

(** Every note has a category that is a string, and every category of
    the set is the category of a note. *)
Definition categories_in_use (self : NoteTakingApp) : Prop :=
  Forall (λ note, ∃ c, note !! "category" = Some (JStr c)) (notes self)
  ∧ ∀ c, c ∈ categories self →
         ∃ note, note ∈ notes self ∧ note !! "category" = Some (JStr c).

(** A sequence of [create_note] calls, each with its title, content and
    category, its two readings of the clock and the success of its write
    to the disk. *)
Fixpoint create_notes (self : NoteTakingApp)
         (fs : gmap string (list (gmap string jvalue)))
         (entries : list (string * string * string * string * string * bool))
  : NoteTakingApp * gmap string (list (gmap string jvalue)) :=
  match entries with
  | [] => (self, fs)
  | (title, content, category, t1, t2, io_ok) :: rest =>
      let r := create_note self title content category t1 t2 io_ok fs in
      create_notes r.1 r.2 rest
  end.

End GamesMore.

(** ** 13_utility_tools.py, continued *)

Module UtilityMore.

Import Utility.

(** [AdvancedPasswordGenerator]: the six strings set up by [__init__]. *)
Record AdvancedPasswordGenerator : Set := {
  lowercase : string;
  uppercase : string;
  digits : string;
  symbols : string;
  similar_chars : string;
  ambiguous_chars : string
}.

(** The double quote, which the string of ambiguous characters holds. *)
Definition double_quote : ascii := chr 34.

Definition generator_init : AdvancedPasswordGenerator :=
  {| lowercase := ascii_lowercase;
     uppercase := ascii_uppercase;
     digits := "0123456789";
     symbols := "!@#$%^&*()_+-=[]{}|;:,.<>?";
     similar_chars := "0O1lI";
     ambiguous_chars :=
       ("{}[]()/\'" ++ String double_quote "`~,;.<>")%string |}.

(** [''.join(c for c in chars if c not in excluded)] *)
Definition without (excluded chars : string) : string :=
  keep (λ c, negb (has_char excluded c)) chars.

(** [password.append(random.choice(seq))]: the draw of the k-th call of
    [random.choice] is [draws k], and every call appends one character,
    so the number of the call is the length of the list. *)
Definition append_choice (seq : string) (draws : nat → nat)
           (password : list ascii) : result (list ascii) :=
  c ← choice (list_ascii_of_string seq) (draws (length password));
  Ok (password ++ [c]).

(** The loop [for _ in range(n): password.append(random.choice(chars))] *)
Fixpoint fill (n : nat) (chars : string) (draws : nat → nat)
         (password : list ascii) : result (list ascii) :=
  match n with
  | O => Ok password
  | S n' =>
      password ← append_choice chars draws password;
      fill n' chars draws password
  end.

(** [generate_password]; [shuffle] is what [random.shuffle] makes of
    the list. *)
Definition generate_password (self : AdvancedPasswordGenerator)
           (length : Z)
           (include_uppercase include_digits include_symbols : bool)
           (exclude_similar exclude_ambiguous : bool)
           (draws : nat → nat) (shuffle : list ascii → list ascii)
  : result string :=
  let chars := lowercase self in
  let chars := if include_uppercase then (chars ++ uppercase self)%string else chars in
  let chars := if include_digits then (chars ++ digits self)%string else chars in
  let chars := if include_symbols then (chars ++ symbols self)%string else chars in
  let chars :=
    if exclude_similar then without (similar_chars self) chars else chars in
  let chars :=
    if exclude_ambiguous then without (ambiguous_chars self) chars else chars in
  if String.eqb chars "" then Raise ValueError
  else
    let length := if length <? 4 then 4 else length in
    let password := [] in
    password ← (if include_uppercase
                then append_choice (uppercase self) draws password
                else Ok password);
    password ← (if include_digits
                then append_choice (digits self) draws password
                else Ok password);
    password ← (if include_symbols
                then append_choice (symbols self) draws password
                else Ok password);
    password ← fill (Z.to_nat (length - Z.of_nat (List.length password)))
                    chars draws password;
    Ok (join_chars (shuffle password)).

(** The characters a guaranteed step appends: one drawn from [seq] when
    the option is set, none otherwise. *)
Definition picked (option : bool) (seq : string) (draw : nat)
           (l : list ascii) : Prop :=
  if option then ∃ c, l = [c] ∧ choice (list_ascii_of_string seq) draw = Ok c
  else l = [].

(** The dict that [analyze_password_strength] returns; the key
    [length] is the field [password_length]. *)
Record Analysis : Set := {
  score : Z;
  strength : string;
  feedback : list string;
  password_length : Z
}.

(** [any(p(i) for i in indices)], where [p] may raise. *)
Fixpoint any_index (p : Z → result bool) (indices : list Z) : result bool :=
  match indices with
  | [] => Ok false
  | i :: rest => b ← p i; if b : bool then Ok true else any_index p rest
  end.

(** [any(password[i] == password[i+1] for i in range(len(password)-1))] *)
Definition repeated (password : string) : result bool :=
  any_index (λ i, a ← getitem password i;
                  b ← getitem password (i + 1);
                  Ok (Ascii.eqb a b))
            (seqZ 0 (len password - 1)).

Definition common_patterns : list string :=
  ["123"; "abc"; "qwe"; "password"; "admin"].

Definition strength_levels : list string :=
  ["Very Weak"; "Weak"; "Fair"; "Good"; "Strong"; "Very Strong"].

(** One criterion: a point when it holds, a line of feedback when not. *)
Definition criterion (holds : bool) (advice : string)
           (sf : Z * list string) : Z * list string :=
  if holds then (sf.1 + 1, sf.2) else (sf.1, sf.2 ++ [advice]).

Definition analyze_password_strength (self : AdvancedPasswordGenerator)
           (password : string) : result Analysis :=
  let sf := (0, []) in
  let sf :=
    if len password >=? 12 then (sf.1 + 2, sf.2)
    else if len password >=? 8 then (sf.1 + 1, sf.2)
    else (sf.1, sf.2 ++ ["Password should be at least 8 characters long"]) in
  let sf := criterion (any_char islower password)
                      "Include lowercase letters" sf in
  let sf := criterion (any_char isupper password)
                      "Include uppercase letters" sf in
  let sf := criterion (any_char isdigit password) "Include numbers" sf in
  let sf := criterion (any_char (has_char (symbols self)) password)
                      "Include special characters" sf in
  again ← repeated password;
  let sf := criterion (negb again)
                      "Avoid repeated consecutive characters" sf in
  let sf := criterion (negb (existsb (contains (lower password))
                                     common_patterns))
                      "Avoid common patterns" sf in
  strength ← list_getitem strength_levels
                          (Z.min sf.1 (Z.of_nat (length strength_levels) - 1));
  Ok {| score := sf.1;
        strength := strength;
        feedback := sf.2;
        password_length := len password |}.

End UtilityMore.

(** ** 11_advanced_projects.py, continued *)

Module ProjectsMore.

Import Projects.

(** The clock: [clock k] is the k-th reading of [datetime.now()], in
    microseconds; a function that reads the clock is given the number
    of readings so far and returns the new number with its result. *)
Definition finished (self : Task) : bool :=
  existsb (String.eqb (status self)) ["completed"; "cancelled"].

(** [is_overdue]; the clock is read only for an open task with a due
    date. *)
Definition is_overdue (self : Task) (clock : nat → Z) (n : nat) : bool * nat :=
  match due_date self with
  | Some due =>
      if negb (finished self) then (clock n >? due, S n) else (false, n)
  | None => (false, n)
  end.

(** [TaskManager]: the dict of tasks in insertion order. *)
Record TaskManager : Set := {
  db_name : string;
  tasks : list (Z * Task)
}.

(** [self.tasks.values()] *)
Definition values (self : TaskManager) : list Task := (tasks self).*2.

(** The comprehension of [get_overdue_tasks] *)
Fixpoint overdue_among (ts : list Task) (clock : nat → Z) (n : nat)
  : list Task * nat :=
  match ts with
  | [] => ([], n)
  | task :: rest =>
      let '(late, n) := is_overdue task clock n in
      let '(others, n) := overdue_among rest clock n in
      (if late : bool then task :: others else others, n)
  end.

Definition get_overdue_tasks (self : TaskManager) (clock : nat → Z) (n : nat)
  : list Task * nat :=
  overdue_among (values self) clock n.

(** The instants of [Task] are counted in microseconds from
    [datetime.min], the first instant of year 1; [datetime.max] is the
    last microsecond of year 9999. *)
Definition datetime_max : Z := 3652059 * 86400000000 - 1.

(** [timedelta(days=days)] for an [int]: [OverflowError] beyond
    999999999 days in either direction. *)
Definition timedelta_days (days : Z) : result Z :=
  if (-999999999 <=? days) && (days <=? 999999999)
  then Ok (days * 86400000000)
  else Raise OverflowError.

(** [d + delta] on a datetime: [OverflowError] when the sum is no
    datetime. *)
Definition datetime_add (d delta : Z) : result Z :=
  if (0 <=? d + delta) && (d + delta <=? datetime_max) then Ok (d + delta)
  else Raise OverflowError.

(** The test of the comprehension of [get_tasks_due_soon] *)
Definition due_by (cutoff_date : Z) (task : Task) : bool :=
  match due_date task with
  | Some due => (due <=? cutoff_date) && negb (finished task)
  | None => false
  end.

(** [get_tasks_due_soon]: the clock is read, then the days are added,
    then the tasks are selected. *)
Definition get_tasks_due_soon (self : TaskManager) (days : Z)
           (clock : nat → Z) (n : nat) : result (list Task * nat) :=
  let now := clock n in
  delta ← timedelta_days days;
  cutoff_date ← datetime_add now delta;
  Ok (filter (λ task, due_by cutoff_date task = true) (values self), S n).

(** A manager with one task long overdue and one due far ahead, and a
    clock that starts at 10 and moves by one microsecond a reading. *)
Definition two_tasks : TaskManager :=
  {| db_name := "tasks.db";
     tasks := [(1, task_init "report" "" "high" (Some 5) 0 0);
               (2, task_init "mail" "" "low" (Some 900000000000) 0 0)] |}.

Definition ticking (k : nat) : Z := 10 + Z.of_nat k.

(** A naive [datetime]. *)
Record datetime : Set := {
  year : Z;
  month : Z;
  day : Z;
  hour : Z;
  minute : Z;
  second : Z;
  microsecond : Z
}.

(** [a <= b] on two naive datetimes: the order of their fields, the year
    first. *)
Fixpoint lex_le (a b : list Z) : bool :=
  match a, b with
  | x :: a', y :: b' => (x <? y) || ((x =? y) && lex_le a' b')
  | _, _ => true
  end.

Definition fields (d : datetime) : list Z :=
  [year d; month d; day d; hour d; minute d; second d; microsecond d].

Definition datetime_le (a b : datetime) : bool := lex_le (fields a) (fields b).

Definition is_leap (year : Z) : bool :=
  (year mod 4 =? 0) && (negb (year mod 100 =? 0) || (year mod 400 =? 0)).

Definition days_in_month (year month : Z) : Z :=
  if month =? 2 then (if is_leap year then 29 else 28)
  else if (month =? 4) || (month =? 6) || (month =? 9) || (month =? 11) then 30
  else 31.

(** [datetime(year, month, day)]: midnight of the day, [ValueError] when
    there is no such day. *)
Definition datetime_ymd (year month day : Z) : result datetime :=
  if (1 <=? year) && (year <=? 9999) && (1 <=? month) && (month <=? 12)
     && (1 <=? day) && (day <=? days_in_month year month)
  then Ok {| year := year; month := month; day := day;
             hour := 0; minute := 0; second := 0; microsecond := 0 |}
  else Raise ValueError.

Record Expense : Set := {
  amount : spec_float;
  expense_description : string;
  category : string;
  date : datetime;
  expense_id : option Z
}.

Record ExpenseTracker : Type := {
  expenses_db_name : string;
  expenses : list Expense;
  categories : gset string
}.

(** [get_expenses_by_date_range] *)
Definition get_expenses_by_date_range (self : ExpenseTracker)
           (start_date end_date : datetime) : list Expense :=
  filter (λ exp, datetime_le start_date (date exp)
                 && datetime_le (date exp) end_date = true)
         (expenses self).

(** [get_monthly_summary] up to its selection [monthly_expenses], which
    the totals and the count of the summary are taken from. *)
Definition monthly_expenses (self : ExpenseTracker) (year month : Z)
  : result (list Expense) :=
  start_date ← datetime_ymd year month 1;
  end_date ← (if month =? 12 then datetime_ymd (year + 1) 1 1
              else datetime_ymd year (month + 1) 1);
  Ok (get_expenses_by_date_range self start_date end_date).

End ProjectsMore.

(** ** 07_error_handling.py, continued *)

Module ErrorHandlingMore.

(** [s.split(sep)] for a separator of one character *)
Fixpoint split (sep : ascii) (s : string) : list string :=
  match s with
  | EmptyString => [EmptyString]
  | String c rest =>
      if Ascii.eqb c sep then EmptyString :: split sep rest
      else match split sep rest with
           | first :: others => String c first :: others
           | [] => [String c EmptyString]
           end
  end.

(** [validate_email] *)
Definition validate_email (email : string) : outcome bool :=
  if negb (contains email "@") then Throw (InvalidEmailError email)
  else
    domain ← lift (list_getitem (split "@" email) 1);
    if negb (contains domain ".") then Throw (InvalidEmailError email)
    else Return true.

End ErrorHandlingMore.

(** * Properties *)

(** ** Facts about the runtime fragment *)

Module PyFacts.

Lemma bind_Ok {A B : Type} (a : A) (f : A → result B) :
  Ok a ≫= f = f a.
Proof. reflexivity. Qed.

Lemma ord_chr (n : Z) : 0 ≤ n < 256 → ord (chr n) = n.
Proof.
  intros Hn. unfold ord, chr.
  rewrite N_ascii_embedding by lia. lia.
Qed.

Lemma chr_ord (c : ascii) : chr (ord c) = c.
Proof.
  unfold ord, chr. rewrite N2Z.id. apply ascii_N_embedding.
Qed.

Lemma between_spec (lo hi : Z) (c : ascii) :
  between lo hi c = true ↔ lo ≤ ord c ≤ hi.
Proof. unfold between. rewrite andb_true_iff, !Z.leb_le. tauto. Qed.

Lemma between_false (lo hi : Z) (c : ascii) :
  between lo hi c = false ↔ ¬ (lo ≤ ord c ≤ hi).
Proof. rewrite <- between_spec. destruct (between lo hi c); intuition congruence. Qed.

(** Subscripts in range. *)
Lemma norm_index_in_range (n i : Z) :
  0 ≤ i < n → norm_index n i = Ok (Z.to_nat i).
Proof.
  intros Hi. unfold norm_index.
  destruct (Z.ltb_spec i 0); [lia|].
  destruct (Z.ltb_spec i 0); [lia|].
  destruct (Z.leb_spec n i); [lia|]. reflexivity.
Qed.

Lemma list_getitem_in_range {A : Type} (l : list A) (i : nat) :
  (i < length l)%nat → ∃ x, list_getitem l (Z.of_nat i) = Ok x ∧ x ∈ l.
Proof.
  intros Hi. unfold list_getitem.
  rewrite norm_index_in_range, bind_Ok, Nat2Z.id by lia.
  destruct (lookup_lt_is_Some_2 l i Hi) as [x Hx].
  exists x. rewrite Hx. split; [done|]. by eapply list_elem_of_lookup_2.
Qed.

(** The 26 positions of an alphabet, by enumeration. *)
Lemma alphabet_positions (P : Z → Prop) :
  Forall P (seqZ 0 26) → ∀ n, 0 ≤ n < 26 → P n.
Proof.
  intros HP n Hn. rewrite Forall_forall in HP. apply HP.
  apply elem_of_seqZ. lia.
Qed.

Lemma getitem_alphabet (base : Z) (s : string) :
  Forall (λ n, getitem s n = Ok (chr (base + n))) (seqZ 0 26) →
  ∀ n, 0 ≤ n < 26 → getitem s n = Ok (chr (base + n)).
Proof. apply (alphabet_positions (λ n, getitem s n = Ok (chr (base + n)))). Qed.

Lemma getitem_lowercase (n : Z) :
  0 ≤ n < 26 → getitem ascii_lowercase n = Ok (chr (97 + n)).
Proof. apply getitem_alphabet. repeat constructor. Qed.

Lemma getitem_uppercase (n : Z) :
  0 ≤ n < 26 → getitem ascii_uppercase n = Ok (chr (65 + n)).
Proof. apply getitem_alphabet. repeat constructor. Qed.

Lemma index_alphabet (base : Z) (s : string) :
  Forall (λ n, index s (chr (base + n)) = Ok n) (seqZ 0 26) →
  ∀ c, base ≤ ord c < base + 26 → index s c = Ok (ord c - base).
Proof.
  intros HP c Hc.
  pose proof (alphabet_positions _ HP (ord c - base) ltac:(lia)) as H.
  simpl in H. replace (base + (ord c - base)) with (ord c) in H by lia.
  by rewrite chr_ord in H.
Qed.

Lemma index_lowercase (c : ascii) :
  between 97 122 c = true → index ascii_lowercase c = Ok (ord c - 97).
Proof.
  intros H%between_spec. apply index_alphabet; [repeat constructor | lia].
Qed.

Lemma index_uppercase (c : ascii) :
  between 65 90 c = true → index ascii_uppercase c = Ok (ord c - 65).
Proof.
  intros H%between_spec. apply index_alphabet; [repeat constructor | lia].
Qed.

(** Outside ASCII no range of the ASCII tables applies. *)
Ltac drop_high_ranges c Hhi :=
  repeat match goal with
         | |- context [between ?lo ?hi c] => rewrite (Hhi lo hi) by lia
         end;
  rewrite ?orb_false_r.

Lemma islower_ascii (c : ascii) :
  is_ascii c = true → islower c = between 97 122 c.
Proof.
  unfold is_ascii, islower. intros H%Z.ltb_lt.
  assert (∀ lo hi, 128 ≤ lo → between lo hi c = false) as Hhi.
  { intros lo hi Hlo. apply between_false. lia. }
  by drop_high_ranges c Hhi.
Qed.

Lemma isupper_ascii (c : ascii) :
  is_ascii c = true → isupper c = between 65 90 c.
Proof.
  unfold is_ascii, isupper. intros H%Z.ltb_lt.
  assert (∀ lo hi, 128 ≤ lo → between lo hi c = false) as Hhi.
  { intros lo hi Hlo. apply between_false. lia. }
  by drop_high_ranges c Hhi.
Qed.

End PyFacts.

(** ** [TextEncryptionTool.caesar_cipher] *)

Module UtilityFacts.

Import PyFacts Utility.

Lemma is_ascii_letter_spec (c : ascii) :
  is_ascii_letter c = true ↔ 65 ≤ ord c ≤ 90 ∨ 97 ≤ ord c ≤ 122.
Proof. unfold is_ascii_letter. rewrite orb_true_iff, !between_spec. tauto. Qed.

(** One character that is not a foreign letter: the loop body computes
    what the specification says. *)
Lemma caesar_char_plain (shift : Z) (c : ascii) :
  is_foreign_letter c = false →
  caesar_char init shift c = Ok (shift_letter shift c).
Proof.
  unfold is_foreign_letter, is_ascii_letter, caesar_char, shift_letter.
  intros H. simpl.
  destruct (between 97 122 c) eqn:Hl.
  - assert (islower c = true) as -> by (unfold islower; by rewrite Hl).
    rewrite (index_lowercase c Hl), bind_Ok.
    apply getitem_lowercase, Z.mod_pos_bound. lia.
  - destruct (between 65 90 c) eqn:Hu.
    + assert (isupper c = true) as Hup by (unfold isupper; by rewrite Hu).
      assert (islower c = false) as ->.
      { apply between_spec in Hu. unfold islower.
        repeat (apply orb_false_intro); apply between_false; lia. }
      rewrite Hup, (index_uppercase c Hu), bind_Ok.
      apply getitem_uppercase, Z.mod_pos_bound. lia.
    + simpl in H. rewrite andb_true_r in H.
      apply orb_false_elim in H as [-> ->]. reflexivity.
Qed.

(** One foreign letter: [index] does not find it. *)
Lemma caesar_char_foreign (shift : Z) (c : ascii) :
  is_foreign_letter c = true →
  caesar_char init shift c = Raise ValueError.
Proof.
  destruct c as [[] [] [] [] [] [] [] []]; intros H;
    vm_compute in H; try discriminate H; reflexivity.
Qed.

Lemma append_cons (a : ascii) (s t : string) :
  (String a s ++ t)%string = String a (s ++ t)%string.
Proof. reflexivity. Qed.

Lemma append_empty (s : string) : (s ++ EmptyString)%string = s.
Proof.
  induction s as [|a s IH]; [reflexivity|]. by rewrite append_cons, IH.
Qed.

Lemma append_snoc (acc : string) (c : ascii) (s : string) :
  ((acc ++ String c EmptyString) ++ s)%string = (acc ++ String c s)%string.
Proof.
  induction acc as [|a acc IH]; [reflexivity|]. by rewrite !append_cons, IH.
Qed.

Lemma caesar_loop_plain (shift : Z) (text acc : string) :
  any_char is_foreign_letter text = false →
  caesar_loop init shift text acc = Ok (acc ++ shifted shift text)%string.
Proof.
  revert acc. induction text as [|c rest IH]; intros acc H; simpl in *.
  - by rewrite append_empty.
  - apply orb_false_elim in H as [Hc Hrest].
    by rewrite (caesar_char_plain shift c Hc), bind_Ok, (IH _ Hrest), append_snoc.
Qed.

Lemma caesar_loop_foreign (shift : Z) (text acc : string) :
  any_char is_foreign_letter text = true →
  caesar_loop init shift text acc = Raise ValueError.
Proof.
  revert acc. induction text as [|c rest IH]; intros acc H; simpl in *.
  - discriminate.
  - destruct (is_foreign_letter c) eqn:Hc.
    + by rewrite (caesar_char_foreign shift c Hc).
    + rewrite (caesar_char_plain shift c Hc), bind_Ok. by apply IH.
Qed.

(** Encryption of a text with no foreign letter is the cipher of the
    specification. *)
Lemma caesar_cipher_plain (text : string) (shift : Z) (encrypt : bool) :
  any_char is_foreign_letter text = false →
  caesar_cipher init text shift encrypt
  = Ok (shifted (if encrypt then shift else - shift) text).
Proof.
  intros H. unfold caesar_cipher. by rewrite caesar_loop_plain.
Qed.

(** Any text with a foreign letter makes the cipher raise. *)
Lemma caesar_cipher_foreign (text : string) (shift : Z) (encrypt : bool) :
  any_char is_foreign_letter text = true →
  caesar_cipher init text shift encrypt = Raise ValueError.
Proof. apply caesar_loop_foreign. Qed.

Lemma ascii_not_foreign (text : string) :
  all_chars is_ascii text = true →
  any_char is_foreign_letter text = false.
Proof.
  induction text as [|c rest IH]; simpl; [done|].
  intros [Hc Hrest]%andb_true_iff. rewrite (IH Hrest), orb_false_r.
  unfold is_foreign_letter, is_ascii_letter.
  rewrite (islower_ascii c Hc), (isupper_ascii c Hc).
  by destruct (between 97 122 c), (between 65 90 c).
Qed.

(** On ASCII text the cipher is the cipher of the specification, for
    every shift and in both directions. *)
Lemma caesar_cipher_ascii (text : string) (shift : Z) (encrypt : bool) :
  all_chars is_ascii text = true →
  caesar_cipher init text shift encrypt
  = Ok (shifted (if encrypt then shift else - shift) text).
Proof. intros H. by apply caesar_cipher_plain, ascii_not_foreign. Qed.

Lemma letters_not_foreign (text : string) :
  all_chars is_ascii_letter text = true →
  any_char is_foreign_letter text = false.
Proof.
  induction text as [|c rest IH]; simpl; [done|].
  intros [Hc Hrest]%andb_true_iff. rewrite (IH Hrest), orb_false_r.
  unfold is_foreign_letter. by rewrite Hc, andb_false_r.
Qed.

Lemma shift_letter_is_letter (k : Z) (c : ascii) :
  is_ascii_letter c = true → is_ascii_letter (shift_letter k c) = true.
Proof.
  rewrite !is_ascii_letter_spec. unfold shift_letter. intros H.
  pose proof (Z.mod_pos_bound (ord c - 97 + k) 26 ltac:(lia)).
  pose proof (Z.mod_pos_bound (ord c - 65 + k) 26 ltac:(lia)).
  destruct (between 97 122 c) eqn:Hl.
  - rewrite ord_chr by lia. lia.
  - apply between_false in Hl.
    assert (between 65 90 c = true) as -> by (apply between_spec; lia).
    rewrite ord_chr by lia. lia.
Qed.

Lemma shift_letter_back (k : Z) (c : ascii) :
  is_ascii_letter c = true → shift_letter (- k) (shift_letter k c) = c.
Proof.
  rewrite is_ascii_letter_spec. intros H.
  pose proof (Z.mod_pos_bound (ord c - 97 + k) 26 ltac:(lia)) as Hl26.
  pose proof (Z.mod_pos_bound (ord c - 65 + k) 26 ltac:(lia)) as Hu26.
  unfold shift_letter at 2.
  destruct (between 97 122 c) eqn:Hl.
  - apply between_spec in Hl. unfold shift_letter.
    assert (between 97 122 (chr (97 + (ord c - 97 + k) mod 26)) = true) as ->.
    { apply between_spec. rewrite ord_chr by lia. lia. }
    rewrite ord_chr by lia.
    replace (97 + (ord c - 97 + k) mod 26 - 97 + - k)
      with ((ord c - 97 + k) mod 26 - k) by lia.
    rewrite Zminus_mod_idemp_l.
    replace (ord c - 97 + k - k) with (ord c - 97) by lia.
    rewrite Z.mod_small by lia.
    replace (97 + (ord c - 97)) with (ord c) by lia. apply chr_ord.
  - apply between_false in Hl.
    assert (between 65 90 c = true) as -> by (apply between_spec; lia).
    unfold shift_letter.
    assert (between 97 122 (chr (65 + (ord c - 65 + k) mod 26)) = false) as ->.
    { apply between_false. rewrite ord_chr by lia. lia. }
    assert (between 65 90 (chr (65 + (ord c - 65 + k) mod 26)) = true) as ->.
    { apply between_spec. rewrite ord_chr by lia. lia. }
    rewrite ord_chr by lia.
    replace (65 + (ord c - 65 + k) mod 26 - 65 + - k)
      with ((ord c - 65 + k) mod 26 - k) by lia.
    rewrite Zminus_mod_idemp_l.
    replace (ord c - 65 + k - k) with (ord c - 65) by lia.
    rewrite Z.mod_small by lia.
    replace (65 + (ord c - 65)) with (ord c) by lia. apply chr_ord.
Qed.

Lemma shifted_letters (k : Z) (x : string) :
  all_chars is_ascii_letter x = true →
  all_chars is_ascii_letter (shifted k x) = true
  ∧ shifted (- k) (shifted k x) = x.
Proof.
  induction x as [|c rest IH]; simpl; [done|].
  intros [Hc Hrest]%andb_true_iff. destruct (IH Hrest) as [IH1 IH2].
  by rewrite shift_letter_is_letter, IH1, shift_letter_back, IH2.
Qed.

(** C1.  For every string [x] of ASCII letters and every shift [k] in
    0..25, decrypting with shift [k] the encryption of [x] with shift [k]
    gives [x] back: both calls return, and the second returns [x]. *)
Theorem caesar_roundtrip (x : string) (k : Z) :
  all_chars is_ascii_letter x = true →
  0 ≤ k ≤ 25 →
  (y ← caesar_cipher init x k true; caesar_cipher init y k false) = Ok x.
Proof.
  intros Hx _.
  rewrite caesar_cipher_plain by by apply letters_not_foreign.
  rewrite bind_Ok.
  destruct (shifted_letters k x Hx) as [Hy Hback].
  rewrite caesar_cipher_plain by by apply letters_not_foreign.
  by rewrite Hback.
Qed.

Lemma caesar_roundtrip_witness :
  (y ← caesar_cipher init "HelloWorld" 3 true; caesar_cipher init y 3 false)
  = Ok "HelloWorld".
Proof. apply caesar_roundtrip; [reflexivity | lia]. Defined.

(** C3, at the input "café" with shift 3: the call raises [ValueError]
    instead of returning "fdi" followed by the unchanged last letter. *)
Theorem caesar_cipher_cafe :
  caesar_cipher init cafe 3 true = Raise ValueError
  ∧ all_chars (λ c, islower c) cafe = true
  ∧ shifted 3 cafe = ("fdi" ++ String (chr 233) EmptyString)%string.
Proof. repeat split. Qed.

End UtilityFacts.

(** ** [HangmanGame] *)

Module HangmanFacts.

Import PyFacts Games.

(** [random.choice] of a non-empty list returns one of its elements. *)
Lemma choice_nonempty {A : Type} (seq : list A) (draw : nat) :
  seq ≠ [] → ∃ x, choice seq draw = Ok x ∧ x ∈ seq.
Proof.
  intros Hne. unfold choice. destruct seq as [|a seq]; [done|].
  apply list_getitem_in_range. apply Nat.mod_upper_bound. done.
Qed.

Lemma select_random_word_returns (self : HangmanGame) (draw : nat) :
  words self ≠ [] →
  ∃ w, w ∈ words self
       ∧ select_random_word self draw
         = Ok {| words := words self;
                 word := lower w;
                 guessed_letters := ∅;
                 wrong_guesses := 0;
                 max_wrong_guesses := max_wrong_guesses self |}.
Proof.
  intros Hne. destruct (choice_nonempty (words self) draw Hne) as (w & Hw & Hin).
  exists w. split; [done|]. unfold select_random_word. by rewrite Hw.
Qed.

(** One guess: what [make_guess] does to each attribute. *)
Lemma make_guess_repeated (self : HangmanGame) (letter : string) :
  lower letter ∈ guessed_letters self →
  make_guess self letter = (self, false).
Proof.
  intros Hin. unfold make_guess. by rewrite bool_decide_eq_true_2.
Qed.

Lemma make_guess_new (self : HangmanGame) (letter : string) :
  lower letter ∉ guessed_letters self →
  make_guess self letter
  = ({| words := words self;
        word := word self;
        guessed_letters := guessed_letters self ∪ {[ lower letter ]};
        wrong_guesses :=
          if contains (word self) (lower letter)
          then wrong_guesses self else wrong_guesses self + 1;
        max_wrong_guesses := max_wrong_guesses self |},
     contains (word self) (lower letter)).
Proof.
  intros Hnew. unfold make_guess. rewrite bool_decide_eq_false_2 by done.
  simpl. by destruct (contains (word self) (lower letter)).
Qed.

Lemma make_guess_frame (self : HangmanGame) (letter : string) :
  word (make_guess self letter).1 = word self
  ∧ words (make_guess self letter).1 = words self
  ∧ max_wrong_guesses (make_guess self letter).1 = max_wrong_guesses self
  ∧ guessed_letters (make_guess self letter).1
    = guessed_letters self ∪ {[ lower letter ]}.
Proof.
  destruct (decide (lower letter ∈ guessed_letters self)) as [Hin|Hnew].
  - rewrite make_guess_repeated by done. repeat split.
    simpl. rewrite (comm_L (∪)). symmetry.
    apply subseteq_union_1_L. by apply singleton_subseteq_l.
  - rewrite make_guess_new by done. repeat split.
Qed.

(** The counter moves by one exactly on a new letter that is not in the
    word. *)
Lemma make_guess_counter (self : HangmanGame) (letter : string) :
  wrong_guesses (make_guess self letter).1
  = if bool_decide (lower letter ∉ guessed_letters self)
       && negb (contains (word self) (lower letter))
    then wrong_guesses self + 1 else wrong_guesses self.
Proof.
  destruct (decide (lower letter ∈ guessed_letters self)) as [Hin|Hnew].
  - rewrite make_guess_repeated, bool_decide_eq_false_2 by auto. done.
  - rewrite make_guess_new, bool_decide_eq_true_2 by done. simpl.
    by destruct (contains (word self) (lower letter)).
Qed.

(** The invariant: the counter is the number of guessed letters that do
    not occur in the word. *)
Lemma make_guess_invariant (self : HangmanGame) (letter : string) :
  wrong_guesses self = Z.of_nat (size (wrong_letters self)) →
  wrong_guesses (make_guess self letter).1
  = Z.of_nat (size (wrong_letters (make_guess self letter).1)).
Proof.
  intros Hinv.
  destruct (decide (lower letter ∈ guessed_letters self)) as [Hin|Hnew].
  { by rewrite make_guess_repeated. }
  rewrite make_guess_new by done. unfold wrong_letters in *. simpl.
  rewrite (filter_union_L (C:=gset string)) by tc_solve.
  destruct (contains (word self) (lower letter)) eqn:Hc.
  - rewrite (filter_singleton_False_L (C:=gset string))
      by first [tc_solve | simpl; congruence].
    by rewrite (right_id_L ∅ (∪)).
  - rewrite (filter_singleton_True_L (C:=gset string))
      by first [tc_solve | done].
    rewrite size_union.
    + rewrite size_singleton. lia.
    + apply disjoint_singleton_r. rewrite elem_of_filter. tauto.
Qed.

Lemma run_guesses_invariant (self : HangmanGame) (letters : list string) :
  wrong_guesses self = Z.of_nat (size (wrong_letters self)) →
  wrong_guesses (run_guesses self letters)
  = Z.of_nat (size (wrong_letters (run_guesses self letters))).
Proof.
  revert self. induction letters as [|l ls IH]; intros self Hinv; [done|].
  apply IH. by apply make_guess_invariant.
Qed.

Lemma run_guesses_frame (self : HangmanGame) (letters : list string) :
  word (run_guesses self letters) = word self
  ∧ max_wrong_guesses (run_guesses self letters) = max_wrong_guesses self
  ∧ guessed_letters (run_guesses self letters)
    = guessed_letters self ∪ list_to_set (lower <$> letters).
Proof.
  revert self. induction letters as [|l ls IH]; intros self.
  - repeat split. simpl. by rewrite (right_id_L ∅ (∪)).
  - destruct (IH (make_guess self l).1) as (Hw & Hm & Hg).
    destruct (make_guess_frame self l) as (Hw' & _ & Hm' & Hg').
    change (run_guesses self (l :: ls))
      with (run_guesses (make_guess self l).1 ls).
    rewrite Hw, Hm, Hg, Hw', Hm', Hg'. repeat split.
    by rewrite fmap_cons, list_to_set_cons, (assoc_L (∪)).
Qed.

(** C4.  From the state [select_random_word] produces, after any
    sequence of [make_guess] calls: the counter is the number of guessed
    letters that do not occur in the word; the guessed set holds the
    (lowercased) guesses; a further guess adds exactly 1 to the counter
    when it is new and not in the word, and nothing otherwise; and
    [is_game_lost] holds exactly when the counter has reached 6. *)
Theorem hangman_wrong_guesses (draw : nat) (letters : list string) :
  ∃ g0, select_random_word hangman_init draw = Ok g0
    ∧ word g0 ∈ lower <$> words hangman_init
    ∧ let g := run_guesses g0 letters in
      wrong_guesses g = Z.of_nat (size (wrong_letters g))
      ∧ guessed_letters g = list_to_set (lower <$> letters)
      ∧ word g = word g0
      ∧ (∀ letter,
           wrong_guesses (make_guess g letter).1
           = if bool_decide (lower letter ∉ guessed_letters g)
                && negb (contains (word g) (lower letter))
             then wrong_guesses g + 1 else wrong_guesses g)
      ∧ max_wrong_guesses g = 6
      ∧ (is_game_lost g = true ↔ 6 ≤ wrong_guesses g).
Proof.
  destruct (select_random_word_returns hangman_init draw) as (w & Hw & Hsel);
    [done|].
  eexists. split; [exact Hsel|]. split.
  { cbn [word]. by apply (list_elem_of_fmap_2 lower). }
  match goal with |- context [run_guesses ?g _] => set (g0 := g) end.
  destruct (run_guesses_frame g0 letters) as (Hword & Hmax & Hguessed).
  cbv zeta. split; [|split; [|split; [|split; [|split]]]].
  - by apply run_guesses_invariant.
  - rewrite Hguessed. cbn [guessed_letters g0]. by rewrite (left_id_L ∅ (∪)).
  - done.
  - intros letter. apply make_guess_counter.
  - by rewrite Hmax.
  - unfold is_game_lost. rewrite Hmax. simpl. apply Z.leb_le.
Qed.

End HangmanFacts.

(** ** [TicTacToe] *)

Module TicTacToeFacts.

Import PyFacts Games.

(** A board of the right shape is nine cells. *)
Lemma is_3x3_cells (b : list (list string)) :
  is_3x3 b = true →
  ∃ a0 a1 a2 b0 b1 b2 c0 c1 c2,
    b = [[a0; a1; a2]; [b0; b1; b2]; [c0; c1; c2]].
Proof.
  unfold is_3x3. intros [Hlen Hrows]%andb_true_iff.
  destruct b as [|r0 [|r1 [|r2 [|? ?]]]]; try discriminate Hlen.
  simpl in Hrows. rewrite !andb_true_iff in Hrows.
  destruct Hrows as (H0 & H1 & H2 & _).
  destruct r0 as [|a0 [|a1 [|a2 [|? ?]]]]; try discriminate H0.
  destruct r1 as [|b0 [|b1 [|b2 [|? ?]]]]; try discriminate H1.
  destruct r2 as [|c0 [|c1 [|c2 [|? ?]]]]; try discriminate H2.
  by exists a0, a1, a2, b0, b1, b2, c0, c1, c2.
Qed.

Lemma same_mark_Ok (a b c : string) :
  same_mark (Ok a) (Ok b) (Ok c)
  = Ok (String.eqb a b && String.eqb b c && negb (String.eqb c " ")).
Proof. unfold same_mark. rewrite !bind_Ok. by destruct (String.eqb a b). Qed.

(** [check_winner] returns, and returns the mark of the first filled
    line in scan order. *)
Lemma check_winner_first_filled (self : TicTacToe) :
  is_3x3 (board self) = true →
  check_winner self = Ok (first_filled (board self)).
Proof.
  intros (a0 & a1 & a2 & b0 & b1 & b2 & c0 & c1 & c2 & Hb)%is_3x3_cells.
  unfold check_winner, first_filled. rewrite Hb. clear Hb self.
  unfold check_diagonals, lines, line_mark.
  cbn [check_rows check_cols omap list_omap fst snd].
  change (cell ?b ?r ?c) with (list_getitem b r ≫= λ x, list_getitem x c).
  repeat first
    [ progress change (list_getitem [?x; ?y; ?z] 0) with (Ok x)
    | progress change (list_getitem [?x; ?y; ?z] 1) with (Ok y)
    | progress change (list_getitem [?x; ?y; ?z] 2) with (Ok z)
    | rewrite bind_Ok ].
  rewrite !same_mark_Ok. unfold or_else. rewrite !bind_Ok.
  repeat match goal with
         | |- context [if ?t then _ else _] =>
             destruct t; cbn [head]; rewrite ?bind_Ok; try reflexivity
         end.
Qed.

(** What [line_mark] says of the cells of a line. *)
Lemma line_mark_cells (b : list (list string)) (p q r : Z * Z) (m : string) :
  line_mark b (p, q, r) = Some m ↔
  cell b p.1 p.2 = Ok m ∧ cell b q.1 q.2 = Ok m ∧ cell b r.1 r.2 = Ok m
  ∧ m ≠ " ".
Proof.
  unfold line_mark.
  destruct (cell b p.1 p.2) as [x|]; [|split; [|intros (? & _)]; discriminate].
  destruct (cell b q.1 q.2) as [y|]; [|split; [|intros (_ & ? & _)]; discriminate].
  destruct (cell b r.1 r.2) as [z|]; [|split; [|intros (_ & _ & ? & _)]; discriminate].
  destruct (String.eqb_spec x y) as [->|Hxy]; simpl.
  2: { split; [discriminate|]. intros ([= ->] & [= ->] & _). by destruct Hxy. }
  destruct (String.eqb_spec y z) as [->|Hyz]; simpl.
  2: { split; [discriminate|]. intros (_ & [= ->] & [= ->] & _). by destruct Hyz. }
  destruct (String.eqb_spec z " ") as [->|Hz]; simpl.
  - split; [discriminate|]. intros ([= <-] & _ & _ & Hm). by destruct Hm.
  - split.
    + by intros [= ->].
    + by intros ([= ->] & _).
Qed.

Lemma first_filled_Some (b : list (list string)) (m : string) :
  first_filled b = Some m → ∃ l, l ∈ lines ∧ line_mark b l = Some m.
Proof.
  unfold first_filled. intros H%head_Some_elem_of.
  by apply list_elem_of_omap in H.
Qed.

Lemma first_filled_None (b : list (list string)) :
  first_filled b = None ↔ ∀ l, l ∈ lines → line_mark b l = None.
Proof.
  unfold first_filled. rewrite head_None. split.
  - intros Hnil l Hl. destruct (line_mark b l) as [m|] eqn:Hm; [|done].
    assert (m ∈ omap (line_mark b) lines) as Hin
      by (apply list_elem_of_omap; eauto).
    rewrite Hnil in Hin. by apply elem_of_nil in Hin.
  - intros Hall. destruct (omap (line_mark b) lines) as [|m ms] eqn:Hms; [done|].
    assert (m ∈ omap (line_mark b) lines) as Hin by (rewrite Hms; left).
    apply list_elem_of_omap in Hin as (l & Hl & Hm).
    rewrite (Hall l Hl) in Hm. discriminate.
Qed.

(** When every filled line carries the mark [m], so does the first. *)
Lemma first_filled_one_mark (b : list (list string))
      (l : (Z * Z) * (Z * Z) * (Z * Z)) (m : string) :
  l ∈ lines → line_mark b l = Some m →
  (∀ l' m', l' ∈ lines → line_mark b l' = Some m' → m' = m) →
  first_filled b = Some m.
Proof.
  intros Hl Hm Hone. destruct (first_filled b) as [m'|] eqn:Hfirst.
  - apply first_filled_Some in Hfirst as (l' & Hl' & Hm').
    f_equal. eauto.
  - rewrite first_filled_None in Hfirst. rewrite (Hfirst l Hl) in Hm.
    discriminate.
Qed.

(** C2, as the code has it.  On every 3x3 board [check_winner] returns
    the mark of the first filled line in scan order.  So it returns [m]
    when some line is filled with [m] and no line is filled with another
    mark, whatever it returns fills one of the eight lines, and it
    returns [None] when no line is filled. *)
Theorem check_winner_correct (self : TicTacToe) :
  is_3x3 (board self) = true →
  check_winner self = Ok (first_filled (board self))
  ∧ (∀ l m, l ∈ lines → line_mark (board self) l = Some m →
       (∀ l' m', l' ∈ lines → line_mark (board self) l' = Some m' → m' = m) →
       check_winner self = Ok (Some m))
  ∧ (∀ m, check_winner self = Ok (Some m) →
       ∃ l, l ∈ lines ∧ line_mark (board self) l = Some m)
  ∧ ((∀ l, l ∈ lines → line_mark (board self) l = None) →
       check_winner self = Ok None).
Proof.
  intros H3. rewrite (check_winner_first_filled self H3).
  split; [done|]. split; [|split].
  - intros l m Hl Hm Hone. f_equal. by eapply first_filled_one_mark.
  - intros m [= Hm]. by apply first_filled_Some.
  - intros Hnone. f_equal. by apply first_filled_None.
Qed.

Lemma check_winner_correct_witness :
  check_winner two_winners = Ok (first_filled (board two_winners))
  ∧ first_filled (board two_winners) = Some "X".
Proof.
  split; [|reflexivity].
  apply (check_winner_correct two_winners). reflexivity.
Defined.

(** C2 as stated fails: a line filled with one mark does not make
    [check_winner] return that mark when an earlier line is filled with
    the other. *)
Lemma check_winner_not_every_line :
  ¬ (∀ (self : TicTacToe) l m,
       is_3x3 (board self) = true → l ∈ lines →
       line_mark (board self) l = Some m →
       check_winner self = Ok (Some m)).
Proof.
  intros H.
  specialize (H two_winners ((1, 0), (1, 1), (1, 2)) "O" eq_refl).
  assert (check_winner two_winners = Ok (Some "O")) as Hbad.
  { apply H; [|reflexivity]. unfold lines. set_solver. }
  vm_compute in Hbad. discriminate Hbad.
Qed.

(** A move outside the board, or onto a taken cell, is refused and
    changes nothing. *)
Lemma make_move_refused (self : TicTacToe) (row col : Z) :
  is_3x3 (board self) = true →
  ¬ (0 ≤ row < 3 ∧ 0 ≤ col < 3 ∧ cell (board self) row col = Ok " ") →
  make_move self row col = Ok (self, false).
Proof.
  intros H3 Hbad. unfold make_move.
  destruct ((row <? 0) || (row >=? 3) || (col <? 0) || (col >=? 3)) eqn:Hguard;
    [done|].
  rewrite !orb_false_iff, !Z.ltb_ge, Z.geb_leb, Z.geb_leb, !Z.leb_gt in Hguard.
  destruct (cell (board self) row col) as [c|e] eqn:Hc.
  - rewrite bind_Ok. destruct (String.eqb_spec c " ") as [->|Hne]; [|done].
    destruct Hbad. repeat split; first [lia | done].
  - exfalso.
    apply is_3x3_cells in H3
      as (a0 & a1 & a2 & b0 & b1 & b2 & c0 & c1 & c2 & Hb).
    rewrite Hb in Hc.
    assert (row = 0 ∨ row = 1 ∨ row = 2) as [-> | [-> | ->]] by lia;
      (assert (col = 0 ∨ col = 1 ∨ col = 2) as [-> | [-> | ->]] by lia);
      discriminate Hc.
Qed.

(** A move onto a blank cell of the board writes the mark there and
    nowhere else. *)
Lemma make_move_accepted (self : TicTacToe) (row col : Z) :
  is_3x3 (board self) = true →
  0 ≤ row < 3 → 0 ≤ col < 3 → cell (board self) row col = Ok " " →
  ∃ b', make_move self row col
        = Ok ({| board := b';
                 current_player := current_player self;
                 game_over := game_over self |}, true)
        ∧ is_3x3 b' = true
        ∧ cell b' row col = Ok (current_player self)
        ∧ ∀ r c, 0 ≤ r < 3 → 0 ≤ c < 3 → (r, c) ≠ (row, col) →
                 cell b' r c = cell (board self) r c.
Proof.
  intros H3 Hrow Hcol Hc. unfold make_move.
  assert ((row <? 0) || (row >=? 3) || (col <? 0) || (col >=? 3) = false) as ->.
  { rewrite !orb_false_iff, !Z.ltb_ge, Z.geb_leb, Z.geb_leb, !Z.leb_gt. lia. }
  rewrite Hc, bind_Ok. change (negb (String.eqb " " " ")) with false.
  cbv iota.
  apply is_3x3_cells in H3
    as (a0 & a1 & a2 & b0 & b1 & b2 & c0 & c1 & c2 & Hb).
  rewrite Hb in *. clear Hb Hc.
  assert (row = 0 ∨ row = 1 ∨ row = 2) as [-> | [-> | ->]] by lia;
    (assert (col = 0 ∨ col = 1 ∨ col = 2) as [-> | [-> | ->]] by lia);
    (eexists; split; [reflexivity|]; split; [reflexivity|];
     split; [reflexivity|]);
    intros r c Hr Hc Hne;
    (assert (r = 0 ∨ r = 1 ∨ r = 2) as [-> | [-> | ->]] by lia);
    (assert (c = 0 ∨ c = 1 ∨ c = 2) as [-> | [-> | ->]] by lia);
    first [reflexivity | by destruct Hne].
Qed.

(** For all integers the call returns: no subscript is out of range. *)
Lemma make_move_returns (self : TicTacToe) (row col : Z) :
  is_3x3 (board self) = true →
  ∃ self' ok, make_move self row col = Ok (self', ok).
Proof.
  intros H3.
  destruct (decide (0 ≤ row < 3 ∧ 0 ≤ col < 3)) as [[Hr Hc]|Hout].
  - destruct (cell (board self) row col) as [c|e] eqn:Hcell.
    + destruct (String.eqb_spec c " ") as [->|Hne].
      * destruct (make_move_accepted self row col H3 Hr Hc Hcell)
          as (b' & Hmove & _).
        eauto.
      * exists self, false. apply make_move_refused; [done|].
        rewrite Hcell. by intros (_ & _ & [= ?]).
    + exists self, false. apply make_move_refused; [done|].
      rewrite Hcell. by intros (_ & _ & [=]).
  - exists self, false. apply make_move_refused; [done|tauto].
Qed.

(** C10.  On every 3x3 board and for all integers [row], [col],
    [make_move] returns without an out-of-range access.  When [row] or
    [col] is outside 0..2 or the addressed cell is not blank it returns
    [False] and the state is unchanged; otherwise it returns [True], the
    addressed cell holds the current player's mark, the other eight
    cells, the current player and the shape are unchanged. *)
Theorem make_move_spec (self : TicTacToe) (row col : Z) :
  is_3x3 (board self) = true →
  (∃ self' ok, make_move self row col = Ok (self', ok))
  ∧ (¬ (0 ≤ row < 3 ∧ 0 ≤ col < 3 ∧ cell (board self) row col = Ok " ") →
     make_move self row col = Ok (self, false))
  ∧ (0 ≤ row < 3 → 0 ≤ col < 3 → cell (board self) row col = Ok " " →
     ∃ b', make_move self row col
           = Ok ({| board := b';
                    current_player := current_player self;
                    game_over := game_over self |}, true)
           ∧ is_3x3 b' = true
           ∧ cell b' row col = Ok (current_player self)
           ∧ ∀ r c, 0 ≤ r < 3 → 0 ≤ c < 3 → (r, c) ≠ (row, col) →
                    cell b' r c = cell (board self) r c).
Proof.
  intros H3. split; [|split].
  - by apply make_move_returns.
  - by apply make_move_refused.
  - by apply make_move_accepted.
Qed.

Lemma make_move_spec_witness :
  make_move tictactoe_init 3 0 = Ok (tictactoe_init, false)
  ∧ ∃ b', make_move tictactoe_init 1 1
          = Ok ({| board := b'; current_player := "X"; game_over := false |},
                true)
          ∧ cell b' 1 1 = Ok "X".
Proof.
  destruct (make_move_spec tictactoe_init 3 0 eq_refl) as (_ & Hno & _).
  destruct (make_move_spec tictactoe_init 1 1 eq_refl) as (_ & _ & Hyes).
  split.
  - apply Hno. lia.
  - destruct Hyes as (b' & Hmove & _ & Hcell & _); [lia | lia | reflexivity |].
    exists b'. split; [exact Hmove | exact Hcell].
Defined.

(** An accepted move addresses a blank cell of the board. *)
Lemma make_move_accepted_inv (self self' : TicTacToe) (row col : Z) :
  is_3x3 (board self) = true →
  make_move self row col = Ok (self', true) →
  0 ≤ row < 3 ∧ 0 ≤ col < 3 ∧ cell (board self) row col = Ok " ".
Proof.
  intros H3 Hmove.
  destruct (decide (0 ≤ row < 3 ∧ 0 ≤ col < 3)) as [[Hr Hc]|Hout].
  - destruct (cell (board self) row col) as [c|e] eqn:Hcell.
    + destruct (String.eqb_spec c " ") as [->|Hne]; [done|].
      exfalso. rewrite make_move_refused in Hmove; [discriminate|done|].
      rewrite Hcell. by intros (_ & _ & [= ?]).
    + exfalso. rewrite make_move_refused in Hmove; [discriminate|done|].
      rewrite Hcell. by intros (_ & _ & [=]).
  - exfalso. rewrite make_move_refused in Hmove; [discriminate|done|tauto].
Qed.

(** The nine cells of a board given by its cells. *)
Ltac eval_cells :=
  repeat first
    [ progress change (cell [[?x; _; _]; _; _] 0 0) with (Ok x) in *
    | progress change (cell [[_; ?x; _]; _; _] 0 1) with (Ok x) in *
    | progress change (cell [[_; _; ?x]; _; _] 0 2) with (Ok x) in *
    | progress change (cell [_; [?x; _; _]; _] 1 0) with (Ok x) in *
    | progress change (cell [_; [_; ?x; _]; _] 1 1) with (Ok x) in *
    | progress change (cell [_; [_; _; ?x]; _] 1 2) with (Ok x) in *
    | progress change (cell [_; _; [?x; _; _]] 2 0) with (Ok x) in *
    | progress change (cell [_; _; [_; ?x; _]] 2 1) with (Ok x) in *
    | progress change (cell [_; _; [_; _; ?x]] 2 2) with (Ok x) in * ].

(** The eight lines, one by one. *)
Ltac each_line Hl :=
  unfold lines in Hl;
  repeat (apply elem_of_cons in Hl as [->|Hl]);
  [..|by apply elem_of_nil in Hl].

(** A line filled after a move on a board that had no filled line is
    filled with the mark just written. *)
Lemma move_fills_own_lines (self self' : TicTacToe) (row col : Z) :
  is_3x3 (board self) = true →
  first_filled (board self) = None →
  make_move self row col = Ok (self', true) →
  ∀ l m, l ∈ lines → line_mark (board self') l = Some m →
         m = current_player self.
Proof.
  intros H3 Hnone Hmove l m Hl Hm.
  destruct (make_move_accepted_inv self self' row col H3 Hmove)
    as (Hrow & Hcol & Hblank).
  rewrite first_filled_None in Hnone. specialize (Hnone l Hl).
  destruct self as [b p g]. cbn [board current_player] in *.
  apply is_3x3_cells in H3
    as (a0 & a1 & a2 & b0 & b1 & b2 & c0 & c1 & c2 & ->).
  assert (row = 0 ∨ row = 1 ∨ row = 2) as [-> | [-> | ->]] by lia;
    (assert (col = 0 ∨ col = 1 ∨ col = 2) as [-> | [-> | ->]] by lia);
    injection Hblank as ->; injection Hmove as <-;
    cbn [board] in Hm; each_line Hl;
    unfold line_mark in Hm, Hnone; cbn [fst snd] in Hm, Hnone; eval_cells;
    cbv beta iota in Hm, Hnone;
    repeat match type of Hm with
           | context [String.eqb ?x ?y] =>
               destruct (String.eqb_spec x y); cbn in Hm, Hnone;
               try discriminate
           end;
    congruence.
Qed.

(** At the top of the loop the board is 3x3 and no line is filled. *)
Lemma playing_invariant (self : TicTacToe) :
  playing self →
  is_3x3 (board self) = true ∧ first_filled (board self) = None.
Proof.
  induction 1 as [|self self' row col _ [H3 Hnone] Hmove Hwin _].
  - split; reflexivity.
  - cbn [switch_player board].
    destruct (make_move_accepted_inv self self' row col H3 Hmove)
      as (Hrow & Hcol & Hblank).
    destruct (make_move_accepted self row col H3 Hrow Hcol Hblank)
      as (b' & Hmove' & H3' & _).
    rewrite Hmove in Hmove'. injection Hmove' as ->.
    split; [done|].
    rewrite check_winner_first_filled in Hwin by done. by injection Hwin.
Qed.

(** On the boards [play_game] checks, C2 holds as stated: whichever
    line is filled, [check_winner] returns its mark, and that mark is the
    mark of the player who moved. *)
Lemma check_winner_in_play (self' : TicTacToe) :
  just_moved self' →
  is_3x3 (board self') = true
  ∧ (∀ l m, l ∈ lines → line_mark (board self') l = Some m →
       check_winner self' = Ok (Some m))
  ∧ ((∀ l, l ∈ lines → line_mark (board self') l = None) →
       check_winner self' = Ok None).
Proof.
  intros (self & row & col & Hplay & Hmove).
  destruct (playing_invariant self Hplay) as [H3 Hnone].
  destruct (make_move_accepted_inv self self' row col H3 Hmove)
    as (Hrow & Hcol & Hblank).
  destruct (make_move_accepted self row col H3 Hrow Hcol Hblank)
    as (b' & Hmove' & H3' & _).
  assert (is_3x3 (board self') = true) as H3''.
  { rewrite Hmove in Hmove'. by injection Hmove' as ->. }
  split; [done|]. rewrite (check_winner_first_filled self' H3''). split.
  - intros l m Hl Hm. f_equal. apply (first_filled_one_mark _ l m Hl Hm).
    intros l' m' Hl' Hm'.
    rewrite (move_fills_own_lines self self' row col H3 Hnone Hmove l m Hl Hm).
    by apply (move_fills_own_lines self self' row col H3 Hnone Hmove l').
  - intros Hno. f_equal. by apply first_filled_None.
Qed.

End TicTacToeFacts.

(** ** [NoteTakingApp] *)

Module NotesFacts.

Import PyFacts Games.

(** C8.  [create_note] appends exactly one record to the list; the
    record has exactly the fields id, title, content, category,
    created_at and updated_at; its id is the length of the list before
    the call plus 1; the category joins the category set. *)
Theorem create_note_appends (self : NoteTakingApp)
        (title content category t1 t2 : string) (io_ok : bool)
        (fs : gmap string (list (gmap string jvalue))) :
  ∃ note : gmap string jvalue,
    (create_note self title content category t1 t2 io_ok fs).1
    = {| notes := notes self ++ [note];
         categories := categories self ∪ {[ category ]};
         filename := filename self |}
    ∧ dom note
      = {[ "id"; "title"; "content"; "category"; "created_at"; "updated_at" ]}
    ∧ note !! "id" = Some (JInt (Z.of_nat (length (notes self)) + 1))
    ∧ note !! "title" = Some (JStr title)
    ∧ note !! "content" = Some (JStr content)
    ∧ note !! "category" = Some (JStr category)
    ∧ note !! "created_at" = Some (JStr t1)
    ∧ note !! "updated_at" = Some (JStr t2)
    ∧ category ∈ categories
                   (create_note self title content category t1 t2 io_ok fs).1.
Proof.
  exists (note_literal (Z.of_nat (length (notes self)) + 1)
                       title content category t1 t2).
  split; [reflexivity|]. split.
  { unfold note_literal. rewrite !dom_insert_L, dom_empty_L. set_solver. }
  repeat split; try by simplify_map_eq.
  simpl. apply elem_of_union_r. by apply elem_of_singleton.
Qed.

(** The loops of [delete_note] and [edit_note] stop at the first note
    with the id: the notes before it and after it are left as they
    were, also those after it that carry the same id. *)
Lemma delete_first_stops (pre post : list (gmap string jvalue))
      (note : gmap string jvalue) (note_id : Z) :
  Forall (λ m, ∃ v, m !! "id" = Some v ∧ v ≠ JInt note_id) pre →
  note !! "id" = Some (JInt note_id) →
  delete_first (pre ++ note :: post) note_id = Ok (Some (pre ++ post)).
Proof.
  intros Hpre Hid. induction Hpre as [|m pre (v & Hv & Hne) _ IH]; simpl.
  - unfold dict_getitem. rewrite Hid, bind_Ok.
    by rewrite bool_decide_eq_true_2.
  - unfold dict_getitem at 1. rewrite Hv, bind_Ok.
    rewrite bool_decide_eq_false_2 by done. by rewrite IH.
Qed.

Lemma edit_first_stops (pre post : list (gmap string jvalue))
      (note : gmap string jvalue) (note_id : Z)
      (new_title new_content new_category : option string) (t : string) :
  Forall (λ m, ∃ v, m !! "id" = Some v ∧ v ≠ JInt note_id) pre →
  note !! "id" = Some (JInt note_id) →
  edit_first (pre ++ note :: post) note_id new_title new_content new_category t
  = Ok (Some (pre ++
              <["updated_at" := JStr t]>
                (set_if_truthy "category" new_category
                   (set_if_truthy "content" new_content
                      (set_if_truthy "title" new_title note)))
              :: post)).
Proof.
  intros Hpre Hid. induction Hpre as [|m pre (v & Hv & Hne) _ IH]; simpl.
  - unfold dict_getitem. rewrite Hid, bind_Ok.
    by rewrite bool_decide_eq_true_2.
  - unfold dict_getitem at 1. rewrite Hv, bind_Ok.
    rewrite bool_decide_eq_false_2 by done. by rewrite IH.
Qed.

(** C9.  Ids are not unique.  After creating two notes, deleting the
    first and creating a third, the list holds two notes that both
    carry id 2; [edit_note] with id 2 then changes the first of them
    and leaves the second as it is, and [delete_note] with id 2 removes
    the first of them and keeps the second. *)
Theorem note_ids_not_unique :
  ∃ (app : NoteTakingApp) (n1 n2 : gmap string jvalue),
    three_notes_session = Ok app
    ∧ notes app = [n1; n2]
    ∧ n1 = note_literal 2 "second" "b" "General" "t3" "t4"
    ∧ n2 = note_literal 2 "third" "c" "General" "t5" "t6"
    ∧ n1 !! "id" = Some (JInt 2) ∧ n2 !! "id" = Some (JInt 2)
    ∧ (∀ new_title new_content new_category t io_ok fs,
         ∃ app' fs',
           edit_note app 2 new_title new_content new_category t io_ok fs
           = Ok (app', fs', true)
           ∧ notes app'
             = [ <["updated_at" := JStr t]>
                   (set_if_truthy "category" new_category
                      (set_if_truthy "content" new_content
                         (set_if_truthy "title" new_title n1)));
                 n2 ])
    ∧ (∀ io_ok fs,
         ∃ app' fs',
           delete_note app 2 io_ok fs = Ok (app', fs', true)
           ∧ notes app' = [n2]).
Proof.
  set (n1 := note_literal 2 "second" "b" "General" "t3" "t4").
  set (n2 := note_literal 2 "third" "c" "General" "t5" "t6").
  assert (n1 !! "id" = Some (JInt 2)) as Hid by reflexivity.
  exists {| notes := [n1; n2]; categories := {[ "General" ]};
            filename := "notes.json" |}, n1, n2.
  split; [by vm_compute|]. do 5 (split; [reflexivity|]). split.
  - intros new_title new_content new_category t io_ok fs.
    pose proof (edit_first_stops [] [n2] n1 2 new_title new_content
                  new_category t (Forall_nil_2 _) Hid) as Hedit.
    unfold edit_note. cbn [notes app] in *. rewrite Hedit, bind_Ok.
    by eexists _, _.
  - intros io_ok fs.
    pose proof (delete_first_stops [] [n2] n1 2 (Forall_nil_2 _) Hid) as Hdel.
    unfold delete_note. cbn [notes app] in *. rewrite Hdel, bind_Ok.
    by eexists _, _.
Qed.

End NotesFacts.

(** ** [Task.update_status] *)

Module ProjectsFacts.

Import Projects.

Lemma valid_status_spec (s : string) :
  existsb (String.eqb s) valid_statuses = true ↔ s ∈ valid_statuses.
Proof.
  rewrite existsb_exists. split.
  - intros (x & Hx%list_elem_of_In & ->%String.eqb_eq). done.
  - intros Hs. exists s. split; [by apply list_elem_of_In|].
    apply String.eqb_refl.
Qed.

(** C7.  [update_status] with one of the four valid statuses returns
    [True], sets [status] to it and [updated_at] to the clock; with any
    other string it returns [False] and the task is unchanged.  Either
    way title, description, priority, due_date, created_at and id are
    unchanged. *)
Theorem update_status_spec (self : Task) (new_status : string) (now : Z) :
  valid_statuses = ["pending"; "in_progress"; "completed"; "cancelled"]
  ∧ (new_status ∈ valid_statuses →
     update_status self new_status now
     = ({| title := title self;
           description := description self;
           priority := priority self;
           status := new_status;
           due_date := due_date self;
           created_at := created_at self;
           updated_at := now;
           id := id self |}, true))
  ∧ (new_status ∉ valid_statuses →
     update_status self new_status now = (self, false))
  ∧ title (update_status self new_status now).1 = title self
  ∧ description (update_status self new_status now).1 = description self
  ∧ priority (update_status self new_status now).1 = priority self
  ∧ due_date (update_status self new_status now).1 = due_date self
  ∧ created_at (update_status self new_status now).1 = created_at self
  ∧ id (update_status self new_status now).1 = id self.
Proof.
  split; [reflexivity|]. unfold update_status.
  destruct (existsb (String.eqb new_status) valid_statuses) eqn:Hv.
  - apply valid_status_spec in Hv. repeat split; done.
  - assert (new_status ∉ valid_statuses) as Hn.
    { intros Hin%valid_status_spec. congruence. }
    repeat split; done.
Qed.

End ProjectsFacts.

(** ** Rounding to binary64 *)

Module FloatFacts.

Import ErrorHandling.

Lemma digits2_size (p : positive) : digits2_pos p = Pos.size p.
Proof. induction p; simpl; congruence. Qed.

Lemma digits2_bound (p : positive) : 2 ^ (Zpos (digits2_pos p) - 1) ≤ Zpos p.
Proof.
  rewrite digits2_size. pose proof (Pos.size_le p) as H.
  assert (Zpos (2 ^ Pos.size p) ≤ Zpos p~0) as H' by exact H.
  rewrite Pos2Z.inj_pow in H'.
  replace (Zpos (Pos.size p)) with (Zpos (Pos.size p) - 1 + 1) in H' by lia.
  rewrite Z.pow_add_r in H' by lia. lia.
Qed.

Lemma shr_1_m (mrs : shr_record) :
  0 ≤ shr_m mrs → shr_m (shr_1 mrs) = shr_m mrs / 2.
Proof.
  destruct mrs as [m r s]. simpl. intros Hm.
  rewrite <- Z.div2_div.
  destruct m as [|[p|p|]|p]; try reflexivity; lia.
Qed.

Lemma iter_shr_m (p : positive) (mrs : shr_record) :
  0 ≤ shr_m mrs →
  shr_m (SpecFloat.iter_pos shr_1 p mrs) = shr_m mrs / 2 ^ Zpos p.
Proof.
  revert mrs. induction p as [p IH|p IH|]; intros mrs Hm; simpl SpecFloat.iter_pos.
  - assert (0 ≤ shr_m (shr_1 mrs)) as H1
      by (rewrite shr_1_m by done; apply Z.div_pos; lia).
    assert (0 ≤ shr_m (SpecFloat.iter_pos shr_1 p (shr_1 mrs))) as H2
      by (rewrite IH by done; apply Z.div_pos; lia).
    rewrite IH, IH, shr_1_m by done.
    rewrite !Zdiv.Zdiv_Zdiv by lia. f_equal.
    rewrite <- Z.pow_add_r, <- Z.pow_succ_r by lia. f_equal. lia.
  - assert (0 ≤ shr_m (SpecFloat.iter_pos shr_1 p mrs)) as H2
      by (rewrite IH by done; apply Z.div_pos; lia).
    rewrite IH, IH by done.
    rewrite !Zdiv.Zdiv_Zdiv by lia. f_equal.
    rewrite <- Z.pow_add_r by lia. f_equal. lia.
  - rewrite shr_1_m by done. reflexivity.
Qed.

(** Rounding a positive mantissa whose exponent is not below [emin]
    leaves a positive mantissa, and the exponent not below [emin]. *)
Lemma shr_fexp_pos (m e : Z) (l : location) :
  0 < m → emin prec emax ≤ e →
  0 < shr_m (fst (shr_fexp prec emax m e l))
  ∧ emin prec emax ≤ snd (shr_fexp prec emax m e l).
Proof.
  intros Hm He. unfold shr_fexp, shr.
  destruct m as [|p|p]; try lia. cbn [Zdigits2].
  pose proof (digits2_bound p) as Hd.
  set (d := Zpos (digits2_pos p)) in *.
  assert (∀ l', shr_m (shr_record_of_loc (Zpos p) l') = Zpos p) as Hrec.
  { intros [|[]]; reflexivity. }
  destruct (fexp prec emax (d + e) - e) as [|n|n] eqn:Hn; cbn [fst snd].
  - rewrite Hrec. lia.
  - rewrite iter_shr_m by (rewrite Hrec; lia). rewrite Hrec.
    assert (Zpos n ≤ d - 1) as Hle.
    { unfold fexp, emin, prec, emax in *. lia. }
    split; [|lia].
    apply Z.div_str_pos. split; [apply Z.pow_pos_nonneg; lia|].
    transitivity (2 ^ (d - 1)); [|done].
    apply Z.pow_le_mono_r; lia.
  - rewrite Hrec. lia.
Qed.

Lemma round_nearest_even_pos (m : Z) (l : location) :
  0 < m → 0 < round_nearest_even m l.
Proof.
  intros Hm. destruct l as [|[]]; simpl; try lia.
  destruct (Z.even m); lia.
Qed.

Lemma binary_round_aux_nonzero (s s' : bool) (m e : Z) (l : location) :
  0 < m → emin prec emax ≤ e →
  binary_round_aux prec emax s m e l ≠ S754_zero s'.
Proof.
  intros Hm He. unfold binary_round_aux.
  destruct (shr_fexp_pos m e l Hm He) as [Hm1 He1].
  destruct (shr_fexp prec emax m e l) as [mrs1 e1]. cbn [fst snd] in *.
  pose proof (round_nearest_even_pos _ (loc_of_shr_record mrs1) Hm1) as Hr.
  destruct (shr_fexp_pos _ e1 loc_Exact Hr He1) as [Hm2 _].
  destruct (shr_fexp prec emax _ e1 loc_Exact) as [mrs2 e2]. cbn [fst] in *.
  destruct (shr_m mrs2); try lia.
  destruct (e2 <=? emax - prec); discriminate.
Qed.

Lemma binary_round_nonzero (s s' : bool) (p : positive) :
  binary_round prec emax s p 0 ≠ S754_zero s'.
Proof.
  unfold binary_round, shl_align.
  set (ex := fexp prec emax (Zpos (digits2_pos p) + 0)).
  assert (emin prec emax ≤ ex) by (unfold ex, fexp; lia).
  destruct (ex - 0) eqn:Hex; apply binary_round_aux_nonzero;
    unfold emin, prec, emax in *; lia.
Qed.

Lemma binary_normalize_nonzero (n : Z) (s : bool) :
  n ≠ 0 → binary_normalize prec emax n 0 false ≠ S754_zero s.
Proof.
  intros Hn. destruct n; [done|..]; apply binary_round_nonzero.
Qed.

End FloatFacts.

(** ** [safe_divide] *)

Module ErrorHandlingFacts.

Import PyFacts ErrorHandling FloatFacts.

(** Division by an [int] zero, and of a [float] by any zero, is a
    [ZeroDivisionError]. *)
Lemma truediv_zero (a b : value) :
  is_number a = true → is_number b = true → is_zero b = true →
  truediv a b = Raise ZeroDivisionError
  ∨ (∃ m, a = VInt m ∧ float_of_int m = Raise OverflowError
          ∧ truediv a b = Raise OverflowError).
Proof.
  intros Ha Hb Hz.
  destruct a as [m|x| |]; try discriminate Ha;
    destruct b as [[| |]|[]| |]; try discriminate Hz; simpl.
  - by left.
  - destruct (float_of_int m) as [x|e] eqn:Hm.
    + by left.
    + right. exists m. split; [done|].
      assert (e = OverflowError) as ->; [|done].
      unfold float_of_int in Hm.
      destruct (binary_normalize prec emax m 0 false); congruence.
  - by left.
  - by left.
Qed.

(** [float_of_int] and [int_truediv] raise nothing but what they name. *)
Lemma float_of_int_raises (n : Z) (e : exn) :
  float_of_int n = Raise e → e = OverflowError.
Proof.
  unfold float_of_int.
  destruct (binary_normalize prec emax n 0 false); congruence.
Qed.

Lemma int_truediv_raises (a b : Z) (e : exn) :
  int_truediv a b = Raise e →
  (e = ZeroDivisionError ∧ b = 0) ∨ (e = OverflowError ∧ b ≠ 0).
Proof.
  unfold int_truediv. destruct (Z.eqb_spec b 0) as [->|Hb].
  - intros [= <-]. by left.
  - destruct (a =? 0); [discriminate|].
    destruct (SFdiv_core_binary prec emax (Z.abs a) 0 (Z.abs b) 0) as [[q x] l].
    destruct (binary_round_aux prec emax _ q x l); try discriminate.
    intros [= <-]. by right.
Qed.

Lemma float_truediv_raises (x y : spec_float) (e : exn) :
  float_truediv x y = Raise e →
  e = ZeroDivisionError ∧ is_zero (VFloat y) = true.
Proof. destruct y; simpl; try discriminate. by intros [= <-]. Qed.

(** What [/] can raise on numbers, and when it is the zero divisor. *)
Lemma truediv_raises (a b : value) (e : exn) :
  is_number a = true → is_number b = true →
  truediv a b = Raise e →
  (e = ZeroDivisionError ∧ is_zero b = true) ∨ e = OverflowError.
Proof.
  intros Ha Hb.
  destruct a as [m|x| |]; try discriminate Ha;
    destruct b as [n|y| |]; try discriminate Hb; simpl.
  - destruct (int_truediv m n) as [q|e'] eqn:Hq; [discriminate|].
    intros [= <-]. apply int_truediv_raises in Hq as [[-> ->]|[-> _]]; auto.
  - destruct (float_of_int m) as [x|e'] eqn:Hm.
    + rewrite bind_Ok. destruct (float_truediv x y) as [q|e''] eqn:Hq;
        [discriminate|].
      intros [= <-]. apply float_truediv_raises in Hq as [-> Hz]. auto.
    + intros [= <-]. apply float_of_int_raises in Hm. auto.
  - destruct (float_of_int n) as [y|e'] eqn:Hn.
    + rewrite bind_Ok. destruct (float_truediv x y) as [q|e''] eqn:Hq;
        [discriminate|].
      intros [= <-]. apply float_truediv_raises in Hq as [-> Hz].
      left. split; [done|].
      destruct y as [s| | |]; try discriminate Hz.
      destruct (Z.eq_dec n 0) as [->|Hne]; [reflexivity|].
      exfalso. apply (binary_normalize_nonzero n s Hne).
      unfold float_of_int in Hn.
      destruct (binary_normalize prec emax n 0 false); congruence.
    + intros [= <-]. apply float_of_int_raises in Hn. auto.
  - destruct (float_truediv x y) as [q|e'] eqn:Hq; [discriminate|].
    intros [= <-]. apply float_truediv_raises in Hq as [-> Hz]. auto.
Qed.

(** Whatever the arguments, [/] raises one of three exceptions. *)
Lemma truediv_raises_any (a b : value) (e : exn) :
  truediv a b = Raise e →
  e = ZeroDivisionError ∨ e = TypeError ∨ e = OverflowError.
Proof.
  destruct (is_number a) eqn:Ha; [destruct (is_number b) eqn:Hb|].
  - intros [[-> _]| ->]%truediv_raises; auto.
  - destruct a, b; try discriminate; intros [= <-]; auto.
  - destruct a, b; try discriminate; intros [= <-]; auto.
Qed.

(** For all arguments, no [ZeroDivisionError] and no [TypeError] leaves
    [safe_divide]; what leaves it is the [OverflowError] of [/]. *)
Lemma safe_divide_catches (a b : value) (e : exn) :
  (safe_divide a b).2 = Raise e →
  e = OverflowError ∧ truediv a b = Raise OverflowError.
Proof.
  unfold safe_divide. destruct (truediv a b) as [q|e'] eqn:Hq; [discriminate|].
  apply truediv_raises_any in Hq as [-> | [-> | ->]]; simpl;
    [discriminate..|]. by intros [= <-].
Qed.

(** C5, as the code has it.  For numbers [a] and [b]: no
    [ZeroDivisionError] and no [TypeError] leaves [safe_divide]; and
    when [a / b] does not raise [OverflowError], [safe_divide] returns
    the quotient [a / b], printing nothing, when [b] is not zero, and
    returns [None] after printing the message when [b] is zero. *)
Theorem safe_divide_spec (a b : value) :
  is_number a = true → is_number b = true →
  (safe_divide a b).2 ≠ Raise ZeroDivisionError
  ∧ (safe_divide a b).2 ≠ Raise TypeError
  ∧ (truediv a b ≠ Raise OverflowError →
     (is_zero b = false →
      ∃ q, truediv a b = Ok (VFloat q)
           ∧ safe_divide a b = ([], Ok (VFloat q)))
     ∧ (is_zero b = true →
        safe_divide a b = (["Error: Division by zero!"], Ok VNone))).
Proof.
  intros Ha Hb. split; [|split].
  - by intros [[=] _]%safe_divide_catches.
  - by intros [[=] _]%safe_divide_catches.
  - intros Hover. unfold safe_divide.
    destruct (truediv a b) as [q|e] eqn:Hq.
    + split.
      * intros _. destruct a, b; try discriminate; simpl in Hq;
          repeat match type of Hq with
                 | context [?m ≫= _] => destruct m; simpl in Hq
                 end; simplify_eq; eauto.
      * intros Hz.
        destruct (truediv_zero a b Ha Hb Hz) as [?|(? & _ & _ & ?)];
          congruence.
    + apply truediv_raises in Hq as [[-> Hz]| ->]; [|done..].
      split; [congruence|done].
Qed.

Lemma safe_divide_spec_witness :
  safe_divide (VInt 10) (VInt 2)
  = ([], Ok (VFloat (S754_finite false 5629499534213120 (-50)))).
Proof.
  destruct (safe_divide_spec (VInt 10) (VInt 2) eq_refl eq_refl)
    as (_ & _ & H).
  destruct H as [H _]; [discriminate|].
  destruct (H eq_refl) as (q & Hq & ->).
  vm_compute in Hq. by injection Hq as <-.
Defined.

(** C5 as stated fails: a nonzero divisor does not make [safe_divide]
    return a quotient, and a zero divisor does not make it return
    [None], when an [int] operand is beyond the range of [float]. *)
Lemma safe_divide_overflow_escapes :
  ¬ (∀ a b, is_number a = true → is_number b = true →
       (is_zero b = false → ∃ q, (safe_divide a b).2 = Ok (VFloat q))
       ∧ (is_zero b = true → (safe_divide a b).2 = Ok VNone)).
Proof.
  intros H.
  destruct (H (VInt (10 ^ 400)) (VInt 1) eq_refl eq_refl) as [Hq _].
  destruct (Hq eq_refl) as [q Hbad].
  vm_compute in Hbad. discriminate Hbad.
Qed.

(** The same with a zero divisor: [10**400 / 0.0]. *)
Lemma safe_divide_overflow_before_zero :
  safe_divide (VInt (10 ^ 400)) (VFloat (S754_zero false))
  = ([], Raise OverflowError).
Proof. by vm_compute. Qed.

End ErrorHandlingFacts.

(** ** [transaction_example] *)

Module DatabaseFacts.

Import PyFacts Database.

(** Every prefix of a fault schedule, up to the six statements of the
    [try] block. *)
Ltac schedule fs :=
  let f := fresh "f" in
  destruct fs as [|f fs]; [|destruct f];
  [ | | destruct fs as [|f fs]; [|destruct f];
        [ | | destruct fs as [|f fs]; [|destruct f];
              [ | | destruct fs as [|f fs]; [|destruct f];
                    [ | | destruct fs as [|f fs]; [|destruct f];
                          [ | | destruct fs as [|f fs]; [|destruct f] ] ] ] ] ].

(** The [try] statement run on a table with the two rows, by cases on
    the schedule. *)
Lemma transfer_outcome (fs : list bool) (o : list event) (i j : Z)
      (a b : spec_float) :
  let rows := [ {| id := i; name := "Alice"; balance := a |};
                {| id := j; name := "Bob"; balance := b |} ] in
  let w := {| file := rows; txn := None; faults := fs; out := o |} in
  (transfer w).1 = Ok tt
  ∧ txn (transfer w).2 = None
  ∧ file (transfer w).2
    = if fault_free 5 fs && negb (SFltb (minus_200 a) (real 0))
      then [ {| id := i; name := "Alice"; balance := minus_200 a |};
             {| id := j; name := "Bob"; balance := plus_200 b |} ]
      else rows.
Proof.
  schedule fs;
    cbv -[minus_200 plus_200 real SFltb];
    try (destruct (SFltb (minus_200 a) (real 0)));
    repeat split.
Qed.

(** C6.  The transfer on a table that holds Alice with balance [a] and
    Bob with balance [b], no transaction being open, under any schedule
    of faults: the [try] statement ends normally with no transaction
    open, and the table holds either both updates (committed: this
    happens when none of BEGIN, the two UPDATEs, the SELECT and the
    COMMIT fails and Alice's new balance is not negative) or exactly the
    rows it held before (rolled back: on a negative new balance, and on
    a [sqlite3.Error] in any of those five statements).  A
    [sqlite3.Error] in the sixth statement of the [try], the SELECT that
    reports the final balances, comes after the COMMIT and leaves both
    updates in the table. *)
Theorem transfer_atomic (w : world) (i j : Z) (a b : spec_float) :
  txn w = None →
  file w = [ {| id := i; name := "Alice"; balance := a |};
             {| id := j; name := "Bob"; balance := b |} ] →
  (transfer w).1 = Ok tt
  ∧ txn (transfer w).2 = None
  ∧ file (transfer w).2
    = if fault_free 5 (faults w) && negb (SFltb (minus_200 a) (real 0))
      then [ {| id := i; name := "Alice"; balance := minus_200 a |};
             {| id := j; name := "Bob"; balance := plus_200 b |} ]
      else file w.
Proof.
  destruct w as [rows t fs o]. cbn [txn file faults]. intros -> ->.
  apply transfer_outcome.
Qed.

(** The transfer as [transaction_example] runs it, with no fault:
    Alice goes from 1000.0 to 800.0 and Bob from 500.0 to 700.0. *)
Lemma transfer_atomic_witness :
  file (transfer {| file := initial_accounts; txn := None;
                    faults := []; out := [] |}).2
  = [ {| id := 1; name := "Alice"; balance := real 800 |};
      {| id := 2; name := "Bob"; balance := real 700 |} ].
Proof.
  destruct (transfer_atomic
              {| file := initial_accounts; txn := None;
                 faults := []; out := [] |}
              1 2 (real 1000) (real 500) eq_refl eq_refl) as (_ & _ & H).
  rewrite H. reflexivity.
Defined.

(** C6 as stated fails: a caught [sqlite3.Error] does not mean that
    the balances are as they were.  When the SELECT that reports the
    final balances fails, the handler runs (it rolls back and prints the
    failure) after the COMMIT, and the table holds both updates. *)
Lemma transfer_error_not_rolled_back :
  ¬ (∀ (w : world) (i j : Z) (a b : spec_float),
       txn w = None →
       file w = [ {| id := i; name := "Alice"; balance := a |};
                  {| id := j; name := "Bob"; balance := b |} ] →
       PrintFailed ∉ out w →
       PrintFailed ∈ out (transfer w).2 →
       file (transfer w).2 = file w).
Proof.
  intros H.
  specialize (H {| file := initial_accounts; txn := None;
                   faults := [false; false; false; false; false; true];
                   out := [] |}
                1 2 (real 1000) (real 500) eq_refl eq_refl).
  assert (file (transfer {| file := initial_accounts; txn := None;
                            faults := [false; false; false; false; false; true];
                            out := [] |}).2
          = initial_accounts) as Hbad.
  { apply H; [apply not_elem_of_nil|].
    apply (list_elem_of_lookup_2 _ 2%nat). reflexivity. }
  vm_compute in Hbad. discriminate Hbad.
Qed.

(** Printing the rows touches neither the table nor the schedule. *)
Lemma print_accounts_frame (rows : list account) (w : world) :
  (print_accounts rows w).1 = Ok tt
  ∧ file (print_accounts rows w).2 = file w
  ∧ txn (print_accounts rows w).2 = txn w
  ∧ faults (print_accounts rows w).2 = faults w.
Proof.
  revert w. induction rows as [|r rows IH]; intros w; [done|].
  cbn [print_accounts]. unfold mbind, db_bind, print.
  apply (IH {| file := file w; txn := txn w; faults := faults w;
               out := out w ++ [PrintAccount (name r) (balance r)] |}).
Qed.

(** On any table, and also when the [try] statement is left by the
    [TypeError] of a missing row: the file holds both updates or
    exactly what it held before. *)
Lemma transfer_all_or_nothing (w : world) :
  txn w = None →
  file (transfer w).2 = file w
  ∨ file (transfer w).2
    = update "Bob" plus_200 (update "Alice" minus_200 (file w)).
Proof.
  destruct w as [rows t fs o]. cbn [txn file]. intros ->.
  schedule fs;
    cbv -[update where_name minus_200 plus_200 real SFltb print_accounts];
    try (destruct (where_name _ _) as [|r ?];
         cbv -[update where_name minus_200 plus_200 real SFltb print_accounts]);
    try (destruct (SFltb _ _));
    try match goal with
        | |- context [print_accounts ?rs ?w0] =>
            destruct (print_accounts_frame rs w0) as (Hr & Hf & _);
            destruct (print_accounts rs w0) as [[[]|e] [f1 t1 fs1 o1]];
            cbn [fst snd file] in *; [|discriminate Hr]; subst f1
        end;
    auto.
Qed.

(** A fault in the SELECT that reports the final balances comes after
    the COMMIT: the handler's rollback has nothing to undo, and both
    updates stay. *)
Lemma transfer_fault_after_commit (o : list event) (fs : list bool) :
  file (transfer {| file := initial_accounts; txn := None;
                    faults := [false; false; false; false; false; true] ++ fs;
                    out := o |}).2
  = [ {| id := 1; name := "Alice"; balance := real 800 |};
      {| id := 2; name := "Bob"; balance := real 700 |} ].
Proof. reflexivity. Qed.

(** [setup] without a fault leaves Alice with 1000.0 and Bob with
    500.0, committed, whatever the file held. *)
Lemma setup_commits (w : world) :
  txn w = None → fault_free 6 (faults w) = true →
  (setup w).1 = Ok tt
  ∧ file (setup w).2 = initial_accounts
  ∧ txn (setup w).2 = None
  ∧ faults (setup w).2 = drop 6 (faults w).
Proof.
  destruct w as [rows t fs o]. cbn [txn faults]. intros -> Hfs.
  schedule fs; try discriminate Hfs; repeat split.
Qed.

(** [transaction_example] as a whole, when the statements before the
    [try] do not fail: it returns, and the file holds 800.0 and 700.0
    when none of the five statements of the transaction fails, 1000.0
    and 500.0 otherwise. *)
Lemma transaction_example_atomic (w : world) :
  txn w = None → fault_free 6 (faults w) = true →
  (transaction_example w).1 = Ok tt
  ∧ txn (transaction_example w).2 = None
  ∧ file (transaction_example w).2
    = if fault_free 5 (drop 6 (faults w))
      then [ {| id := 1; name := "Alice"; balance := real 800 |};
             {| id := 2; name := "Bob"; balance := real 700 |} ]
      else initial_accounts.
Proof.
  intros Ht Hfs.
  destruct (setup_commits w Ht Hfs) as (Hok & Hfile & Htxn & Hfaults).
  unfold transaction_example, mbind, db_bind.
  destruct (setup w) as [[[]|e] w1]; [|discriminate Hok].
  cbn [snd] in *.
  destruct w1 as [rows1 t1 fs1 o1]. cbn [file txn faults] in *. subst rows1 t1.
  destruct (transfer_outcome fs1 o1 1 2 (real 1000) (real 500))
    as (Hok' & Htxn' & Hfile').
  fold initial_accounts in Hok', Htxn', Hfile'.
  set (w1 := {| file := initial_accounts; txn := None; faults := fs1;
                out := o1 |}) in *.
  destruct (transfer w1) as [[[]|e] w2]; [|discriminate Hok'].
  cbn [fst snd] in *. unfold close. cbn [fst snd set_txn txn file].
  split; [done|]. split; [done|].
  rewrite Hfile', Hfaults.
  by destruct (fault_free 5 (drop 6 (faults w))).
Qed.

End DatabaseFacts.

(** * Properties of the further functions *)

(** ** [HangmanGame.display_word], [is_game_won] *)

Module HangmanMoreFacts.

Import PyFacts Utility UtilityFacts Games GamesMore HangmanFacts.

Lemma append_assoc (a b c : string) :
  ((a ++ b) ++ c)%string = (a ++ (b ++ c))%string.
Proof.
  induction a as [|x a IH]; [reflexivity|]. by rewrite !append_cons, IH.
Qed.

Lemma display_loop_trailed (guessed : gset string) (word display : string) :
  display_loop guessed word display
  = (display ++ trailed (shown guessed <$> list_ascii_of_string word))%string.
Proof.
  revert display. induction word as [|c rest IH]; intros display.
  - simpl. by rewrite append_empty.
  - cbn [display_loop list_ascii_of_string fmap list_fmap trailed].
    rewrite IH, append_assoc. f_equal.
    unfold shown. by destruct (bool_decide _).
Qed.

Lemma rstrip_cons_space (c : ascii) (s : string) :
  isspace c = false →
  rstrip (String c (String " " s))
  = match rstrip s with
    | EmptyString => String c EmptyString
    | s' => String c (String " " s')
    end.
Proof.
  intros Hc. cbn [rstrip]. destruct (rstrip s); [|reflexivity].
  change (isspace " ") with true. cbv iota. by rewrite Hc.
Qed.

Lemma rstrip_trailed (l : list ascii) :
  Forall (λ c, isspace c = false) l → rstrip (trailed l) = spaced l.
Proof.
  induction 1 as [|c rest Hc Hrest IH]; [reflexivity|].
  cbn [trailed]. rewrite (rstrip_cons_space c _ Hc), IH.
  by destruct rest as [|d [|e rest]].
Qed.

Lemma lstrip_trailed (l : list ascii) :
  Forall (λ c, isspace c = false) l → lstrip (trailed l) = trailed l.
Proof. destruct 1 as [|c rest Hc _]; [reflexivity|]. cbn. by rewrite Hc. Qed.

Lemma shown_not_space (guessed : gset string) (word : string) :
  all_chars (λ c, negb (isspace c)) word = true →
  Forall (λ c, isspace c = false) (shown guessed <$> list_ascii_of_string word).
Proof.
  induction word as [|c rest IH]; simpl; [constructor|].
  intros [Hc Hrest]%andb_true_iff. constructor; [|by apply IH].
  unfold shown. destruct (bool_decide _); [|reflexivity].
  by destruct (isspace c).
Qed.

(** X1.  For a word without white space, [display_word] is the word
    with every letter that is not guessed replaced by an underscore, the
    symbols separated by single spaces, with no space at either end. *)
Theorem display_word_spaced (self : HangmanGame) :
  all_chars (λ c, negb (isspace c)) (word self) = true →
  display_word self
  = spaced (shown (guessed_letters self) <$> list_ascii_of_string (word self)).
Proof.
  intros Hword. unfold display_word, strip.
  rewrite display_loop_trailed.
  change (EmptyString ++ ?s)%string with s.
  pose proof (shown_not_space (guessed_letters self) (word self) Hword) as Hs.
  by rewrite lstrip_trailed, rstrip_trailed.
Qed.

Lemma display_word_spaced_witness :
  display_word (make_guess (make_guess {| words := []; word := "list";
                                          guessed_letters := ∅;
                                          wrong_guesses := 0;
                                          max_wrong_guesses := 6 |} "s").1 "l").1
  = "l _ s _".
Proof.
  rewrite display_word_spaced by reflexivity. by vm_compute.
Defined.

(** [is_game_won] says that every letter of the word is guessed. *)
Lemma is_game_won_spec (self : HangmanGame) :
  is_game_won self = true ↔
  ∀ c, c ∈ list_ascii_of_string (word self) →
       String c EmptyString ∈ guessed_letters self.
Proof.
  unfold is_game_won. rewrite forallb_forall. split.
  - intros H c Hc%list_elem_of_In. specialize (H c Hc).
    by apply bool_decide_eq_true in H.
  - intros H c Hc%list_elem_of_In. apply bool_decide_eq_true_2. by apply H.
Qed.

(** X2.  After [select_random_word] and any sequence of [make_guess]
    calls, [is_game_won] holds exactly when every letter of the word is
    the lowercase of one of the guesses. *)
Theorem is_game_won_after_guesses (draw : nat) (letters : list string) :
  ∃ g0, select_random_word hangman_init draw = Ok g0
    ∧ (is_game_won (run_guesses g0 letters) = true ↔
       ∀ c, c ∈ list_ascii_of_string (word g0) →
            String c EmptyString ∈ lower <$> letters).
Proof.
  destruct (select_random_word_returns hangman_init draw) as (w & Hw & Hsel);
    [done|].
  eexists. split; [exact Hsel|].
  match goal with |- context [run_guesses ?g _] => set (g0 := g) end.
  destruct (run_guesses_frame g0 letters) as (Hword & _ & Hguessed).
  rewrite is_game_won_spec, Hword, Hguessed. cbn [guessed_letters g0].
  rewrite (left_id_L ∅ (∪)).
  split; intros H c Hc; specialize (H c Hc).
  - by apply elem_of_list_to_set in H.
  - by apply elem_of_list_to_set.
Qed.

End HangmanMoreFacts.

(** ** [TicTacToe.is_board_full], [switch_player], [play_game] *)

Module TicTacToeMoreFacts.

Import PyFacts Games GamesMore TicTacToeFacts.

(** An accepted move puts one mark of the player in place of one
    blank. *)
Lemma make_move_counts (self self' : TicTacToe) (row col : Z) (m : string) :
  is_3x3 (board self) = true →
  make_move self row col = Ok (self', true) →
  (count_mark m (board self') + (if String.eqb " " m then 1 else 0)
   = count_mark m (board self)
     + (if String.eqb (current_player self) m then 1 else 0))%nat.
Proof.
  intros H3 Hmove.
  destruct (make_move_accepted_inv self self' row col H3 Hmove)
    as (Hrow & Hcol & Hblank).
  destruct self as [b p g]. cbn [board current_player] in *.
  apply is_3x3_cells in H3
    as (a0 & a1 & a2 & b0 & b1 & b2 & c0 & c1 & c2 & ->).
  assert (row = 0 ∨ row = 1 ∨ row = 2) as [-> | [-> | ->]] by lia;
    (assert (col = 0 ∨ col = 1 ∨ col = 2) as [-> | [-> | ->]] by lia);
    injection Hblank as ->; injection Hmove as <-;
    cbn [board count_mark concat app sum_list_with]; lia.
Qed.

(** A move is refused, with the state as it was, or accepted. *)
Lemma make_move_cases (self : TicTacToe) (row col : Z) :
  is_3x3 (board self) = true →
  make_move self row col = Ok (self, false)
  ∨ ∃ b', make_move self row col
          = Ok ({| board := b'; current_player := current_player self;
                   game_over := game_over self |}, true)
          ∧ is_3x3 b' = true.
Proof.
  intros H3.
  destruct (decide (0 ≤ row < 3 ∧ 0 ≤ col < 3)) as [[Hr Hc]|Hout].
  - destruct (cell (board self) row col) as [c|e] eqn:Hcell.
    + destruct (String.eqb_spec c " ") as [->|Hne].
      * destruct (make_move_accepted self row col H3 Hr Hc Hcell)
          as (b' & Hmove & H3' & _).
        right. eauto.
      * left. apply make_move_refused; [done|].
        rewrite Hcell. by intros (_ & _ & [= ?]).
    + left. apply make_move_refused; [done|].
      rewrite Hcell. by intros (_ & _ & [=]).
  - left. apply make_move_refused; [done|tauto].
Qed.

Lemma play_invariant_init : play_invariant tictactoe_init.
Proof. repeat split. left. by split. Qed.

(** One round keeps the invariant. *)
Lemma play_round_invariant (s : TicTacToe) (row col : Z) :
  play_invariant s → game_over s = false →
  ∃ s', play_round s row col = Ok s' ∧ play_invariant s'.
Proof.
  intros (H3 & Hsum & Hrest) Hover. rewrite Hover in Hrest.
  destruct Hrest as (Hturn & Hnone & Hfull).
  unfold play_round.
  destruct (make_move_cases s row col H3) as [Hmove|(b' & Hmove & H3')];
    rewrite Hmove, bind_Ok; cbv beta iota.
  { exists s. split; [done|]. unfold play_invariant. by rewrite Hover. }
  set (s1 := {| board := b'; current_player := current_player s;
                game_over := game_over s |}) in *.
  pose proof (make_move_counts s s1 row col "X" H3 Hmove) as HX.
  pose proof (make_move_counts s s1 row col "O" H3 Hmove) as HO.
  pose proof (make_move_counts s s1 row col " " H3 Hmove) as HB.
  change (" " =? "X")%string with false in HX.
  change (" " =? "O")%string with false in HO.
  change (" " =? " ")%string with true in HB.
  rewrite (check_winner_first_filled s1 H3'), bind_Ok.
  cbn [board s1] in *.
  destruct (first_filled b') as [m|] eqn:Hfirst.
  - destruct (first_filled_Some _ _ Hfirst) as (l & Hl & Hm).
    pose proof (move_fills_own_lines s s1 row col H3 Hnone Hmove l m Hl Hm)
      as ->.
    assert (winner_truthy (Some (current_player s)) = true) as ->
      by (by destruct Hturn as [[-> _]|[-> _]]).
    eexists. split; [reflexivity|].
    unfold play_invariant. cbn [board current_player game_over s1].
    rewrite Hfirst. split; [done|].
    destruct Hturn as [[Hp Hc]|[Hp Hc]]; rewrite Hp in *; cbn in HX, HO, HB;
      (split; [lia|]); (split; [|by left]); [left|right]; split; (done || lia).
  - cbn [winner_truthy]. cbv iota.
    destruct (is_board_full s1) eqn:Hfull'.
    + eexists. split; [reflexivity|].
      unfold play_invariant. cbn [board current_player game_over s1].
      rewrite Hfirst.
      change (is_board_full _) with (is_board_full s1). rewrite Hfull'.
      split; [done|].
      destruct Hturn as [[Hp Hc]|[Hp Hc]]; rewrite Hp in *; cbn in HX, HO, HB;
        (split; [lia|]); (split; [|by right]); [left|right]; split;
        (done || lia).
    + eexists. split; [reflexivity|].
      unfold play_invariant, switch_player.
      cbn [board current_player game_over s1]. rewrite Hover, Hfirst.
      change (is_board_full _) with (is_board_full s1). rewrite Hfull'.
      split; [done|].
      destruct Hturn as [[Hp Hc]|[Hp Hc]]; rewrite Hp in *; cbn in HX, HO, HB;
        (split; [lia|]); (split; [|done]); [right|left]; split;
        (done || lia).
Qed.

Lemma play_game_invariant (s : TicTacToe) (inputs : list (Z * Z)) :
  play_invariant s → ∃ s', play_game s inputs = Ok s' ∧ play_invariant s'.
Proof.
  revert s. induction inputs as [|[row col] rest IH]; intros s Hs.
  - by exists s.
  - cbn [play_game]. destruct (game_over s) eqn:Hover.
    + by exists s.
    + destruct (play_round_invariant s row col Hs Hover) as (s1 & -> & Hs1).
      rewrite bind_Ok. by apply IH.
Qed.

(** X3.  Whatever pairs the players enter, [play_game] does not raise;
    the board stays 3x3 with nine cells that are X, O or blank; and while
    the game is not over the players alternate: X is to move when there
    are as many X as O, O when there is one X more. *)
Theorem play_game_alternates (inputs : list (Z * Z)) :
  ∃ s, play_game tictactoe_init inputs = Ok s
    ∧ is_3x3 (board s) = true
    ∧ (count_mark "X" (board s) + count_mark "O" (board s)
       + count_mark " " (board s) = 9)%nat
    ∧ (game_over s = false →
       (current_player s = "X"
        ∧ count_mark "X" (board s) = count_mark "O" (board s))
       ∨ (current_player s = "O"
          ∧ count_mark "X" (board s) = S (count_mark "O" (board s)))).
Proof.
  destruct (play_game_invariant tictactoe_init inputs play_invariant_init)
    as (s & Hplay & H3 & Hsum & Hrest).
  exists s. repeat (split; [done|]). intros Hover. rewrite Hover in Hrest.
  by destruct Hrest.
Qed.

(** X4.  [play_game] sets [game_over] exactly when the move just made
    filled a line or the last blank: when it is set, [check_winner]
    returns the mark of the player who moved last (the players are not
    switched after the last move), or it returns [None] and the board is
    full; while it is not set there is no winner and a blank is left. *)
Theorem play_game_over (inputs : list (Z * Z)) :
  ∃ s, play_game tictactoe_init inputs = Ok s
    ∧ (game_over s = true →
       check_winner s = Ok (Some (current_player s))
       ∨ (check_winner s = Ok None ∧ is_board_full s = true))
    ∧ (game_over s = false →
       check_winner s = Ok None ∧ is_board_full s = false).
Proof.
  destruct (play_game_invariant tictactoe_init inputs play_invariant_init)
    as (s & Hplay & H3 & Hsum & Hrest).
  exists s. split; [done|].
  rewrite (check_winner_first_filled s H3).
  split; intros Hover; rewrite Hover in Hrest.
  - destruct Hrest as (_ & [->|[-> ?]]); auto.
  - by destruct Hrest as (_ & -> & ?).
Qed.

(** X5.  On a 3x3 board [is_board_full] holds exactly when [make_move]
    refuses every pair of integers. *)
Theorem board_full_refuses (self : TicTacToe) :
  is_3x3 (board self) = true →
  is_board_full self = true ↔
  ∀ row col, make_move self row col = Ok (self, false).
Proof.
  intros H3. split.
  - intros Hfull row col. apply make_move_refused; [done|].
    intros (Hrow & Hcol & Hblank).
    destruct self as [b p g]. cbn [board] in *.
    apply is_3x3_cells in H3
      as (a0 & a1 & a2 & b0 & b1 & b2 & c0 & c1 & c2 & ->).
    assert (row = 0 ∨ row = 1 ∨ row = 2) as [-> | [-> | ->]] by lia;
      (assert (col = 0 ∨ col = 1 ∨ col = 2) as [-> | [-> | ->]] by lia);
      injection Hblank as ->; cbn in Hfull;
      rewrite ?andb_true_iff in Hfull; intuition discriminate.
  - intros Hrefuse.
    destruct self as [b p g]. cbn [board] in *.
    apply is_3x3_cells in H3
      as (a0 & a1 & a2 & b0 & b1 & b2 & c0 & c1 & c2 & ->).
    unfold is_board_full. cbn [board forallb].
    repeat match goal with
           | |- context [String.eqb ?x " "] =>
               destruct (String.eqb_spec x " ") as [->|?]
           end;
      try reflexivity; exfalso.
    all: match goal with
         | |- _ =>
             first
               [ pose proof (Hrefuse 0 0) as H; by vm_compute in H
               | pose proof (Hrefuse 0 1) as H; by vm_compute in H
               | pose proof (Hrefuse 0 2) as H; by vm_compute in H
               | pose proof (Hrefuse 1 0) as H; by vm_compute in H
               | pose proof (Hrefuse 1 1) as H; by vm_compute in H
               | pose proof (Hrefuse 1 2) as H; by vm_compute in H
               | pose proof (Hrefuse 2 0) as H; by vm_compute in H
               | pose proof (Hrefuse 2 1) as H; by vm_compute in H
               | pose proof (Hrefuse 2 2) as H; by vm_compute in H ]
         end.
Qed.

Lemma board_full_refuses_witness :
  is_board_full tictactoe_init = false
  ∧ ¬ ∀ row col, make_move tictactoe_init row col = Ok (tictactoe_init, false).
Proof.
  destruct (board_full_refuses tictactoe_init eq_refl) as [_ Hback].
  split; [reflexivity|]. intros H. by specialize (Hback H).
Defined.

End TicTacToeMoreFacts.

(** * The quiz *)

Module QuizFacts.

Import PyFacts Games GamesMore.

Lemma list_getitem_lookup {A : Type} (l : list A) (i : nat) (x : A) :
  l !! i = Some x → list_getitem l (Z.of_nat i) = Ok x.
Proof.
  intros Hx. unfold list_getitem.
  rewrite norm_index_in_range, bind_Ok, Nat2Z.id, Hx; [done|].
  apply lookup_lt_Some in Hx. lia.
Qed.

Lemma list_getitem_returns {A : Type} (l : list A) (i : Z) :
  - Z.of_nat (length l) ≤ i < Z.of_nat (length l) →
  ∃ x, list_getitem l i = Ok x.
Proof.
  intros Hi. unfold list_getitem, norm_index.
  set (j := if i <? 0 then i + Z.of_nat (length l) else i).
  assert (0 ≤ j < Z.of_nat (length l)) as Hj
    by (subst j; destruct (Z.ltb_spec i 0); lia).
  destruct (Z.ltb_spec j 0); [lia|].
  destruct (Z.leb_spec (Z.of_nat (length l)) j); [lia|].
  cbn [orb]. rewrite bind_Ok.
  destruct (lookup_lt_is_Some_2 l (Z.to_nat j)) as [x Hx]; [lia|].
  exists x. by rewrite Hx.
Qed.

Lemma list_getitem_raises {A : Type} (l : list A) (i : Z) :
  i < - Z.of_nat (length l) ∨ Z.of_nat (length l) ≤ i →
  list_getitem l i = Raise IndexError.
Proof.
  intros Hi. unfold list_getitem, norm_index.
  set (j := if i <? 0 then i + Z.of_nat (length l) else i).
  assert (j < 0 ∨ Z.of_nat (length l) ≤ j) as Hj
    by (subst j; destruct (Z.ltb_spec i 0); lia).
  destruct (Z.ltb_spec j 0); [done|].
  destruct (Z.leb_spec (Z.of_nat (length l)) j); [done|lia].
Qed.

Lemma display_question_shown (self : QuizApp) (i : nat) :
  (i < length (questions self))%nat →
  display_question self (Z.of_nat i) = Ok true.
Proof.
  intros Hi. unfold display_question.
  destruct (Z.geb_spec (Z.of_nat i) (Z.of_nat (length (questions self))));
    [lia|].
  destruct (lookup_lt_is_Some_2 (questions self) i Hi) as [q Hq].
  by rewrite (list_getitem_lookup _ _ _ Hq).
Qed.

(** One call of [check_answer] on a question whose correct index can be
    shown. *)
Lemma check_answer_scores (self : QuizApp) (i : nat) (q : Question) (a : Z) :
  questions self !! i = Some q →
  indexable q →
  check_answer self (Z.of_nat i) a
  = Ok ({| questions := questions self;
           score := score self + (if a =? correct q + 1 then 1 else 0);
           current_question := current_question self |},
        a =? correct q + 1).
Proof.
  intros Hq Hidx. unfold check_answer.
  destruct (Z.geb_spec (Z.of_nat i) (Z.of_nat (length (questions self))))
    as [Hge|_]; [apply lookup_lt_Some in Hq; lia|].
  rewrite (list_getitem_lookup _ _ _ Hq), bind_Ok.
  destruct (a =? correct q + 1) eqn:Ha.
  - by rewrite bind_Ok.
  - destruct (list_getitem_returns (options q) (correct q) Hidx) as [o Ho].
    rewrite Ho, !bind_Ok, Z.add_0_r. by destruct self.
Qed.

(** The inner loop stops at the first accepted answer. *)
Lemma ask_accepted (self : QuizApp) (i : Z) (inputs : list (option Z)) :
  match accepted inputs with
  | [] => ask self i inputs = Throw EOFError
  | a :: answers =>
      ∃ rest, accepted rest = answers
              ∧ ask self i inputs
                = (r ← lift (check_answer self i a); Return (r.1, rest))
  end.
Proof.
  induction inputs as [|[answer|] inputs IH]; cbn [accepted ask]; [done| |done].
  destruct ((1 <=? answer) && (answer <=? 4)); [|done].
  by exists inputs.
Qed.

Lemma ask_all_graded (m : nat) :
  ∀ (k : nat) (self : QuizApp) (inputs : list (option Z)),
    Forall indexable (questions self) →
    (k + m = length (questions self))%nat →
    ((m ≤ length (accepted inputs))%nat →
     ∃ rest,
       ask_all self (seqZ (Z.of_nat k) (Z.of_nat m)) inputs
       = Return ({| questions := questions self;
                    score := score self
                             + graded (drop k (questions self)) (accepted inputs);
                    current_question := current_question self |}, rest))
    ∧ ((length (accepted inputs) < m)%nat →
       ask_all self (seqZ (Z.of_nat k) (Z.of_nat m)) inputs = Throw EOFError).
Proof.
  induction m as [|m IH]; intros k self inputs Hidx Hk.
  - split; [|lia]. intros _. exists inputs. cbn.
    rewrite drop_ge by lia. cbn. rewrite Z.add_0_r. by destruct self.
  - rewrite seqZ_cons by lia.
    replace (Z.succ (Z.of_nat k)) with (Z.of_nat (S k)) by lia.
    replace (Z.pred (Z.of_nat (S m))) with (Z.of_nat m) by lia.
    cbn [ask_all]. rewrite display_question_shown by lia. cbn.
    destruct (lookup_lt_is_Some_2 (questions self) k) as [q Hq]; [lia|].
    assert (indexable q) as Hq'.
    { rewrite Forall_forall in Hidx. apply Hidx.
      by eapply list_elem_of_lookup_2. }
    pose proof (ask_accepted self (Z.of_nat k) inputs) as Hask.
    destruct (accepted inputs) as [|a answers] eqn:Hacc.
    + rewrite Hask. split; [cbn; lia|done].
    + destruct Hask as (rest & Hrest & ->).
      rewrite (check_answer_scores self k q a Hq Hq'). cbn.
      set (self' := {| questions := questions self;
                       score := score self
                                + (if a =? correct q + 1 then 1 else 0);
                       current_question := current_question self |}).
      destruct (IH (S k) self' rest) as [Hdone Hshort]; [done|cbn; lia|].
      rewrite Hrest in Hdone, Hshort. cbn [questions score current_question self']
        in Hdone, Hshort.
      split.
      * intros Hlen. destruct Hdone as [rest' ->]; [cbn in Hlen; lia|].
        exists rest'. rewrite (drop_S _ _ _ Hq). cbn [graded].
        do 3 f_equal. lia.
      * intros Hlen. apply Hshort. cbn in Hlen. lia.
Qed.

(** X6. [run_quiz] on a quiz whose questions can all show their correct
    option: the lines of input that read as a number from 1 to 4 are the
    accepted answers, the k-th of them answers the k-th question; with at
    least as many accepted answers as questions the loop ends with the
    score equal to the number of questions answered with correct + 1 (the
    score of an earlier run is forgotten), and with fewer the [input] call
    raises [EOFError]. *)
Theorem run_quiz_score (self : QuizApp) (inputs : list (option Z)) :
  Forall indexable (questions self) →
  ((length (questions self) ≤ length (accepted inputs))%nat →
   ∃ rest,
     run_quiz self inputs
     = Return ({| questions := questions self;
                  score := graded (questions self) (accepted inputs);
                  current_question := 0 |}, rest))
  ∧ ((length (accepted inputs) < length (questions self))%nat →
     run_quiz self inputs = Throw EOFError).
Proof.
  intros Hidx. unfold run_quiz.
  set (self0 := {| questions := questions self; score := 0;
                   current_question := 0 |}).
  destruct (ask_all_graded (length (questions self)) 0 self0 inputs)
    as [Hdone Hshort]; [done|done|].
  split; [intros Hlen; destruct (Hdone Hlen) as [rest Hrest]; by exists rest|].
  exact Hshort.
Qed.

Lemma run_quiz_score_witness :
  ∃ rest,
    run_quiz quiz_init [Some 3; None; Some 7; Some 1; Some 3; Some 3; Some 2;
                        Some 4]
    = Return ({| questions := sample_questions; score := 4;
                 current_question := 0 |}, rest).
Proof.
  refine (proj1 (run_quiz_score quiz_init
                   [Some 3; None; Some 7; Some 1; Some 3; Some 3; Some 2;
                    Some 4] _) _).
  - repeat constructor; unfold indexable; cbn; lia.
  - cbn. lia.
Defined.

(** X7. [add_question] does not check the correct index against the
    options: for a question added with an index that is no position of its
    options, [check_answer] raises [IndexError] on every answer other than
    index + 1 (the message for a wrong answer subscripts the options), and
    counts the answer index + 1 as correct. *)
Theorem add_question_unchecked (self : QuizApp) (text : string)
        (opts : list string) (k : Z) (expl : string) (a : Z) :
  k < - Z.of_nat (length opts) ∨ Z.of_nat (length opts) ≤ k →
  check_answer (add_question self text opts k expl)
               (Z.of_nat (length (questions self))) a
  = if a =? k + 1 then
      Ok ({| questions := questions (add_question self text opts k expl);
             score := score self + 1;
             current_question := current_question self |}, true)
    else Raise IndexError.
Proof.
  intros Hk. unfold check_answer.
  set (q := {| question := text; options := opts; correct := k;
               explanation := expl |}).
  assert (questions (add_question self text opts k expl)
                    !! length (questions self) = Some q) as Hq.
  { cbn. by rewrite lookup_app_r, Nat.sub_diag by lia. }
  destruct (Z.geb_spec (Z.of_nat (length (questions self)))
              (Z.of_nat (length (questions (add_question self text opts k expl)))))
    as [Hge|_]; [apply lookup_lt_Some in Hq; lia|].
  rewrite (list_getitem_lookup _ _ _ Hq), bind_Ok.
  cbn [correct options q].
  destruct (a =? k + 1); [done|].
  by rewrite (list_getitem_raises opts k Hk).
Qed.

Lemma add_question_unchecked_witness :
  check_answer (add_question quiz_init "2 + 2?" ["3"; "4"] 4 "") 5 1
  = Raise IndexError.
Proof.
  apply (add_question_unchecked quiz_init "2 + 2?" ["3"; "4"] 4 "" 1).
  cbn. lia.
Defined.

End QuizFacts.

(** * The weather application *)

Module WeatherFacts.

Import PyFacts Games GamesMore.

Lemma lower_char_idempotent (c : ascii) :
  lower_char (lower_char c) = lower_char c.
Proof. destruct c as [[] [] [] [] [] [] [] []]; reflexivity. Qed.

Lemma lower_idempotent (s : string) : lower (lower s) = lower s.
Proof.
  induction s as [|c s IH]; [done|].
  cbn [lower]. by rewrite lower_char_idempotent, IH.
Qed.

Lemma list_remove_elem {A : Type} `{EqDecision A} (x : A) (l : list A) :
  x ∈ l →
  ∃ l', list_remove x l = Ok l'
        ∧ l' ⊆ l
        ∧ (NoDup l → NoDup l' ∧ x ∉ l').
Proof.
  induction l as [|y l IH]; intros Hx; [by apply elem_of_nil in Hx|].
  cbn [list_remove]. destruct (decide (y = x)) as [->|Hne].
  - exists l. split; [done|]. split; [set_solver|].
    intros Hnd. apply NoDup_cons in Hnd. tauto.
  - apply elem_of_cons in Hx as [->|Hx]; [done|].
    destruct (IH Hx) as (l' & -> & Hsub & Hnd'). rewrite bind_Ok.
    exists (y :: l'). split; [done|]. split; [set_solver|].
    intros Hnd. apply NoDup_cons in Hnd as [Hy Hnd].
    destruct (Hnd' Hnd) as [Hnd'' Hx']. split.
    + apply NoDup_cons. split; [set_solver|done].
    + set_solver.
Qed.

Lemma list_remove_NoDup {A : Type} `{EqDecision A} (x : A) (l : list A) :
  NoDup l → x ∈ l →
  ∃ l', list_remove x l = Ok l'
        ∧ NoDup l'
        ∧ ∀ y, y ∈ l' ↔ y ∈ l ∧ y ≠ x.
Proof.
  induction l as [|z l IH]; intros Hnd Hx; [by apply elem_of_nil in Hx|].
  apply NoDup_cons in Hnd as [Hz Hnd].
  cbn [list_remove]. destruct (decide (z = x)) as [->|Hne].
  - exists l. split; [done|]. split; [done|]. set_solver.
  - apply elem_of_cons in Hx as [->|Hx]; [done|].
    destruct (IH Hnd Hx) as (l' & -> & Hnd' & Hl'). rewrite bind_Ok.
    exists (z :: l'). split; [done|]. split.
    + apply NoDup_cons. split; [|done]. rewrite Hl'. tauto.
    + intros y. rewrite !elem_of_cons, Hl'. naive_solver.
Qed.

Lemma list_remove_snoc {A : Type} `{EqDecision A} (x : A) (l : list A) :
  x ∉ l → list_remove x (l ++ [x]) = Ok l.
Proof.
  induction l as [|y l IH]; intros Hx; cbn [list_remove app].
  - by rewrite decide_True.
  - rewrite decide_False by set_solver. rewrite IH by set_solver. done.
Qed.

Lemma add_favorite_tidy (self : WeatherApp) (city : string) :
  tidy self →
  tidy (add_favorite self city)
  ∧ cities (add_favorite self city) = cities self.
Proof.
  intros [Hnd Hknown]. unfold add_favorite.
  destruct (bool_decide (is_Some (cities self !! lower city))) eqn:Hin;
    [|done].
  destruct (bool_decide (lower city ∉ favorites self)) eqn:Hfav; [|done].
  apply bool_decide_eq_true in Hin, Hfav. cbn. split; [|done]. split; cbn.
  - apply NoDup_app. split; [done|]. split; [set_solver|].
    apply NoDup_singleton.
  - intros c Hc. apply elem_of_app in Hc as [Hc|Hc]; [by apply Hknown|].
    apply list_elem_of_singleton in Hc as ->.
    by rewrite lower_idempotent.
Qed.

Lemma remove_favorite_tidy (self : WeatherApp) (city : string) :
  tidy self →
  ∃ self', remove_favorite self city = Ok self'
           ∧ tidy self'
           ∧ cities self' = cities self
           ∧ lower city ∉ favorites self'.
Proof.
  intros [Hnd Hknown]. unfold remove_favorite.
  destruct (bool_decide (lower city ∈ favorites self)) eqn:Hfav.
  - apply bool_decide_eq_true in Hfav.
    destruct (list_remove_elem _ _ Hfav) as (l' & -> & Hsub & Hnd').
    destruct (Hnd' Hnd) as [Hnd'' Hout]. rewrite bind_Ok.
    eexists. split; [done|]. cbn. repeat split; cbn; try done.
    + apply Hknown. set_solver.
    + apply Hknown. set_solver.
  - apply bool_decide_eq_false in Hfav. by exists self.
Qed.

Lemma favorite_calls_tidy (calls : list favorite_call) :
  ∀ self, tidy self →
          ∃ self', favorite_calls self calls = Ok self'
                   ∧ tidy self'
                   ∧ cities self' = cities self.
Proof.
  induction calls as [|[city|city] calls IH]; intros self Hself;
    cbn [favorite_calls].
  - by exists self.
  - destruct (add_favorite_tidy self city Hself) as [Htidy Hcities].
    destruct (IH _ Htidy) as (self' & -> & Htidy' & Hcities').
    exists self'. by rewrite Hcities', Hcities.
  - destruct (remove_favorite_tidy self city Hself)
      as (self1 & -> & Htidy & Hcities & _).
    rewrite bind_Ok.
    destruct (IH _ Htidy) as (self' & -> & Htidy' & Hcities').
    exists self'. by rewrite Hcities', Hcities.
Qed.

(** X8. After any sequence of [add_favorite] and [remove_favorite] calls
    on a new [WeatherApp], no call has raised, the table of cities is the
    initial one, no city is twice among the favourites and
    [get_weather] finds every favourite, so that [show_favorites] prints
    a line for each of them. *)
Theorem favorites_known (calls : list favorite_call) :
  ∃ self,
    favorite_calls weather_init calls = Ok self
    ∧ cities self = cities weather_init
    ∧ NoDup (favorites self)
    ∧ ∀ city, city ∈ favorites self → is_Some (get_weather self city).
Proof.
  destruct (favorite_calls_tidy calls weather_init)
    as (self & Hrun & [Hnd Hknown] & Hcities).
  { split; [apply NoDup_nil_2|]. intros c Hc. by apply elem_of_nil in Hc. }
  exists self. repeat split; try done.
  intros city Hcity. destruct (Hknown city Hcity) as [Hlow Hsome].
  unfold get_weather. by rewrite Hlow.
Qed.

(** X9. Adding a known city that is no favourite yet and removing it
    again, under any spelling with the same lowercase form, gives back
    the state before the two calls. *)
Theorem add_remove_favorite (self : WeatherApp) (city city' : string) :
  is_Some (get_weather self city) →
  lower city ∉ favorites self →
  lower city' = lower city →
  remove_favorite (add_favorite self city) city' = Ok self.
Proof.
  unfold get_weather. intros Hknown Hfav Hsame.
  unfold add_favorite.
  rewrite (bool_decide_eq_true_2 _ Hknown), (bool_decide_eq_true_2 _ Hfav).
  cbn [andb]. unfold remove_favorite. cbn [favorites cities]. rewrite Hsame.
  rewrite bool_decide_eq_true_2 by set_solver.
  rewrite list_remove_snoc by done.
  rewrite bind_Ok. by destruct self.
Qed.

Lemma add_remove_favorite_witness :
  remove_favorite (add_favorite weather_init "London") "LONDON"
  = Ok weather_init.
Proof.
  apply (add_remove_favorite weather_init "London" "LONDON").
  - eexists. vm_compute. reflexivity.
  - cbn. apply not_elem_of_nil.
  - reflexivity.
Defined.

(** X10. Once the favourites hold no city twice, [remove_favorite]
    returns with the city, under any spelling, out of the favourites and
    with every other favourite kept; the table of cities is not
    touched. *)
Theorem remove_favorite_removes (self : WeatherApp) (city : string) :
  NoDup (favorites self) →
  ∃ self',
    remove_favorite self city = Ok self'
    ∧ cities self' = cities self
    ∧ ∀ other, other ∈ favorites self'
               ↔ other ∈ favorites self ∧ other ≠ lower city.
Proof.
  intros Hnd. unfold remove_favorite.
  destruct (bool_decide (lower city ∈ favorites self)) eqn:Hfav.
  - apply bool_decide_eq_true in Hfav.
    destruct (list_remove_NoDup _ _ Hnd Hfav) as (l' & -> & _ & Hl').
    rewrite bind_Ok. by eexists.
  - apply bool_decide_eq_false in Hfav. exists self.
    repeat split; [tauto| |]; set_solver.
Qed.

Lemma remove_favorite_removes_witness :
  ∃ self',
    remove_favorite {| cities := cities weather_init;
                       favorites := ["paris"; "tokyo"] |} "Paris" = Ok self'
    ∧ cities self' = cities weather_init
    ∧ ∀ other, other ∈ favorites self'
               ↔ other ∈ ["paris"; "tokyo"] ∧ other ≠ lower "Paris".
Proof.
  apply (remove_favorite_removes
           {| cities := cities weather_init; favorites := ["paris"; "tokyo"] |}
           "Paris").
  cbn. repeat constructor; set_solver.
Defined.

End WeatherFacts.

(** * The note-taking application, continued *)

Module NotesMoreFacts.

Import PyFacts Games GamesMore.

Lemma contains_empty (hay : string) : contains hay "" = true.
Proof. by destruct hay. Qed.

Lemma prefix_refl (s : string) : String.prefix s s = true.
Proof.
  induction s as [|c s IH]; [done|].
  cbn. destruct (ascii_dec c c); [done|congruence].
Qed.

Lemma contains_refl (s : string) : contains s s = true.
Proof. destruct s; cbn [contains]; by rewrite prefix_refl. Qed.

Lemma note_matches_returns (note : gmap string jvalue) (term : string) :
  has_text note → ∃ hit, note_matches note term = Return hit.
Proof.
  intros (title & content & Ht & Hc). unfold note_matches, dict_getitem.
  rewrite Ht, Hc. cbn.
  destruct (contains (lower title) term); by eexists.
Qed.

Lemma note_matches_title (note : gmap string jvalue) (title term : string) :
  note !! "title" = Some (JStr title) →
  contains (lower title) term = true →
  note_matches note term = Return true.
Proof.
  intros Ht Hin. unfold note_matches, dict_getitem. rewrite Ht. cbn.
  by rewrite Hin.
Qed.

Lemma search_loop_returns (ns : list (gmap string jvalue)) (term : string) :
  Forall has_text ns →
  ∀ acc, ∃ found, search_loop ns term acc = Return (acc ++ found)
                  ∧ found ⊆ ns.
Proof.
  induction 1 as [|note ns Hnote Hns IH]; intros acc; cbn [search_loop].
  - exists []. by rewrite app_nil_r.
  - destruct (note_matches_returns note term Hnote) as [hit ->]. cbn.
    destruct hit.
    + destruct (IH (acc ++ [note])) as (found & -> & Hsub).
      exists (note :: found). rewrite <- app_assoc. split; [done|set_solver].
    + destruct (IH acc) as (found & -> & Hsub).
      exists found. split; [done|set_solver].
Qed.

Lemma search_loop_app (ns rest : list (gmap string jvalue)) (term : string) :
  Forall has_text ns →
  ∀ acc, ∃ found, search_loop (ns ++ rest) term acc
                  = search_loop rest term (acc ++ found)
                  ∧ found ⊆ ns.
Proof.
  induction 1 as [|note ns Hnote Hns IH]; intros acc; cbn [search_loop app].
  - exists []. by rewrite app_nil_r.
  - destruct (note_matches_returns note term Hnote) as [hit ->]. cbn.
    destruct hit.
    + destruct (IH (acc ++ [note])) as (found & -> & Hsub).
      exists (note :: found). rewrite <- app_assoc. split; [done|set_solver].
    + destruct (IH acc) as (found & -> & Hsub).
      exists found. split; [done|set_solver].
Qed.

Lemma search_loop_all (ns : list (gmap string jvalue)) :
  Forall has_text ns →
  ∀ acc, search_loop ns "" acc = Return (acc ++ ns).
Proof.
  induction 1 as [|note ns Hnote Hns IH]; intros acc; cbn [search_loop].
  - by rewrite app_nil_r.
  - destruct Hnote as (title & content & Ht & _).
    rewrite (note_matches_title note title "" Ht (contains_empty _)). cbn.
    by rewrite IH, <- app_assoc.
Qed.

Lemma note_literal_text (i : Z) (title content category t1 t2 : string) :
  has_text (note_literal i title content category t1 t2).
Proof. exists title, content. split; by vm_compute. Qed.

(** X11. A note is found by its own title: when the title and the content
    of every stored note are strings, [search_notes] called right after
    [create_note], with a term that has the lowercase form of the new
    title, returns a list of stored notes that ends with the new note. *)
Theorem search_finds_created (self : NoteTakingApp)
        (title content category t1 t2 term : string) (io_ok : bool)
        (fs : gmap string (list (gmap string jvalue))) :
  Forall has_text (notes self) →
  lower term = lower title →
  ∃ found,
    search_notes
      (create_note self title content category t1 t2 io_ok fs).1 term
    = Return (found
              ++ [note_literal (Z.of_nat (length (notes self)) + 1)
                               title content category t1 t2])
    ∧ found ⊆ notes self.
Proof.
  intros Htext Hterm. unfold search_notes. cbn [create_note fst notes].
  destruct (search_loop_app (notes self)
              [note_literal (Z.of_nat (length (notes self)) + 1)
                            title content category t1 t2]
              (lower term) Htext []) as (found & -> & Hsub).
  exists found. split; [|done]. cbn [search_loop app].
  rewrite (note_matches_title _ title (lower term)).
  - done.
  - by vm_compute.
  - rewrite Hterm. apply contains_refl.
Qed.

Lemma search_finds_created_witness :
  ∃ found,
    search_notes
      (create_note (notes_init ∅) "Shopping List" "milk" "Home" "t1" "t2"
                   true ∅).1 "SHOPPING list"
    = Return (found ++ [note_literal 1 "Shopping List" "milk" "Home" "t1" "t2"])
    ∧ found ⊆ notes (notes_init ∅).
Proof.
  change 1 with (Z.of_nat (length (notes (notes_init ∅))) + 1) at 1.
  apply (search_finds_created (notes_init ∅) "Shopping List" "milk" "Home"
                              "t1" "t2" "SHOPPING list" true ∅).
  - apply Forall_nil_2.
  - reflexivity.
Defined.

(** X12. With the empty search term [search_notes] returns all the notes,
    in their order, when the title and the content of every stored note
    are strings. *)
Theorem search_empty_term (self : NoteTakingApp) :
  Forall has_text (notes self) →
  search_notes self "" = Return (notes self).
Proof.
  intros Htext. unfold search_notes. cbn [lower].
  by rewrite (search_loop_all _ Htext).
Qed.

Lemma search_empty_term_witness :
  search_notes (create_note (notes_init ∅) "a" "b" "c" "t1" "t2" true ∅).1 ""
  = Return (notes (create_note (notes_init ∅) "a" "b" "c" "t1" "t2" true ∅).1).
Proof.
  apply (search_empty_term
           (create_note (notes_init ∅) "a" "b" "c" "t1" "t2" true ∅).1).
  cbn [create_note fst notes notes_init]. repeat constructor.
  apply note_literal_text.
Defined.

Lemma create_notes_ids_from
      (entries : list (string * string * string * string * string * bool)) :
  ∀ (self : NoteTakingApp) (fs : gmap string (list (gmap string jvalue))),
    (λ note : gmap string jvalue, note !! "id")
      <$> notes (create_notes self fs entries).1
    = ((λ note : gmap string jvalue, note !! "id") <$> notes self)
      ++ ((λ i, Some (JInt i))
            <$> seqZ (Z.of_nat (length (notes self)) + 1)
                     (Z.of_nat (length entries))).
Proof.
  induction entries as [|[[[[[title content] category] t1] t2] io_ok] entries IH];
    intros self fs.
  - cbn. by rewrite app_nil_r.
  - cbn [create_notes]. rewrite IH. cbn [create_note fst notes].
    rewrite fmap_app, length_app, <- app_assoc. f_equal. cbn [fmap list_fmap].
    change (length [_]) with 1%nat.
    rewrite (seqZ_cons _ (Z.of_nat (length (_ :: entries))))
      by (cbn [length]; lia).
    cbn [app fmap list_fmap]. f_equal.
    f_equal; f_equal; cbn [length]; lia.
Qed.

(** X13. The notes created in a new application without a notes file are
    numbered 1, 2, ..., n in their order, whatever the clock shows and
    whether or not the writes to the disk succeed. *)
Theorem create_notes_ids
        (entries : list (string * string * string * string * string * bool))
        (fs : gmap string (list (gmap string jvalue))) :
  fs !! "notes.json" = None →
  (λ note : gmap string jvalue, note !! "id")
    <$> notes (create_notes (notes_init fs) fs entries).1
  = (λ i, Some (JInt i)) <$> seqZ 1 (Z.of_nat (length entries)).
Proof.
  intros Hfile. rewrite create_notes_ids_from.
  unfold notes_init. cbn [notes]. by rewrite Hfile.
Qed.

Lemma create_notes_ids_witness :
  (λ note : gmap string jvalue, note !! "id")
    <$> notes (create_notes (notes_init ∅) ∅
                 [("a", "b", "c", "t1", "t2", true);
                  ("d", "e", "f", "t3", "t4", false)]).1
  = [Some (JInt 1); Some (JInt 2)].
Proof.
  apply (create_notes_ids [("a", "b", "c", "t1", "t2", true);
                           ("d", "e", "f", "t3", "t4", false)] ∅).
  reflexivity.
Defined.

(** A note without the key [id] makes the loops of [delete_note] and
    [edit_note] raise, when no note before it carries the id. *)
Lemma delete_first_keyless (ns rest : list (gmap string jvalue)) (note_id : Z) :
  Forall (λ m, m !! "id" ≠ Some (JInt note_id)) ns →
  Exists (λ m, m !! "id" = None) ns →
  delete_first (ns ++ rest) note_id = Raise KeyError.
Proof.
  induction 1 as [|m ns Hm _ IH]; intros Hnone; [by apply Exists_nil in Hnone|].
  cbn [delete_first app]. unfold dict_getitem at 1.
  destruct (m !! "id") as [v|] eqn:Hv; [|done].
  rewrite bind_Ok, bool_decide_eq_false_2 by congruence.
  apply Exists_cons in Hnone as [Hnone|Hnone]; [congruence|].
  by rewrite IH.
Qed.

Lemma edit_first_keyless (ns rest : list (gmap string jvalue)) (note_id : Z)
      (new_title new_content new_category : option string) (t : string) :
  Forall (λ m, m !! "id" ≠ Some (JInt note_id)) ns →
  Exists (λ m, m !! "id" = None) ns →
  edit_first (ns ++ rest) note_id new_title new_content new_category t
  = Raise KeyError.
Proof.
  induction 1 as [|m ns Hm _ IH]; intros Hnone; [by apply Exists_nil in Hnone|].
  cbn [edit_first app]. unfold dict_getitem at 1.
  destruct (m !! "id") as [v|] eqn:Hv; [|done].
  rewrite bind_Ok, bool_decide_eq_false_2 by congruence.
  apply Exists_cons in Hnone as [Hnone|Hnone]; [congruence|].
  by rewrite IH.
Qed.

(** Notes that all have an id, none of them the id looked for. *)
Lemma other_ids (ns : list (gmap string jvalue)) (note_id : Z) :
  Forall (λ m, m !! "id" ≠ Some (JInt note_id)) ns →
  Forall (λ m, is_Some (m !! "id")) ns →
  Forall (λ m, ∃ v, m !! "id" = Some v ∧ v ≠ JInt note_id) ns.
Proof.
  intros Hne Hsome. apply Forall_forall. intros m Hm.
  rewrite Forall_forall in Hne, Hsome.
  destruct (Hsome m Hm) as [v Hv]. exists v. split; [done|].
  intros ->. by apply (Hne m Hm).
Qed.

Lemma delete_first_absent (ns : list (gmap string jvalue)) (note_id : Z) :
  Forall (λ m, ∃ v, m !! "id" = Some v ∧ v ≠ JInt note_id) ns →
  delete_first ns note_id = Ok None.
Proof.
  induction 1 as [|m ns (v & Hv & Hne) _ IH]; cbn [delete_first]; [done|].
  unfold dict_getitem at 1. rewrite Hv, bind_Ok.
  rewrite bool_decide_eq_false_2 by done. by rewrite IH.
Qed.

Lemma edit_first_absent (ns : list (gmap string jvalue)) (note_id : Z)
      (new_title new_content new_category : option string) (t : string) :
  Forall (λ m, ∃ v, m !! "id" = Some v ∧ v ≠ JInt note_id) ns →
  edit_first ns note_id new_title new_content new_category t = Ok None.
Proof.
  induction 1 as [|m ns (v & Hv & Hne) _ IH]; cbn [edit_first]; [done|].
  unfold dict_getitem at 1. rewrite Hv, bind_Ok.
  rewrite bool_decide_eq_false_2 by done. by rewrite IH.
Qed.

(** X26. With an id that no stored note carries, [edit_note] and
    [delete_note] have one of two outcomes.  When every stored note has
    the key [id], they return False and leave the notes, the categories
    and the file as they are: nothing is saved.  When some stored note
    has no key [id], as a note loaded from the file may, they raise
    [KeyError]. *)
Theorem absent_id_untouched (self : NoteTakingApp) (note_id : Z)
        (new_title new_content new_category : option string) (t : string)
        (io_ok : bool) (fs : gmap string (list (gmap string jvalue))) :
  Forall (λ m, m !! "id" ≠ Some (JInt note_id)) (notes self) →
  (Forall (λ m, is_Some (m !! "id")) (notes self) →
   edit_note self note_id new_title new_content new_category t io_ok fs
   = Ok (self, fs, false)
   ∧ delete_note self note_id io_ok fs = Ok (self, fs, false))
  ∧ (Exists (λ m, m !! "id" = None) (notes self) →
     edit_note self note_id new_title new_content new_category t io_ok fs
     = Raise KeyError
     ∧ delete_note self note_id io_ok fs = Raise KeyError).
Proof.
  intros Habsent. unfold edit_note, delete_note. split.
  - intros Hkeys. pose proof (other_ids _ _ Habsent Hkeys) as Hother.
    by rewrite edit_first_absent, delete_first_absent.
  - intros Hnone.
    pose proof (edit_first_keyless (notes self) [] note_id new_title
                  new_content new_category t Habsent Hnone) as Hedit.
    pose proof (delete_first_keyless (notes self) [] note_id Habsent Hnone)
      as Hdelete.
    rewrite app_nil_r in Hedit, Hdelete. by rewrite Hedit, Hdelete.
Qed.

Lemma absent_id_untouched_witness :
  edit_note (create_note (notes_init ∅) "a" "b" "c" "t1" "t2" true ∅).1 2
            (Some "x") None None "t3" true ∅
  = Ok ((create_note (notes_init ∅) "a" "b" "c" "t1" "t2" true ∅).1, ∅, false)
  ∧ delete_note (create_note (notes_init ∅) "a" "b" "c" "t1" "t2" true ∅).1 2
                true ∅
    = Ok ((create_note (notes_init ∅) "a" "b" "c" "t1" "t2" true ∅).1, ∅,
          false).
Proof.
  refine (proj1 (absent_id_untouched
                   (create_note (notes_init ∅) "a" "b" "c" "t1" "t2" true ∅).1
                   2 (Some "x") None None "t3" true ∅ _) _).
  - cbn [create_note fst notes notes_init]. constructor; [|constructor].
    by vm_compute.
  - cbn [create_note fst notes notes_init]. constructor; [|constructor].
    exists (JInt 1). by vm_compute.
Defined.

(** X27. Deleting the note just created, by the id it was given, when
    no older note carries that id: if every older note has the key [id],
    [delete_note] returns True and the list of notes is as it was before
    the two calls, the category staying in the set of categories; if some
    older note has no key [id], [delete_note] raises [KeyError] before it
    reaches the new note. *)
Theorem create_delete_roundtrip (self : NoteTakingApp)
        (title content category t1 t2 : string) (io_ok io_ok' : bool)
        (fs : gmap string (list (gmap string jvalue))) :
  Forall (λ m, m !! "id" ≠ Some (JInt (Z.of_nat (length (notes self)) + 1)))
         (notes self) →
  (Forall (λ m, is_Some (m !! "id")) (notes self) →
   ∃ fs',
     delete_note (create_note self title content category t1 t2 io_ok fs).1
                 (Z.of_nat (length (notes self)) + 1) io_ok'
                 (create_note self title content category t1 t2 io_ok fs).2
     = Ok ({| notes := notes self;
              categories := categories self ∪ {[ category ]};
              filename := filename self |}, fs', true))
  ∧ (Exists (λ m, m !! "id" = None) (notes self) →
     delete_note (create_note self title content category t1 t2 io_ok fs).1
                 (Z.of_nat (length (notes self)) + 1) io_ok'
                 (create_note self title content category t1 t2 io_ok fs).2
     = Raise KeyError).
Proof.
  intros Hold. unfold delete_note. cbn [create_note fst snd notes]. split.
  - intros Hkeys. pose proof (other_ids _ _ Hold Hkeys) as Hother.
    rewrite (NotesFacts.delete_first_stops (notes self) [] _ _ Hother)
      by by vm_compute.
    rewrite bind_Ok, app_nil_r. by eexists.
  - intros Hnone. by rewrite (delete_first_keyless _ _ _ Hold Hnone).
Qed.

Lemma create_delete_roundtrip_witness :
  ∃ fs',
    delete_note (create_note (notes_init ∅) "a" "b" "c" "t1" "t2" true ∅).1
                (Z.of_nat (length (notes (notes_init ∅))) + 1) false
                (create_note (notes_init ∅) "a" "b" "c" "t1" "t2" true ∅).2
    = Ok ({| notes := notes (notes_init ∅);
             categories := categories (notes_init ∅) ∪ {[ "c" ]};
             filename := filename (notes_init ∅) |}, fs', true).
Proof.
  refine (proj1 (create_delete_roundtrip (notes_init ∅) "a" "b" "c" "t1" "t2"
                                         true false ∅ _) _).
  - apply Forall_nil_2.
  - apply Forall_nil_2.
Defined.

Lemma filter_by_category_returns (ns : list (gmap string jvalue))
      (category : string) :
  Forall (λ note, ∃ c, note !! "category" = Some (JStr c)) ns →
  ∃ found,
    filter_by_category_in ns category = Return found
    ∧ ∀ note c, note ∈ ns → note !! "category" = Some (JStr c) →
                lower c = lower category → note ∈ found.
Proof.
  induction 1 as [|note ns [c Hc] _ (found & IH & Hfound)];
    cbn [filter_by_category_in].
  - exists []. split; [done|]. by intros note c ?%elem_of_nil.
  - unfold dict_getitem. rewrite Hc, IH. cbn.
    eexists. split; [done|]. intros note' c' Hin Hc' Hlow.
    apply elem_of_cons in Hin as [->|Hin].
    + assert (c' = c) as -> by congruence.
      rewrite Hlow, String.eqb_refl. by left.
    + destruct (String.eqb (lower c) (lower category));
        [right|]; by eapply Hfound.
Qed.

Lemma create_note_in_use (self : NoteTakingApp)
      (title content category t1 t2 : string) (io_ok : bool)
      (fs : gmap string (list (gmap string jvalue))) :
  categories_in_use self →
  categories_in_use (create_note self title content category t1 t2 io_ok fs).1.
Proof.
  intros [Hall Hsome]. split; cbn [create_note fst notes categories].
  - apply Forall_app. split; [done|]. repeat constructor.
    exists category. by vm_compute.
  - intros c [Hc|Hc%elem_of_singleton]%elem_of_union.
    + destruct (Hsome c Hc) as (note & Hin & Hnote).
      exists note. split; [|done]. apply elem_of_app. by left.
    + subst c. eexists. split; [apply elem_of_app; right; by left|].
      by vm_compute.
Qed.

Lemma create_notes_in_use
      (entries : list (string * string * string * string * string * bool)) :
  ∀ (self : NoteTakingApp) (fs : gmap string (list (gmap string jvalue))),
    categories_in_use self →
    categories_in_use (create_notes self fs entries).1.
Proof.
  induction entries as [|[[[[[title content] category] t1] t2] io_ok] entries IH];
    intros self fs Hself; [done|].
  cbn [create_notes]. apply IH. by apply create_note_in_use.
Qed.

(** X30. While notes are only created, in a new application without a
    notes file, every category of the set of categories is in use:
    [filter_by_category] returns, for each of them, a list that is not
    empty. *)
Theorem categories_have_notes
        (entries : list (string * string * string * string * string * bool))
        (fs : gmap string (list (gmap string jvalue))) (category : string) :
  fs !! "notes.json" = None →
  category ∈ categories (create_notes (notes_init fs) fs entries).1 →
  ∃ found note,
    filter_by_category (create_notes (notes_init fs) fs entries).1 category
    = Return found
    ∧ note ∈ found.
Proof.
  intros Hfile Hcat.
  assert (categories_in_use (notes_init fs)) as Hinit.
  { unfold notes_init. rewrite Hfile. split; [by constructor|].
    by intros c ?%elem_of_empty. }
  destruct (create_notes_in_use entries _ fs Hinit) as [Hall Hsome].
  destruct (Hsome category Hcat) as (note & Hin & Hnote).
  destruct (filter_by_category_returns _ category Hall)
    as (found & Hfound & Hhas).
  exists found, note. split; [done|]. by eapply Hhas.
Qed.

Lemma categories_have_notes_witness :
  ∃ found note,
    filter_by_category
      (create_notes (notes_init ∅) ∅
                    [("a", "b", "Work", "t1", "t2", true);
                     ("d", "e", "Home", "t3", "t4", false)]).1 "Work"
    = Return found
    ∧ note ∈ found.
Proof.
  apply (categories_have_notes [("a", "b", "Work", "t1", "t2", true);
                                ("d", "e", "Home", "t3", "t4", false)]
                               ∅ "Work").
  - reflexivity.
  - cbn [create_notes create_note fst snd categories notes_init]. set_solver.
Defined.

End NotesMoreFacts.

(** * The Caesar cipher, continued *)

Module CaesarMoreFacts.

Import PyFacts Utility UtilityFacts.

Lemma caesar_char_mod (s s' : Z) (c : ascii) :
  s mod 26 = s' mod 26 → caesar_char init s c = caesar_char init s' c.
Proof.
  intros Hmod. unfold caesar_char.
  assert (∀ p, (p + s) mod 26 = (p + s') mod 26) as Hp.
  { intros p. by rewrite (Z.add_mod p s), (Z.add_mod p s'), Hmod by lia. }
  destruct (islower c).
  - destruct (index (alphabet init) c) as [p|e]; [|done].
    by rewrite !bind_Ok, Hp.
  - destruct (isupper c); [|done].
    destruct (index (alphabet_upper init) c) as [p|e]; [|done].
    by rewrite !bind_Ok, Hp.
Qed.

Lemma caesar_loop_mod (s s' : Z) (text : string) :
  s mod 26 = s' mod 26 →
  ∀ acc, caesar_loop init s text acc = caesar_loop init s' text acc.
Proof.
  intros Hmod. induction text as [|c rest IH]; intros acc; [done|].
  cbn [caesar_loop]. rewrite (caesar_char_mod s s' c Hmod).
  destruct (caesar_char init s' c) as [d|e]; [|done].
  rewrite !bind_Ok. apply IH.
Qed.

(** X14. The cipher depends on the shift modulo 26 only: two shifts that
    differ by a multiple of 26 give the same result on every text and in
    both directions, an exception included. *)
Theorem caesar_cipher_period (text : string) (shift n : Z) (encrypt : bool) :
  caesar_cipher init text (shift + 26 * n) encrypt
  = caesar_cipher init text shift encrypt.
Proof.
  unfold caesar_cipher. apply caesar_loop_mod. destruct encrypt.
  - replace (shift + 26 * n) with (shift + n * 26) by lia.
    by rewrite Z_mod_plus_full.
  - replace (- (shift + 26 * n)) with (- shift + (- n) * 26) by lia.
    by rewrite Z_mod_plus_full.
Qed.

Lemma shift_letter_compose (k1 k2 : Z) (c : ascii) :
  shift_letter k2 (shift_letter k1 c) = shift_letter (k1 + k2) c.
Proof.
  pose proof (Z.mod_pos_bound (ord c - 97 + k1) 26 ltac:(lia)) as Hl26.
  pose proof (Z.mod_pos_bound (ord c - 65 + k1) 26 ltac:(lia)) as Hu26.
  unfold shift_letter at 2 3.
  destruct (between 97 122 c) eqn:Hl.
  - unfold shift_letter.
    assert (between 97 122 (chr (97 + (ord c - 97 + k1) mod 26)) = true) as ->.
    { apply between_spec. rewrite ord_chr by lia. lia. }
    rewrite ord_chr by lia.
    replace (97 + (ord c - 97 + k1) mod 26 - 97 + k2)
      with ((ord c - 97 + k1) mod 26 + k2) by lia.
    rewrite Zplus_mod_idemp_l. do 3 f_equal. lia.
  - destruct (between 65 90 c) eqn:Hu.
    + unfold shift_letter.
      assert (between 97 122 (chr (65 + (ord c - 65 + k1) mod 26)) = false)
        as ->.
      { apply between_false. rewrite ord_chr by lia. lia. }
      assert (between 65 90 (chr (65 + (ord c - 65 + k1) mod 26)) = true)
        as ->.
      { apply between_spec. rewrite ord_chr by lia. lia. }
      rewrite ord_chr by lia.
      replace (65 + (ord c - 65 + k1) mod 26 - 65 + k2)
        with ((ord c - 65 + k1) mod 26 + k2) by lia.
      rewrite Zplus_mod_idemp_l. do 3 f_equal. lia.
    + unfold shift_letter. by rewrite Hl, Hu.
Qed.

Lemma shift_letter_zero (c : ascii) : shift_letter 0 c = c.
Proof.
  unfold shift_letter.
  destruct (between 97 122 c) eqn:Hl.
  - apply between_spec in Hl. rewrite Z.add_0_r, Z.mod_small by lia.
    replace (97 + (ord c - 97)) with (ord c) by lia. apply chr_ord.
  - destruct (between 65 90 c) eqn:Hu; [|done].
    apply between_spec in Hu. rewrite Z.add_0_r, Z.mod_small by lia.
    replace (65 + (ord c - 65)) with (ord c) by lia. apply chr_ord.
Qed.

Lemma shift_letter_ascii (k : Z) (c : ascii) :
  is_ascii c = true → is_ascii (shift_letter k c) = true.
Proof.
  unfold is_ascii, shift_letter. intros Hc.
  pose proof (Z.mod_pos_bound (ord c - 97 + k) 26 ltac:(lia)).
  pose proof (Z.mod_pos_bound (ord c - 65 + k) 26 ltac:(lia)).
  destruct (between 97 122 c); [apply Z.ltb_lt; rewrite ord_chr by lia; lia|].
  destruct (between 65 90 c); [apply Z.ltb_lt; rewrite ord_chr by lia; lia|].
  done.
Qed.

Lemma shifted_ascii (k : Z) (text : string) :
  all_chars is_ascii text = true → all_chars is_ascii (shifted k text) = true.
Proof.
  induction text as [|c rest IH]; [done|]. cbn [all_chars shifted].
  intros [Hc Hrest]%andb_true_iff. by rewrite shift_letter_ascii, IH.
Qed.

Lemma shifted_compose (k1 k2 : Z) (text : string) :
  shifted k2 (shifted k1 text) = shifted (k1 + k2) text.
Proof.
  induction text as [|c rest IH]; [done|].
  cbn [shifted]. by rewrite shift_letter_compose, IH.
Qed.

Lemma shifted_zero (text : string) : shifted 0 text = text.
Proof.
  induction text as [|c rest IH]; [done|].
  cbn [shifted]. by rewrite shift_letter_zero, IH.
Qed.

(** X15. On ASCII text, letters or not, encrypting with one shift and
    then with another is encrypting once with their sum, and decrypting
    with the first shift gives the text back. *)
Theorem caesar_cipher_compose (text : string) (k1 k2 : Z) :
  all_chars is_ascii text = true →
  ∃ y, caesar_cipher init text k1 true = Ok y
       ∧ caesar_cipher init y k2 true = caesar_cipher init text (k1 + k2) true
       ∧ caesar_cipher init y k1 false = Ok text.
Proof.
  intros Htext. exists (shifted k1 text).
  pose proof (shifted_ascii k1 text Htext) as Hy.
  rewrite !caesar_cipher_ascii by done.
  rewrite !shifted_compose, Z.add_opp_diag_r, shifted_zero. done.
Qed.

Lemma caesar_cipher_compose_witness :
  ∃ y, caesar_cipher init "Hello, World 42!" 3 true = Ok y
       ∧ caesar_cipher init y 10 true
         = caesar_cipher init "Hello, World 42!" (3 + 10) true
       ∧ caesar_cipher init y 3 false = Ok "Hello, World 42!".
Proof.
  apply (caesar_cipher_compose "Hello, World 42!" 3 10). reflexivity.
Defined.

End CaesarMoreFacts.

(** * The password generator *)

Module PasswordFacts.

Import PyFacts Utility UtilityFacts UtilityMore HangmanFacts.

Lemma string_nonempty_list (s : string) :
  s ≠ EmptyString → list_ascii_of_string s ≠ [].
Proof. by destruct s. Qed.

Lemma has_char_elem (s : string) (c : ascii) :
  has_char s c = true ↔ c ∈ list_ascii_of_string s.
Proof.
  induction s as [|d s IH]; cbn [has_char list_ascii_of_string].
  - split; [done|]. by intros ?%elem_of_nil.
  - rewrite orb_true_iff, IH, elem_of_cons, Ascii.eqb_eq. naive_solver.
Qed.

Lemma append_choice_returns (seq : string) (draws : nat → nat)
      (password : list ascii) :
  seq ≠ EmptyString →
  ∃ c, append_choice seq draws password = Ok (password ++ [c])
       ∧ choice (list_ascii_of_string seq) (draws (length password)) = Ok c
       ∧ has_char seq c = true.
Proof.
  intros Hne. unfold append_choice.
  destruct (choice_nonempty (list_ascii_of_string seq)
              (draws (length password)) (string_nonempty_list seq Hne))
    as (c & Hc & Hin).
  exists c. rewrite Hc. by rewrite has_char_elem.
Qed.

Lemma fill_returns (n : nat) (chars : string) (draws : nat → nat) :
  chars ≠ EmptyString →
  ∀ password,
    ∃ more, fill n chars draws password = Ok (password ++ more)
            ∧ length more = n
            ∧ Forall (λ c, has_char chars c = true) more.
Proof.
  intros Hne. induction n as [|n IH]; intros password; cbn [fill].
  - exists []. by rewrite app_nil_r.
  - destruct (append_choice_returns chars draws password Hne)
      as (c & -> & _ & Hc).
    rewrite bind_Ok. destruct (IH (password ++ [c])) as (more & -> & Hlen & Hall).
    exists (c :: more). rewrite <- app_assoc. cbn. by rewrite Hlen; auto.
Qed.

Lemma join_chars_length (l : list ascii) :
  String.length (join_chars l) = length l.
Proof.
  unfold join_chars. induction l as [|c l IH]; [done|].
  cbn [string_of_list_ascii String.length length]. by rewrite IH.
Qed.

Lemma join_chars_has (l : list ascii) (c : ascii) :
  has_char (join_chars l) c = true ↔ c ∈ l.
Proof.
  rewrite has_char_elem. unfold join_chars.
  by rewrite list_ascii_of_string_of_list_ascii.
Qed.

Lemma any_char_join (p : ascii → bool) (l : list ascii) (c : ascii) :
  c ∈ l → p c = true → any_char p (join_chars l) = true.
Proof.
  intros Hin Hc. unfold join_chars.
  induction l as [|x l IH]; [by apply elem_of_nil in Hin|].
  cbn [string_of_list_ascii any_char].
  apply elem_of_cons in Hin as [<-|Hin]; [by rewrite Hc|].
  by rewrite IH, orb_true_r.
Qed.

(** The list that [generate_password] shuffles: the guaranteed
    characters, then the filling. *)
Lemma generate_password_shape (n : Z)
      (include_uppercase include_digits include_symbols : bool)
      (exclude_similar exclude_ambiguous : bool)
      (draws : nat → nat) (shuffle : list ascii → list ascii) :
  ∃ u d s more : list ascii,
    generate_password generator_init n include_uppercase include_digits
                      include_symbols exclude_similar exclude_ambiguous
                      draws shuffle
    = Ok (join_chars (shuffle (u ++ d ++ s ++ more)))
    ∧ picked include_uppercase (uppercase generator_init) (draws 0%nat) u
    ∧ picked include_digits (digits generator_init) (draws (length u)) d
    ∧ picked include_symbols (symbols generator_init)
             (draws (length (u ++ d))) s
    ∧ length (u ++ d ++ s ++ more) = Z.to_nat (Z.max n 4).
Proof.
  unfold generate_password. cbv zeta.
  match goal with
  | |- context [String.eqb ?chars ""] => set (allowed := chars)
  end.
  assert (allowed ≠ EmptyString) as Hne.
  { subst allowed.
    destruct include_uppercase, include_digits, include_symbols,
      exclude_similar, exclude_ambiguous; by vm_compute. }
  clearbody allowed.
  destruct (String.eqb_spec allowed ""); [done|].
  assert (∃ u, (if include_uppercase
                then append_choice (uppercase generator_init) draws []
                else Ok []) = Ok u
               ∧ picked include_uppercase (uppercase generator_init)
                        (draws 0%nat) u
               ∧ (length u ≤ 1)%nat) as (u & -> & Hu & Hlu).
  { destruct include_uppercase.
    - destruct (append_choice_returns (uppercase generator_init) draws [])
        as (c & -> & Hc & _); [done|].
      exists [c]. repeat split; [|cbn; lia]. by exists c.
    - by exists []; repeat split; cbn; lia. }
  rewrite bind_Ok.
  assert (∃ d, (if include_digits
                then append_choice (digits generator_init) draws u
                else Ok u) = Ok (u ++ d)
               ∧ picked include_digits (digits generator_init)
                        (draws (length u)) d
               ∧ (length d ≤ 1)%nat) as (d & -> & Hd & Hld).
  { destruct include_digits.
    - destruct (append_choice_returns (digits generator_init) draws u)
        as (c & -> & Hc & _); [done|].
      exists [c]. repeat split; [|cbn; lia]. by exists c.
    - exists []. rewrite app_nil_r. repeat split; cbn; lia. }
  rewrite bind_Ok.
  assert (∃ s, (if include_symbols
                then append_choice (symbols generator_init) draws (u ++ d)
                else Ok (u ++ d)) = Ok ((u ++ d) ++ s)
               ∧ picked include_symbols (symbols generator_init)
                        (draws (length (u ++ d))) s
               ∧ (length s ≤ 1)%nat) as (s & -> & Hs & Hls).
  { destruct include_symbols.
    - destruct (append_choice_returns (symbols generator_init) draws (u ++ d))
        as (c & -> & Hc & _); [done|].
      exists [c]. repeat split; [|cbn; lia]. by exists c.
    - exists []. rewrite app_nil_r. repeat split; cbn; lia. }
  rewrite bind_Ok.
  match goal with
  | |- context [fill ?k allowed draws ?p] =>
      destruct (fill_returns k allowed draws Hne p) as (more & -> & Hlen & _)
  end.
  rewrite bind_Ok. exists u, d, s, more.
  rewrite <- !app_assoc. repeat split; try done.
  rewrite !length_app in *. rewrite Hlen.
  destruct (Z.ltb_spec n 4); lia.
Qed.

Section Shuffle.

Variable shuffle : list ascii → list ascii.

(** [random.shuffle] rearranges the list. *)
Hypothesis shuffle_permutation : ∀ l, shuffle l ≡ₚ l.

(** X16. [generate_password] never raises, its [ValueError] for an empty
    set of characters included (the lowercase letters other than l
    always remain), and the password has the requested length, or 4 when
    fewer are requested. *)
Theorem generate_password_length (n : Z)
        (include_uppercase include_digits include_symbols : bool)
        (exclude_similar exclude_ambiguous : bool) (draws : nat → nat) :
  ∃ password,
    generate_password generator_init n include_uppercase include_digits
                      include_symbols exclude_similar exclude_ambiguous
                      draws shuffle
    = Ok password
    ∧ len password = Z.max n 4.
Proof.
  destruct (generate_password_shape n include_uppercase include_digits
              include_symbols exclude_similar exclude_ambiguous draws shuffle)
    as (u & d & s & more & -> & _ & _ & _ & Hlen).
  eexists. split; [done|]. unfold len.
  rewrite join_chars_length, (Permutation_length (shuffle_permutation _)), Hlen.
  lia.
Qed.

(** X17. The password holds an uppercase letter when uppercase letters
    are included, a digit when digits are, and a symbol when symbols
    are. *)
Theorem generate_password_guarantees (n : Z)
        (include_uppercase include_digits include_symbols : bool)
        (exclude_similar exclude_ambiguous : bool) (draws : nat → nat) :
  ∃ password,
    generate_password generator_init n include_uppercase include_digits
                      include_symbols exclude_similar exclude_ambiguous
                      draws shuffle
    = Ok password
    ∧ (include_uppercase = true →
       any_char (has_char (uppercase generator_init)) password = true)
    ∧ (include_digits = true →
       any_char (has_char (digits generator_init)) password = true)
    ∧ (include_symbols = true →
       any_char (has_char (symbols generator_init)) password = true).
Proof.
  destruct (generate_password_shape n include_uppercase include_digits
              include_symbols exclude_similar exclude_ambiguous draws shuffle)
    as (u & d & s & more & -> & Hu & Hd & Hs & _).
  eexists. split; [done|].
  assert (∀ (seq : string) (c : ascii),
            c ∈ u ++ d ++ s ++ more →
            has_char seq c = true →
            any_char (has_char seq)
                     (join_chars (shuffle (u ++ d ++ s ++ more))) = true)
    as Hany.
  { intros seq c Hc Hseq. apply (any_char_join _ _ c); [|done].
    by rewrite shuffle_permutation. }
  assert (∀ (seq : string) (draw : nat) (c : ascii),
            choice (list_ascii_of_string seq) draw = Ok c →
            has_char seq c = true) as Hchoice.
  { intros seq draw c Hc. apply has_char_elem.
    destruct (list_ascii_of_string seq) as [|x l] eqn:Hl; [done|].
    destruct (choice_nonempty (x :: l) draw) as (c' & Hc' & Hin); [done|].
    congruence. }
  repeat split; intros ->; cbn [picked] in *.
  - destruct Hu as (c & -> & Hc). apply (Hany _ c); [set_solver|eauto].
  - destruct Hd as (c & -> & Hc). apply (Hany _ c); [set_solver|eauto].
  - destruct Hs as (c & -> & Hc). apply (Hany _ c); [set_solver|eauto].
Qed.

(** X18. The guaranteed characters are drawn from the full sets, not
    from the set left after the exclusions: with uppercase letters
    included and the first draw at position 14, the password holds the
    letter O, also when similar characters are excluded. *)
Theorem generate_password_similar (n : Z)
        (include_digits include_symbols : bool)
        (exclude_similar exclude_ambiguous : bool) (draws : nat → nat) :
  (draws 0 mod 26 = 14)%nat →
  ∃ password,
    generate_password generator_init n true include_digits
                      include_symbols exclude_similar exclude_ambiguous
                      draws shuffle
    = Ok password
    ∧ has_char password "O" = true
    ∧ has_char (similar_chars generator_init) "O" = true.
Proof.
  intros Hdraw.
  destruct (generate_password_shape n true include_digits
              include_symbols exclude_similar exclude_ambiguous draws shuffle)
    as (u & d & s & more & -> & Hu & _ & _ & _).
  eexists. split; [done|]. split; [|done].
  apply join_chars_has. rewrite shuffle_permutation.
  destruct Hu as (c & -> & Hc).
  assert (c = "O"%char) as ->; [|set_solver].
  unfold choice in Hc. cbn [uppercase generator_init] in Hc.
  change (length (list_ascii_of_string ascii_uppercase)) with 26%nat in Hc.
  rewrite Hdraw in Hc. vm_compute in Hc. congruence.
Qed.

End Shuffle.

Lemma generate_password_length_witness :
  ∃ password,
    generate_password generator_init 2 true false true true true (λ k, k) reverse
    = Ok password
    ∧ len password = Z.max 2 4.
Proof.
  apply (generate_password_length reverse).
  intros l. apply reverse_Permutation.
Defined.

Lemma generate_password_guarantees_witness :
  ∃ password,
    generate_password generator_init 12 true true false false false
                      (λ k, (7 * k)%nat) reverse
    = Ok password
    ∧ (true = true →
       any_char (has_char (uppercase generator_init)) password = true)
    ∧ (true = true →
       any_char (has_char (digits generator_init)) password = true)
    ∧ (false = true →
       any_char (has_char (symbols generator_init)) password = true).
Proof.
  apply (generate_password_guarantees reverse).
  intros l. apply reverse_Permutation.
Defined.

Lemma generate_password_similar_witness :
  ∃ password,
    generate_password generator_init 8 true true true true false
                      (λ k, (k + 14)%nat) reverse
    = Ok password
    ∧ has_char password "O" = true
    ∧ has_char (similar_chars generator_init) "O" = true.
Proof.
  apply (generate_password_similar reverse).
  - intros l. apply reverse_Permutation.
  - reflexivity.
Defined.

End PasswordFacts.

(** * The analysis of a password *)

Module StrengthFacts.

Import PyFacts Utility UtilityFacts UtilityMore.

Lemma get_in_range (s : string) :
  ∀ j : nat, (j < String.length s)%nat → ∃ c, String.get j s = Some c.
Proof.
  induction s as [|d s IH]; intros j Hj; cbn in Hj; [lia|].
  destruct j as [|j]; cbn; [by eexists|]. apply IH. lia.
Qed.

Lemma getitem_returns (s : string) (i : Z) :
  0 ≤ i < len s → ∃ c, getitem s i = Ok c.
Proof.
  intros Hi. unfold getitem. rewrite norm_index_in_range, bind_Ok by done.
  destruct (get_in_range s (Z.to_nat i)) as [c ->]; [unfold len in Hi; lia|].
  by exists c.
Qed.

Lemma any_index_returns (p : Z → result bool) (indices : list Z) :
  Forall (λ i, ∃ b, p i = Ok b) indices →
  ∃ b, any_index p indices = Ok b.
Proof.
  induction 1 as [|i rest [b Hb] _ IH]; cbn [any_index]; [by eexists|].
  rewrite Hb, bind_Ok. destruct b; [by eexists|done].
Qed.

(** The test for repeated characters never subscripts out of range. *)
Lemma repeated_returns (password : string) :
  ∃ b, repeated password = Ok b.
Proof.
  apply any_index_returns, Forall_forall. intros i Hi.
  apply elem_of_seqZ in Hi.
  destruct (getitem_returns password i) as [a ->]; [lia|].
  destruct (getitem_returns password (i + 1)) as [b ->]; [lia|].
  by eexists.
Qed.

Lemma contains_head (hay : string) (a : ascii) (rest : string) :
  contains hay (String a rest) = true → has_char hay a = true.
Proof.
  induction hay as [|h hay IH]; cbn [contains has_char String.prefix]; [done|].
  destruct (ascii_dec a h) as [->|Hne].
  - by rewrite Ascii.eqb_refl.
  - cbn [orb]. intros H. by rewrite IH, orb_true_r.
Qed.

Lemma has_char_lower (password : string) (a : ascii) :
  has_char (lower password) a = true →
  any_char (λ c, Ascii.eqb (lower_char c) a) password = true.
Proof.
  induction password as [|c rest IH]; cbn [lower has_char any_char]; [done|].
  intros [H|H]%orb_true_iff; [by rewrite H|]. by rewrite IH, orb_true_r.
Qed.

Lemma any_char_impl (p q : ascii → bool) (s : string) :
  (∀ c, p c = true → q c = true) →
  any_char p s = true → any_char q s = true.
Proof.
  intros Hpq. induction s as [|c rest IH]; cbn [any_char]; [done|].
  intros [H|H]%orb_true_iff; [by rewrite Hpq|]. by rewrite IH, orb_true_r.
Qed.

Lemma any_char_orb (p q : ascii → bool) (s : string) :
  any_char (λ c, p c || q c) s = any_char p s || any_char q s.
Proof.
  induction s as [|c rest IH]; cbn [any_char]; [done|].
  rewrite IH. by destruct (p c), (q c), (any_char p rest), (any_char q rest).
Qed.

(** Only the digit 1 lowers to the digit 1, and only a letter lowers to
    a letter. *)
Lemma lowers_to_1 (c : ascii) :
  Ascii.eqb (lower_char c) "1" = true → isdigit c = true.
Proof. destruct c as [[] [] [] [] [] [] [] []]; by vm_compute. Qed.

Lemma lowers_to_a (c : ascii) :
  Ascii.eqb (lower_char c) "a" = true → islower c || isupper c = true.
Proof. destruct c as [[] [] [] [] [] [] [] []]; by vm_compute. Qed.

Lemma lowers_to_q (c : ascii) :
  Ascii.eqb (lower_char c) "q" = true → islower c || isupper c = true.
Proof. destruct c as [[] [] [] [] [] [] [] []]; by vm_compute. Qed.

Lemma lowers_to_p (c : ascii) :
  Ascii.eqb (lower_char c) "p" = true → islower c || isupper c = true.
Proof. destruct c as [[] [] [] [] [] [] [] []]; by vm_compute. Qed.

(** A password with a common pattern holds a digit or a letter. *)
Lemma pattern_classes (password : string) :
  existsb (contains (lower password)) common_patterns = true →
  any_char islower password || any_char isupper password
  || any_char isdigit password = true.
Proof.
  unfold common_patterns. cbn [existsb]. rewrite orb_false_r.
  assert (∀ a rest,
            (∀ c, Ascii.eqb (lower_char c) a = true →
                  islower c || isupper c = true) →
            contains (lower password) (String a rest) = true →
            any_char islower password || any_char isupper password = true)
    as Hletter.
  { intros a rest Ha H%contains_head%has_char_lower.
    rewrite <- any_char_orb. exact (any_char_impl _ _ _ Ha H). }
  rewrite !orb_true_iff. intros [H|[H|[H|[H|H]]]].
  - right. apply contains_head, has_char_lower in H.
    eapply any_char_impl; [|done]. apply lowers_to_1.
  - left. apply orb_true_iff, (Hletter _ _ lowers_to_a H).
  - left. apply orb_true_iff, (Hletter _ _ lowers_to_q H).
  - left. apply orb_true_iff, (Hletter _ _ lowers_to_p H).
  - left. apply orb_true_iff, (Hletter _ _ lowers_to_a H).
Qed.

(** What every analysis satisfies. *)
Lemma analysis_shape (password : string) :
  ∃ a, analyze_password_strength generator_init password = Ok a
       ∧ 1 ≤ score a ≤ 8
       ∧ strength a ≠ "Very Weak"
       ∧ password_length a = len password
       ∧ score a + Z.of_nat (length (feedback a))
         = (if len password >=? 12 then 8 else 7)
       ∧ list_getitem strength_levels (Z.min (score a) 5) = Ok (strength a).
Proof.
  unfold analyze_password_strength.
  destruct (repeated_returns password) as [again ->]. rewrite bind_Ok.
  pose proof (pattern_classes password) as Hpattern.
  destruct (existsb (contains (lower password)) common_patterns),
    (any_char islower password), (any_char isupper password),
    (any_char isdigit password),
    (any_char (has_char (symbols generator_init)) password), again,
    (len password >=? 12), (len password >=? 8);
    try (by specialize (Hpattern eq_refl));
    (eexists; split; [reflexivity|]; cbn; repeat split; (lia || done)).
Qed.

(** X19. [analyze_password_strength] returns for every password (the
    test for repeated characters never subscripts out of range), with a
    score from 1 to 8 and never the level Very Weak: a password with a
    common pattern holds a digit or a letter.  Both bounds are reached,
    where the comments of the function say that the score is from 0
    to 7. *)
Theorem analysis_score_bounds :
  (∀ password,
     ∃ a, analyze_password_strength generator_init password = Ok a
          ∧ 1 ≤ score a ≤ 8
          ∧ strength a ≠ "Very Weak"
          ∧ password_length a = len password)
  ∧ (∃ password a,
       analyze_password_strength generator_init password = Ok a
       ∧ score a = 1)
  ∧ (∃ password a,
       analyze_password_strength generator_init password = Ok a
       ∧ score a = 8).
Proof.
  split; [|split].
  - intros password.
    destruct (analysis_shape password) as (a & Ha & Hs & Hw & Hl & _).
    by exists a.
  - exists "AABC". eexists. split; [by vm_compute|done].
  - exists "Tr0ub4dor&3x". eexists. split; [by vm_compute|done].
Qed.

(** X20. The score and the number of lines of feedback add up to 7, or
    to 8 for a password of 12 characters or more; so an analysis without
    feedback has the level Very Strong, and so has every analysis with a
    score of 5 or more, which two lines of feedback go with for a long
    password. *)
Theorem analysis_feedback (password : string) :
  ∃ a, analyze_password_strength generator_init password = Ok a
       ∧ score a + Z.of_nat (length (feedback a))
         = (if len password >=? 12 then 8 else 7)
       ∧ (feedback a = [] → strength a = "Very Strong")
       ∧ (5 ≤ score a → strength a = "Very Strong").
Proof.
  destruct (analysis_shape password) as (a & Ha & Hs & _ & _ & Hsum & Hlevel).
  exists a. split; [done|]. split; [done|].
  assert (5 ≤ score a → strength a = "Very Strong") as Hstrong.
  { intros H5. rewrite Z.min_r in Hlevel by done.
    change (list_getitem strength_levels 5) with (Ok "Very Strong") in Hlevel.
    congruence. }
  split; [|done]. intros Hnone. apply Hstrong.
  rewrite Hnone in Hsum. cbn in Hsum. destruct (len password >=? 12); lia.
Qed.

End StrengthFacts.

(** * Tasks and expenses *)

Module TaskFacts.

Import PyFacts Projects ProjectsMore.

(** X21. A task that [update_status] has completed or cancelled is not
    overdue, whatever its due date, and [is_overdue] does not read the
    clock for it. *)
Theorem closed_task_not_overdue (self : Task) (now : Z) (clock : nat → Z)
        (n : nat) :
  is_overdue (update_status self "completed" now).1 clock n = (false, n)
  ∧ is_overdue (update_status self "cancelled" now).1 clock n = (false, n).
Proof.
  unfold is_overdue, update_status, finished. cbn.
  by destruct (due_date self).
Qed.

Lemma is_overdue_true (task : Task) (clock : nat → Z) (n : nat) :
  ∀ n', is_overdue task clock n = (true, n') →
        n' = S n
        ∧ ∃ due, due_date task = Some due
                 ∧ finished task = false
                 ∧ due < clock n.
Proof.
  intros n'. unfold is_overdue.
  destruct (due_date task) as [due|]; [|done].
  destruct (finished task); cbn [negb]; [done|].
  intros [= Hlate <-]. split; [done|]. exists due. repeat split. lia.
Qed.

Lemma is_overdue_counts (task : Task) (clock : nat → Z) (n : nat) :
  (n ≤ (is_overdue task clock n).2)%nat.
Proof.
  unfold is_overdue. destruct (due_date task); [|done].
  destruct (finished task); cbn; lia.
Qed.

Lemma overdue_among_due (clock : nat → Z) (ts : list Task) :
  (∀ i j, (i ≤ j)%nat → clock i ≤ clock j) →
  ∀ n, (n ≤ (overdue_among ts clock n).2)%nat
       ∧ ∀ cutoff, clock (overdue_among ts clock n).2 ≤ cutoff →
                   (overdue_among ts clock n).1
                     `sublist_of` filter (λ task, due_by cutoff task = true) ts.
Proof.
  intros Hmono. induction ts as [|task rest IH]; intros n.
  - split; [done|]. intros cutoff _. constructor.
  - cbn [overdue_among].
    pose proof (is_overdue_true task clock n) as Htrue.
    pose proof (is_overdue_counts task clock n) as Hcount.
    destruct (is_overdue task clock n) as [late n1]. cbn [snd] in Hcount.
    destruct (IH n1) as [Hn1 Hsub].
    destruct (overdue_among rest clock n1) as [others n2].
    cbn [fst snd] in *. split; [lia|]. intros cutoff Hcut.
    rewrite filter_cons. destruct late.
    + destruct (Htrue n1 eq_refl) as (-> & due & Hdue & Hopen & Hlate).
      rewrite decide_True.
      * apply sublist_skip, Hsub, Hcut.
      * unfold due_by. rewrite Hdue, Hopen, andb_true_r. apply Z.leb_le.
        pose proof (Hmono n n2 ltac:(lia)). lia.
    + destruct (decide (due_by cutoff task = true)).
      * apply sublist_cons, Hsub, Hcut.
      * apply Hsub, Hcut.
Qed.

(** X22. [get_tasks_due_soon] raises [OverflowError] when the days
    exceed 999999999 or the cutoff date falls after [datetime.max], and
    returns otherwise, for days from 0 on.  When it returns, with a clock
    that does not go back, every task that an earlier call of
    [get_overdue_tasks] returned is among its tasks: the tasks due soon
    include the overdue ones, so that in the dashboard the overdue count
    is at most the due-soon count. *)
Theorem overdue_is_due_soon (self : TaskManager) (days : Z)
        (clock : nat → Z) (n : nat) :
  (∀ i j, (i ≤ j)%nat → clock i ≤ clock j) →
  (∀ k, 0 ≤ clock k) →
  0 ≤ days →
  match get_tasks_due_soon self days clock
                           (get_overdue_tasks self clock n).2 with
  | Ok (soon, _) =>
      days ≤ 999999999
      ∧ clock (get_overdue_tasks self clock n).2 + days * 86400000000
        ≤ datetime_max
      ∧ (get_overdue_tasks self clock n).1 `sublist_of` soon
      ∧ (length (get_overdue_tasks self clock n).1 ≤ length soon)%nat
  | Raise e =>
      e = OverflowError
      ∧ (999999999 < days
         ∨ datetime_max
           < clock (get_overdue_tasks self clock n).2 + days * 86400000000)
  end.
Proof.
  intros Hmono Hclock Hdays. unfold get_overdue_tasks, get_tasks_due_soon.
  destruct (overdue_among_due clock (values self) Hmono n) as [_ Hsub].
  set (n1 := (overdue_among (values self) clock n).2) in *.
  specialize (Hclock n1).
  unfold timedelta_days.
  destruct (Z.leb_spec (-999999999) days); [|lia].
  destruct (Z.leb_spec days 999999999); cbn [andb]; [|split; [done|lia]].
  rewrite bind_Ok. unfold datetime_add.
  destruct (Z.leb_spec 0 (clock n1 + days * 86400000000)); [|lia].
  destruct (Z.leb_spec (clock n1 + days * 86400000000) datetime_max);
    cbn [andb]; [|split; [done|lia]].
  rewrite bind_Ok. split; [done|]. split; [done|].
  assert (clock n1 ≤ clock n1 + days * 86400000000) as Hcut by lia.
  split; [by apply Hsub|]. by apply sublist_length, Hsub.
Qed.

Lemma overdue_is_due_soon_witness :
  match get_tasks_due_soon two_tasks 7 ticking
                           (get_overdue_tasks two_tasks ticking 0).2 with
  | Ok (soon, _) =>
      7 ≤ 999999999
      ∧ ticking (get_overdue_tasks two_tasks ticking 0).2 + 7 * 86400000000
        ≤ datetime_max
      ∧ (get_overdue_tasks two_tasks ticking 0).1 `sublist_of` soon
      ∧ (length (get_overdue_tasks two_tasks ticking 0).1 ≤ length soon)%nat
  | Raise e =>
      e = OverflowError
      ∧ (999999999 < 7
         ∨ datetime_max
           < ticking (get_overdue_tasks two_tasks ticking 0).2
             + 7 * 86400000000)
  end.
Proof.
  apply (overdue_is_due_soon two_tasks 7 ticking 0).
  - intros i j Hij. unfold ticking. lia.
  - intros k. unfold ticking. lia.
  - lia.
Defined.

End TaskFacts.

Module ExpenseFacts.

Import PyFacts Projects ProjectsMore.

Lemma days_in_month_positive (y m : Z) : 1 ≤ days_in_month y m.
Proof.
  unfold days_in_month.
  destruct (m =? 2); [destruct (is_leap y); lia|].
  destruct ((m =? 4) || (m =? 6) || (m =? 9) || (m =? 11)); lia.
Qed.

Lemma datetime_ymd_first (y m : Z) :
  1 ≤ y ≤ 9999 → 1 ≤ m ≤ 12 →
  datetime_ymd y m 1
  = Ok {| year := y; month := m; day := 1;
          hour := 0; minute := 0; second := 0; microsecond := 0 |}.
Proof.
  intros Hy Hm. unfold datetime_ymd.
  pose proof (days_in_month_positive y m).
  destruct (Z.leb_spec 1 y); [|lia].
  destruct (Z.leb_spec y 9999); [|lia].
  destruct (Z.leb_spec 1 m); [|lia].
  destruct (Z.leb_spec m 12); [|lia].
  destruct (Z.leb_spec 1 (days_in_month y m)); [|lia].
  done.
Qed.

Lemma lex_le_refl (a : list Z) : lex_le a a = true.
Proof.
  induction a as [|x a IH]; [done|].
  cbn [lex_le]. by rewrite Z.eqb_refl, IH, orb_true_r.
Qed.

(** The month after a month. *)
Lemma next_month_later (y m : Z) :
  lex_le [y; m; 1; 0; 0; 0; 0]
         [if m =? 12 then y + 1 else y; if m =? 12 then 1 else m + 1;
          1; 0; 0; 0; 0] = true.
Proof.
  cbn [lex_le]. destruct (m =? 12).
  - by destruct (Z.ltb_spec y (y + 1)); [|lia].
  - rewrite Z.eqb_refl. destruct (Z.ltb_spec m (m + 1)); [|lia].
    by rewrite orb_true_r.
Qed.

(** X23. The range of a monthly summary includes its end, the first
    instant of the next month: an expense dated at midnight on the first
    day of a month is selected for that month and for the month before
    it, so that it is counted in the summaries of both. *)
Theorem month_boundary_twice (self : ExpenseTracker) (y m : Z)
        (exp : Expense) :
  1 ≤ y ≤ 9998 → 1 ≤ m ≤ 12 →
  exp ∈ expenses self →
  date exp = {| year := if m =? 12 then y + 1 else y;
                month := if m =? 12 then 1 else m + 1;
                day := 1;
                hour := 0; minute := 0; second := 0; microsecond := 0 |} →
  ∃ before after,
    monthly_expenses self y m = Ok before
    ∧ monthly_expenses self (if m =? 12 then y + 1 else y)
                       (if m =? 12 then 1 else m + 1) = Ok after
    ∧ exp ∈ before
    ∧ exp ∈ after.
Proof.
  intros Hy Hm Hin Hdate.
  set (y' := if m =? 12 then y + 1 else y) in *.
  set (m' := if m =? 12 then 1 else m + 1) in *.
  assert (1 ≤ y' ≤ 9999 ∧ 1 ≤ m' ≤ 12) as [Hy' Hm']
      by (subst y' m'; destruct (Z.eqb_spec m 12); lia).
  set (y'' := if m' =? 12 then y' + 1 else y').
  set (m'' := if m' =? 12 then 1 else m' + 1).
  assert (1 ≤ y'' ≤ 9999 ∧ 1 ≤ m'' ≤ 12) as [Hy'' Hm''].
  { subst y'' m'' y' m'.
    destruct (Z.eqb_spec m 12); [by destruct (Z.eqb_spec 1 12); lia|].
    destruct (Z.eqb_spec (m + 1) 12); lia. }
  assert (∀ a b, (if b =? 12 then datetime_ymd (a + 1) 1 1
                  else datetime_ymd a (b + 1) 1)
                 = datetime_ymd (if b =? 12 then a + 1 else a)
                                (if b =? 12 then 1 else b + 1) 1) as Hend
      by (intros a b; by destruct (b =? 12)).
  unfold monthly_expenses. rewrite !Hend. fold y' m' y'' m''.
  rewrite (datetime_ymd_first y m), (datetime_ymd_first y' m'),
    (datetime_ymd_first y'' m''), !bind_Ok by (done || lia).
  do 2 eexists. split; [done|]. split; [done|].
  unfold get_expenses_by_date_range.
  split; apply list_elem_of_filter; (split; [|done]); rewrite Hdate;
    apply andb_true_iff; unfold datetime_le, fields; cbn [year month day hour
      minute second microsecond].
  - split; [apply next_month_later|apply lex_le_refl].
  - split; [apply lex_le_refl|apply next_month_later].
Qed.

Lemma month_boundary_twice_witness :
  ∃ before after,
    monthly_expenses
      {| expenses_db_name := "expenses.db";
         expenses := [ {| amount := S754_zero false;
                          expense_description := "rent";
                          category := "Housing";
                          date := {| year := 2025; month := 1; day := 1;
                                     hour := 0; minute := 0; second := 0;
                                     microsecond := 0 |};
                          expense_id := Some 1 |} ];
         categories := {[ "Housing" ]} |} 2024 12 = Ok before
    ∧ monthly_expenses
        {| expenses_db_name := "expenses.db";
           expenses := [ {| amount := S754_zero false;
                            expense_description := "rent";
                            category := "Housing";
                            date := {| year := 2025; month := 1; day := 1;
                                       hour := 0; minute := 0; second := 0;
                                       microsecond := 0 |};
                            expense_id := Some 1 |} ];
           categories := {[ "Housing" ]} |} 2025 1 = Ok after
    ∧ {| amount := S754_zero false;
         expense_description := "rent";
         category := "Housing";
         date := {| year := 2025; month := 1; day := 1;
                    hour := 0; minute := 0; second := 0; microsecond := 0 |};
         expense_id := Some 1 |} ∈ before
    ∧ {| amount := S754_zero false;
         expense_description := "rent";
         category := "Housing";
         date := {| year := 2025; month := 1; day := 1;
                    hour := 0; minute := 0; second := 0; microsecond := 0 |};
         expense_id := Some 1 |} ∈ after.
Proof.
  apply (month_boundary_twice
           {| expenses_db_name := "expenses.db";
              expenses := [ {| amount := S754_zero false;
                               expense_description := "rent";
                               category := "Housing";
                               date := {| year := 2025; month := 1; day := 1;
                                          hour := 0; minute := 0; second := 0;
                                          microsecond := 0 |};
                               expense_id := Some 1 |} ];
              categories := {[ "Housing" ]} |} 2024 12).
  - lia.
  - lia.
  - cbn. apply list_elem_of_singleton. reflexivity.
  - reflexivity.
Defined.

End ExpenseFacts.

(** * [validate_email] *)

Module EmailFacts.

Import PyFacts Utility UtilityFacts ErrorHandlingMore.

Lemma contains_char (s : string) (c : ascii) :
  contains s (String c EmptyString) = has_char s c.
Proof.
  induction s as [|h s IH]; cbn [contains has_char String.prefix]; [done|].
  rewrite IH. destruct (ascii_dec c h) as [->|Hne].
  - by rewrite Ascii.eqb_refl; destruct s.
  - assert (Ascii.eqb h c = false) as -> by (apply Ascii.eqb_neq; congruence).
    done.
Qed.

Lemma has_char_app (a b : string) (c : ascii) :
  has_char (a ++ b) c = has_char a c || has_char b c.
Proof.
  induction a as [|h a IH]; [done|].
  rewrite append_cons. cbn [has_char]. by rewrite IH, orb_assoc.
Qed.

Lemma split_nonempty (sep : ascii) (s : string) : split sep s ≠ [].
Proof.
  destruct s as [|c s]; cbn [split]; [done|].
  destruct (Ascii.eqb c sep); [done|]. by destruct (split sep s).
Qed.

Lemma split_prefix (sep : ascii) (pre rest : string) :
  has_char pre sep = false →
  split sep (pre ++ String sep rest) = pre :: split sep rest.
Proof.
  induction pre as [|c pre IH]; intros Hpre.
  - cbn [split]. change (EmptyString ++ String sep rest)%string
      with (String sep rest). cbn [split]. by rewrite Ascii.eqb_refl.
  - cbn [has_char] in Hpre. apply orb_false_iff in Hpre as [Hc Hpre].
    rewrite append_cons. cbn [split]. rewrite Hc, IH by done. done.
Qed.

Lemma split_none (sep : ascii) (s : string) :
  has_char s sep = false → split sep s = [s].
Proof.
  induction s as [|c s IH]; intros Hs; [done|].
  cbn [has_char] in Hs. apply orb_false_iff in Hs as [Hc Hs].
  cbn [split]. by rewrite Hc, IH.
Qed.

Lemma second_item {A : Type} (x y : A) (l : list A) :
  list_getitem (x :: y :: l) 1 = Ok y.
Proof.
  unfold list_getitem. rewrite norm_index_in_range by (cbn [length]; lia).
  done.
Qed.

(** The text up to the first separator, when there is one. *)
Lemma cut_at (c : ascii) (s : string) :
  ∃ seg tail,
    s = (seg ++ tail)%string
    ∧ has_char seg c = false
    ∧ (tail = EmptyString ∨ ∃ more, tail = String c more).
Proof.
  induction s as [|h s (seg & tail & -> & Hseg & Htail)].
  - exists EmptyString, EmptyString. auto.
  - destruct (Ascii.eqb h c) eqn:Hh.
    + apply Ascii.eqb_eq in Hh as ->.
      exists EmptyString, (String c (seg ++ tail)). eauto.
    + exists (String h seg), tail. rewrite append_cons. cbn [has_char].
      by rewrite Hh, Hseg.
Qed.

Lemma validate_email_cases (local seg tail : string) :
  has_char local "@" = false →
  has_char seg "@" = false →
  tail = EmptyString ∨ (∃ more, tail = String "@" more) →
  validate_email (local ++ String "@" (seg ++ tail))
  = if has_char seg "." then Return true
    else Throw (InvalidEmailError (local ++ String "@" (seg ++ tail))).
Proof.
  intros Hlocal Hseg Htail. unfold validate_email.
  rewrite contains_char, has_char_app. cbn [has_char].
  rewrite Ascii.eqb_refl, orb_true_r. cbn [orb negb].
  rewrite split_prefix by done.
  assert (∃ others, split "@" (seg ++ tail) = seg :: others) as [others ->].
  { destruct Htail as [->|[more ->]].
    - rewrite append_empty, split_none by done. by eexists.
    - rewrite split_prefix by done. by eexists. }
  destruct others as [|x others];
    rewrite ?second_item; cbn [lift mbind outcome_bind];
    rewrite contains_char; by destruct (has_char seg ".").
Qed.

(** X24. [validate_email] looks at one thing only: whether the text
    between the first at sign and the next one, or the end, holds a full
    stop.  It accepts the address when it does and raises
    [InvalidEmailError] when not, whatever stands before the first at
    sign and after the second. *)
Theorem validate_email_segment (local seg tail : string) :
  has_char local "@" = false →
  has_char seg "@" = false →
  tail = EmptyString ∨ (∃ more, tail = String "@" more) →
  validate_email (local ++ String "@" (seg ++ tail))
  = if has_char seg "." then Return true
    else Throw (InvalidEmailError (local ++ String "@" (seg ++ tail))).
Proof. apply validate_email_cases. Qed.

Lemma validate_email_segment_witness :
  validate_email ("" ++ String "@" ("." ++ "@@"))
  = if has_char "." "." then Return true
    else Throw (InvalidEmailError ("" ++ String "@" ("." ++ "@@"))).
Proof.
  apply (validate_email_segment "" "." "@@").
  - reflexivity.
  - reflexivity.
  - right. exists "@". reflexivity.
Defined.

(** X25. [validate_email] returns True or raises [InvalidEmailError]
    with the address, for every string: the subscript 1 after the split
    never raises [IndexError]. *)
Theorem validate_email_total (email : string) :
  validate_email email = Return true
  ∨ validate_email email = Throw (InvalidEmailError email).
Proof.
  destruct (has_char email "@") eqn:Hat.
  - destruct (cut_at "@" email) as (local & tail & -> & Hlocal & Htail).
    destruct Htail as [->|[rest ->]].
    + rewrite append_empty in Hat. congruence.
    + destruct (cut_at "@" rest) as (seg & tail & -> & Hseg & Htail).
      rewrite (validate_email_cases local seg tail Hlocal Hseg Htail).
      destruct (has_char seg "."); auto.
  - right. unfold validate_email. by rewrite contains_char, Hat.
Qed.

End EmailFacts.

(** * The hangman loop *)

Module HangmanPlayFacts.

Import PyFacts Utility UtilityFacts Games GamesMore HangmanFacts.

Lemma lost_spec (s : HangmanGame) :
  is_game_lost s = false ↔ wrong_guesses s < max_wrong_guesses s.
Proof. unfold is_game_lost. rewrite Z.leb_gt. done. Qed.

(** A letter of the word occurs in the word. *)
Lemma contains_letter (w : string) (c : ascii) :
  c ∈ list_ascii_of_string w → contains w (String c EmptyString) = true.
Proof.
  rewrite <- PasswordFacts.has_char_elem, EmailFacts.contains_char. done.
Qed.

(** A guess that is not in the word does not win the game. *)
Lemma wrong_guess_not_won (s : HangmanGame) (g : string) (n : Z) :
  is_game_won s = false →
  contains (word s) g = false →
  is_game_won {| words := words s; word := word s;
                 guessed_letters := guessed_letters s ∪ {[ g ]};
                 wrong_guesses := n;
                 max_wrong_guesses := max_wrong_guesses s |} = false.
Proof.
  intros Hwon Hg. apply not_true_is_false. intros Hwon'.
  apply not_true_iff_false in Hwon. apply Hwon.
  apply HangmanMoreFacts.is_game_won_spec. intros c Hc.
  pose proof (proj1 (HangmanMoreFacts.is_game_won_spec _) Hwon' c Hc) as Hin.
  cbn [guessed_letters] in Hin.
  apply elem_of_union in Hin as [Hin|Heq%elem_of_singleton]; [done|].
  subst g. by rewrite contains_letter in Hg.
Qed.

Lemma make_guess_keeps (s : HangmanGame) (g : string) :
  play_loop_invariant s →
  is_game_won s = false → is_game_lost s = false →
  play_loop_invariant (make_guess s g).1.
Proof.
  intros (Hmax & Hwrong & _) Hwon Hlost.
  apply lost_spec in Hlost.
  destruct (decide (lower g ∈ guessed_letters s)) as [Hin|Hnew].
  - rewrite make_guess_repeated by done. cbn [fst].
    repeat split; try done; try lia. by rewrite Hwon.
  - rewrite make_guess_new by done. cbn [fst].
    destruct (contains (word s) (lower g)) eqn:Hg.
    + repeat split; cbn [max_wrong_guesses wrong_guesses]; try done; try lia.
      apply andb_false_iff. right. apply lost_spec. cbn. lia.
    + repeat split; cbn [max_wrong_guesses wrong_guesses]; try done; try lia.
      apply andb_false_iff. left.
      pose proof (wrong_guess_not_won s (lower g) (wrong_guesses s + 1)
                    Hwon Hg) as H.
      exact H.
Qed.

Lemma play_loop_ends (inputs : list string) :
  ∀ s, play_loop_invariant s →
       match play_loop s inputs with
       | Return s' =>
           play_loop_invariant s'
           ∧ is_game_won s' || is_game_lost s' = true
       | Throw e => e = EOFError
       end.
Proof.
  induction inputs as [|line rest IH]; intros s Hs; cbn [play_loop].
  - destruct (is_game_won s) eqn:Hwon; cbn [negb andb orb]; [by rewrite Hwon|].
    destruct (is_game_lost s) eqn:Hlost; cbn [negb]; [|done].
    by rewrite Hwon, Hlost.
  - destruct (is_game_won s) eqn:Hwon; cbn [negb andb orb]; [by rewrite Hwon|].
    destruct (is_game_lost s) eqn:Hlost; cbn [negb];
      [by rewrite Hwon, Hlost|].
    destruct (negb (len (lower (strip line)) =? 1)
              || negb (isalpha (lower (strip line)))).
    + by apply IH.
    + apply IH. by apply make_guess_keeps.
Qed.

(** X28. [HangmanGame.play_game] ends in one of two ways, whatever the
    player enters: the input runs out ([EOFError]), or the loop stops
    with the game either won or lost and never both, the wrong guesses
    between 0 and 6. *)
Theorem hangman_play_game_ends (draw : nat) (inputs : list string) :
  match hangman_play_game hangman_init draw inputs with
  | Return s =>
      xorb (is_game_won s) (is_game_lost s) = true
      ∧ 0 ≤ wrong_guesses s ≤ 6
  | Throw e => e = EOFError
  end.
Proof.
  unfold hangman_play_game.
  destruct (select_random_word_returns hangman_init draw) as (w & _ & ->);
    [done|].
  cbn [lift mbind outcome_bind].
  match goal with |- context [play_loop ?g _] => set (g0 := g) end.
  assert (play_loop_invariant g0) as Hg0.
  { repeat split; try done. apply andb_false_iff. by right. }
  pose proof (play_loop_ends inputs g0 Hg0) as Hends.
  destruct (play_loop g0 inputs) as [s|e]; [|done].
  destruct Hends as [(_ & Hwrong & Hboth) Hone]. split; [|done].
  by destruct (is_game_won s), (is_game_lost s).
Qed.

End HangmanPlayFacts.

(** * The end of a tic-tac-toe game *)

Module TicTacToeEndFacts.

Import PyFacts Games GamesMore TicTacToeFacts TicTacToeMoreFacts.

(** A round leaves the board that [make_move] made. *)
Lemma play_round_board (s s1 s' : TicTacToe) (row col : Z) (ok : bool) :
  make_move s row col = Ok (s1, ok) →
  play_round s row col = Ok s' →
  board s' = board s1.
Proof.
  intros Hmove. unfold play_round. rewrite Hmove, bind_Ok. cbv beta iota.
  destruct ok; [|by intros [= <-]].
  destruct (check_winner s1) as [w|e]; [|done]. rewrite bind_Ok.
  destruct (winner_truthy w); [by intros [= <-]|].
  destruct (is_board_full s1); by intros [= <-].
Qed.

(** After a round the cell it addressed holds a mark, and so does every
    cell that held one. *)
Lemma play_round_taken (s : TicTacToe) (row col : Z) :
  play_invariant s → game_over s = false →
  ∃ s', play_round s row col = Ok s'
        ∧ play_invariant s'
        ∧ (0 ≤ row < 3 → 0 ≤ col < 3 → taken s' row col)
        ∧ ∀ r c, 0 ≤ r < 3 → 0 ≤ c < 3 → taken s r c → taken s' r c.
Proof.
  intros Hs Hover.
  destruct (play_round_invariant s row col Hs Hover) as (s' & Hround & Hs').
  exists s'. split; [done|]. split; [done|].
  destruct Hs as (H3 & _ & Hrest). rewrite Hover in Hrest.
  destruct Hrest as (Hturn & _ & _).
  assert (current_player s ≠ " ") as Hmark
      by (destruct Hturn as [[-> _]|[-> _]]; done).
  unfold taken.
  assert ((0 ≤ row < 3 ∧ 0 ≤ col < 3 ∧ cell (board s) row col = Ok " ")
          ∨ ¬ (0 ≤ row < 3 ∧ 0 ≤ col < 3 ∧ cell (board s) row col = Ok " "))
    as [(Hrow & Hcol & Hblank)|Hbad].
  { destruct (decide (0 ≤ row < 3 ∧ 0 ≤ col < 3)) as [[Hr Hc]|Hout];
      [|right; tauto].
    destruct (cell (board s) row col) as [x|e]; [|right; by intros (_ & _ & ?)].
    destruct (String.eqb_spec x " ") as [->|Hne]; [by left|].
    right. intros (_ & _ & [= ?]). done. }
  - destruct (make_move_accepted s row col H3 Hrow Hcol Hblank)
      as (b' & Hmove & _ & Hcell & Hothers).
    rewrite (play_round_board _ _ _ _ _ _ Hmove Hround). cbn [board].
    split.
    + intros _ _. rewrite Hcell. congruence.
    + intros r c Hr Hc Htaken.
      destruct (decide ((r, c) = (row, col))) as [[= -> ->]|Hne].
      * rewrite Hcell. congruence.
      * by rewrite Hothers.
  - pose proof (make_move_refused s row col H3 Hbad) as Hmove.
    rewrite (play_round_board _ _ _ _ _ _ Hmove Hround).
    split; [|done]. intros Hrow Hcol Hblank. apply Hbad. done.
Qed.

Lemma play_game_taken (inputs : list (Z * Z)) :
  ∀ s, play_invariant s →
       ∃ s', play_game s inputs = Ok s'
             ∧ play_invariant s'
             ∧ (game_over s' = false →
                (∀ r c, 0 ≤ r < 3 → 0 ≤ c < 3 → taken s r c → taken s' r c)
                ∧ ∀ r c, 0 ≤ r < 3 → 0 ≤ c < 3 → (r, c) ∈ inputs →
                         taken s' r c).
Proof.
  induction inputs as [|[row col] rest IH]; intros s Hs.
  - exists s. split; [done|]. split; [done|]. intros _. split; [done|].
    by intros r c _ _ ?%elem_of_nil.
  - cbn [play_game]. destruct (game_over s) eqn:Hover.
    + exists s. split; [done|]. split; [done|]. congruence.
    + destruct (play_round_taken s row col Hs Hover)
        as (s1 & -> & Hs1 & Hcell & Hkept).
      rewrite bind_Ok.
      destruct (IH s1 Hs1) as (s' & Hplay & Hs' & Hend).
      exists s'. split; [done|]. split; [done|]. intros Hopen.
      destruct (Hend Hopen) as [Hkept' Hrest]. split.
      * intros r c Hr Hc Htaken. by apply Hkept', Hkept.
      * intros r c Hr Hc [[= -> ->]|Hin]%elem_of_cons.
        -- by apply Hkept', Hcell.
        -- by apply Hrest.
Qed.

(** A board with a mark in every cell is full. *)
Lemma all_taken_full (s : TicTacToe) :
  is_3x3 (board s) = true →
  (∀ r c, 0 ≤ r < 3 → 0 ≤ c < 3 → taken s r c) →
  is_board_full s = true.
Proof.
  intros H3 Hall. unfold taken in Hall. destruct s as [b p g].
  cbn [board] in *. unfold is_board_full. cbn [board].
  apply is_3x3_cells in H3
    as (a0 & a1 & a2 & b0 & b1 & b2 & c0 & c1 & c2 & ->).
  pose proof (Hall 0 0 ltac:(lia) ltac:(lia)) as H00.
  pose proof (Hall 0 1 ltac:(lia) ltac:(lia)) as H01.
  pose proof (Hall 0 2 ltac:(lia) ltac:(lia)) as H02.
  pose proof (Hall 1 0 ltac:(lia) ltac:(lia)) as H10.
  pose proof (Hall 1 1 ltac:(lia) ltac:(lia)) as H11.
  pose proof (Hall 1 2 ltac:(lia) ltac:(lia)) as H12.
  pose proof (Hall 2 0 ltac:(lia) ltac:(lia)) as H20.
  pose proof (Hall 2 1 ltac:(lia) ltac:(lia)) as H21.
  pose proof (Hall 2 2 ltac:(lia) ltac:(lia)) as H22.
  change (a0 ≠ " " → False) with (a0 ≠ " ") in *.
  cbn [forallb].
  repeat match goal with
         | |- context [String.eqb ?x " "] =>
             destruct (String.eqb_spec x " ") as [->|?]
         end; cbn [negb andb]; first [reflexivity | exfalso; eauto].
Qed.

(** X29. A game in which every cell has been entered at least once is
    over: whatever else the players enter, and in whatever order,
    [play_game] has set [game_over] by the time the nine pairs from
    (0, 0) to (2, 2) have all occurred. *)
Theorem play_game_finishes (inputs : list (Z * Z)) :
  (∀ row col, 0 ≤ row < 3 → 0 ≤ col < 3 → (row, col) ∈ inputs) →
  ∃ s, play_game tictactoe_init inputs = Ok s ∧ game_over s = true.
Proof.
  intros Hall.
  destruct (play_game_taken inputs tictactoe_init play_invariant_init)
    as (s & Hplay & Hs & Hend).
  exists s. split; [done|].
  destruct (game_over s) eqn:Hover; [done|]. exfalso.
  destruct (Hend eq_refl) as [_ Htaken].
  destruct Hs as (H3 & _ & Hrest). rewrite Hover in Hrest.
  destruct Hrest as (_ & _ & Hfull).
  rewrite all_taken_full in Hfull; [done|done|].
  intros r c Hr Hc. apply Htaken; [done|done|]. by apply Hall.
Qed.

Lemma play_game_finishes_witness :
  ∃ s, play_game tictactoe_init
                 [(0, 0); (5, 5); (0, 1); (0, 2); (1, 0); (1, 1); (1, 2);
                  (2, 0); (2, 1); (2, 2)] = Ok s
       ∧ game_over s = true.
Proof.
  apply (play_game_finishes [(0, 0); (5, 5); (0, 1); (0, 2); (1, 0); (1, 1);
                             (1, 2); (2, 0); (2, 1); (2, 2)]).
  intros row col Hrow Hcol.
  assert (row = 0 ∨ row = 1 ∨ row = 2) as [-> | [-> | ->]] by lia;
    (assert (col = 0 ∨ col = 1 ∨ col = 2) as [-> | [-> | ->]] by lia);
    set_solver.
Defined.

End TicTacToeEndFacts.
